(** * media-insights: pivot builder, payload serializer and analysis engine

    A shallow embedding of [diligence/formatters.py], [diligence/pivoting.py]
    and [diligence/insights.py], with the properties the specification
    states about them.

    Conventions of the embedding.
    - Python [str] values are byte strings holding the UTF-8 encoding of the
      text (U+00A0 is the two bytes 194, 160).
    - A float read from the input table is a finite decimal [mant * 10^expo]
      ([dec]); the results of arithmetic (sums, means, ratios) are exact
      rationals ([Q]): rounding, infinities and signed zeros are not
      modelled.  A missing number (NaN) is [None].
    - The data-quality check compares a computed mean with a threshold: it
      is modelled in binary64 arithmetic, each number of the payload taken
      at the nearest binary64 number.
    - A Python call either raises or returns: [outcome]. *)

From Stdlib Require Import ZArith QArith Qabs Qround List Bool Ascii String Lia.
From Stdlib Require Import DecimalString DecimalN Sorting.Permutation.
From Corelib Require SpecFloat.
Import ListNotations.

Open Scope string_scope.
Open Scope Z_scope.

(** ** Outcomes of a call *)

Inductive outcome (A : Type) : Type :=
| Raised (exn : string)
| Returned (a : A).
Arguments Raised {A} exn.
Arguments Returned {A} a.

(** ** Text *)

Module Text.

(** [s.replace(old, new)] for a non-empty [old]: occurrences are replaced
    from left to right and do not overlap.  [skip] counts the characters of
    the current occurrence that are still to be dropped. *)
Fixpoint replace_from (skip : nat) (old new s : string) : string :=
  match s with
  | EmptyString => EmptyString
  | String c rest =>
      match skip with
      | S k => replace_from k old new rest
      | O =>
          if String.prefix old s
          then new ++ replace_from (String.length old - 1) old new rest
          else String c (replace_from O old new rest)
      end
  end.

Definition replace (old new s : string) : string := replace_from O old new s.

Fixpoint occurs (c : ascii) (s : string) : bool :=
  match s with
  | EmptyString => false
  | String d rest => Ascii.eqb c d || occurs c rest
  end.

Fixpoint all_chars (p : ascii -> bool) (s : string) : bool :=
  match s with
  | EmptyString => true
  | String c rest => p c && all_chars p rest
  end.

(** [sep.join(parts)] *)
Fixpoint join (sep : string) (parts : list string) : string :=
  match parts with
  | [] => ""
  | [p] => p
  | p :: rest => p ++ sep ++ join sep rest
  end.

(** ASCII white space, as [str.strip()] removes it. *)
Definition is_space (c : ascii) : bool :=
  let n := nat_of_ascii c in
  (Nat.eqb n 32 || (Nat.leb 9 n && Nat.leb n 13))%bool.

Fixpoint lstrip (s : string) : string :=
  match s with
  | String c rest => if is_space c then lstrip rest else s
  | EmptyString => EmptyString
  end.

Fixpoint rev_string (s acc : string) : string :=
  match s with
  | EmptyString => acc
  | String c rest => rev_string rest (String c acc)
  end.

Definition strip (s : string) : string :=
  rev_string (lstrip (rev_string (lstrip s) "")) "".

Definition is_digit (c : ascii) : bool :=
  let n := nat_of_ascii c in (Nat.leb 48 n && Nat.leb n 57)%bool.

(** The longest prefix of digits, and what follows it. *)
Fixpoint span_digits (s : string) : string * string :=
  match s with
  | String c rest =>
      if is_digit c
      then let (ds, tl) := span_digits rest in (String c ds, tl)
      else (EmptyString, s)
  | EmptyString => (EmptyString, EmptyString)
  end.

(** The number a string of digits denotes. *)
Definition digits_value (ds : string) : option N :=
  option_map N.of_uint (NilEmpty.uint_of_string ds).

(** The decimal digits of a natural number, ["0"] for zero. *)
Definition N_str (n : N) : string := NilZero.string_of_uint (N.to_uint n).

Definition Z_str (z : Z) : string :=
  if z <? 0 then String "-" (N_str (Z.abs_N z)) else N_str (Z.abs_N z).

End Text.

(** ** Numbers of the input table *)

Record dec : Type := mkdec { mant : Z; expo : Z }.

Definition dec_to_Q (d : dec) : Q := inject_Z (mant d) * Qpower (10 # 1) (expo d).

Definition dec_eqb (a b : dec) : bool :=
  (mant a =? mant b) && (expo a =? expo b).

Definition dec_of_Z (z : Z) : dec := mkdec z 0.

(** A value held by a column of the input table: text, a float, or the
    missing-value marker (NaN). *)
Inductive cell : Type :=
| CStr (s : string)
| CNum (d : dec)
| CNaN.

(** ** pandas text conversions used by [to_num] *)

Module PandasText.
Import Text.

(** [str(x)] of a float.  Python prints the shortest decimal that reads back
    as the same float, in positional or exponent form by magnitude; the
    model prints every float in exponent form, over the same alphabet
    (digits, sign, [e]).  The text is only read back by [to_num]: what the
    model keeps of the two conversions is that a number of the table comes
    out of [to_num] as the same number; their rounding is not modelled. *)
Definition float_str (d : dec) : string :=
  Z_str (mant d) ++ String "e" (Z_str (expo d)).

(** [series.astype(str)], one element. *)
Definition astype_str (c : cell) : string :=
  match c with
  | CStr s => s
  | CNum d => float_str d
  | CNaN => "nan"
  end.

Definition parse_sign (s : string) : bool * string :=
  match s with
  | String "-" rest => (true, rest)
  | String "+" rest => (false, rest)
  | _ => (false, s)
  end.

Definition signed (neg : bool) (n : N) : Z :=
  if neg then - Z.of_N n else Z.of_N n.

Definition is_exp_mark (c : ascii) : bool :=
  (Ascii.eqb c "e" || Ascii.eqb c "E")%bool.

(** The exponent part, after the [e]: an optional sign and at least one
    digit, up to the end of the text. *)
Definition parse_exponent (s : string) : option Z :=
  let (neg, s1) := parse_sign s in
  let (ds, tl) := span_digits s1 in
  match ds, tl with
  | String _ _, EmptyString => option_map (signed neg) (digits_value ds)
  | _, _ => None
  end.

(** A decimal number: an optional sign, digits with an optional fractional
    part (at least one digit in all), an optional exponent. *)
Definition parse_decimal (s : string) : option dec :=
  let (neg, s1) := parse_sign s in
  let (ip, s2) := span_digits s1 in
  let (fp, s3) :=
    match s2 with
    | String "." rest => span_digits rest
    | _ => (EmptyString, s2)
    end in
  match ip ++ fp with
  | EmptyString => None
  | String _ _ =>
      match digits_value (ip ++ fp) with
      | None => None
      | Some m =>
          let shift := Z.of_nat (String.length fp) in
          match s3 with
          | EmptyString => Some (mkdec (signed neg m) (- shift))
          | String c rest =>
              if is_exp_mark c
              then option_map (fun e => mkdec (signed neg m) (e - shift))
                              (parse_exponent rest)
              else None
          end
      end
  end.

(** The numbers [pd.to_numeric] reads from text: a decimal number, with or
    without ASCII white space before and after it.  Anything else is not a
    number.  The model has no infinity: it is claimed faithful on text other
    than the spellings of infinity ([inf], [infinity], signed or not), which
    pandas reads as a number. *)
Definition parse_number (s : string) : option dec := parse_decimal (strip s).

(** [pd.to_numeric(x, errors="coerce")] on one text element. *)
Definition to_numeric_coerce (s : string) : cell :=
  match parse_number s with
  | Some d => CNum d
  | None => CNaN
  end.

End PandasText.

(** ** diligence/formatters.py *)

Module Formatters.
Import Text PandasText.

(** U+00A0, the non-breaking space. *)
Definition nbsp : string :=
  String (ascii_of_nat 194) (String (ascii_of_nat 160) EmptyString).

(** The three replacements applied to every element. *)
Definition clean (s : string) : string :=
  replace "," "." (replace " " "" (replace nbsp "" s)).

Definition to_num (series : list cell) : list cell :=
  map (fun c => to_numeric_coerce (clean (astype_str c))) series.

End Formatters.

(** ** The pandas operations used by the pivot builder

    The model of the library: a table is an ordered sequence of named
    columns of equal length; a frame (the pivot) has a row index of label
    tuples, column labels, and numeric cells.  It is claimed faithful on
    tables whose column names are distinct. *)

Module Pandas.
Import Text PandasText.
Local Open Scope list_scope.

(** A value of a grouping column, once it labels a row or a column. *)
Inductive label : Type :=
| LStr (s : string)
| LNum (d : dec).

Definition Q_eqb (a b : Q) : bool := Qeq_bool a b.
Definition Q_leb (a b : Q) : bool := Qle_bool a b.
Definition Q_ltb (a b : Q) : bool := negb (Qle_bool b a).

(** Python [==] on labels: numbers by value, text by content. *)
Definition label_eqb (a b : label) : bool :=
  match a, b with
  | LStr s, LStr t => String.eqb s t
  | LNum d, LNum e => Q_eqb (dec_to_Q d) (dec_to_Q e)
  | _, _ => false
  end.

(** The order in which pandas sorts group keys: numbers by value, text by
    code point, numbers before text. *)
Definition label_leb (a b : label) : bool :=
  match a, b with
  | LNum d, LNum e => Q_leb (dec_to_Q d) (dec_to_Q e)
  | LNum _, LStr _ => true
  | LStr _, LNum _ => false
  | LStr s, LStr t => String.leb s t
  end.

Definition key : Type := list label.

Fixpoint key_eqb (a b : key) : bool :=
  match a, b with
  | [], [] => true
  | x :: a', y :: b' => label_eqb x y && key_eqb a' b'
  | _, _ => false
  end.

(** Lexicographic order on tuples. *)
Fixpoint key_leb (a b : key) : bool :=
  match a, b with
  | [], _ => true
  | _ :: _, [] => false
  | x :: a', y :: b' =>
      if label_eqb x y then key_leb a' b' else label_leb x y
  end.

(** Stable insertion sort, ascending for [leb]. *)
Section Sort.
Context {A : Type} (leb : A -> A -> bool).

Fixpoint insert_sorted (x : A) (l : list A) : list A :=
  match l with
  | [] => [x]
  | y :: rest => if leb x y then x :: l else y :: insert_sorted x rest
  end.

(** Elements are inserted from the last to the first, each before the
    first element it is not greater than: equal elements keep their
    order. *)
Fixpoint sort (l : list A) : list A :=
  match l with
  | [] => []
  | x :: rest => insert_sorted x (sort rest)
  end.
End Sort.

(** The distinct elements, in order of first appearance ([unique()]). *)
Section Unique.
Context {A : Type} (eqb : A -> A -> bool).

Fixpoint unique_acc (seen l : list A) : list A :=
  match l with
  | [] => []
  | x :: rest =>
      if existsb (eqb x) seen then unique_acc seen rest
      else x :: unique_acc (x :: seen) rest
  end.

Definition unique (l : list A) : list A := unique_acc [] l.
End Unique.

(** *** Tables *)

Definition table : Type := list (string * list cell).

Fixpoint get_column (t : table) (name : string) : option (list cell) :=
  match t with
  | [] => None
  | (n, vals) :: rest => if String.eqb n name then Some vals else get_column rest name
  end.

Definition has_column (t : table) (name : string) : bool :=
  match get_column t name with Some _ => true | None => false end.

(** [df[name] = vals] on an existing column. *)
Fixpoint set_column (t : table) (name : string) (vals : list cell) : table :=
  match t with
  | [] => []
  | (n, old) :: rest =>
      if String.eqb n name then (n, vals) :: rest
      else (n, old) :: set_column rest name vals
  end.

Definition row_count (t : table) : nat :=
  match t with
  | [] => O
  | (_, vals) :: _ => List.length vals
  end.

(** The cells of row [i] in the columns [names]. *)
Definition row_cells (t : table) (names : list string) (i : nat) : list cell :=
  map (fun n => match get_column t n with
                | Some vals => nth i vals CNaN
                | None => CNaN
                end) names.

Definition notna (c : cell) : bool :=
  match c with CNaN => false | _ => true end.

(** The label of a key cell; a missing key has none. *)
Definition cell_label (c : cell) : option label :=
  match c with
  | CStr s => Some (LStr s)
  | CNum d => Some (LNum d)
  | CNaN => None
  end.

Fixpoint key_of_cells (cs : list cell) : option key :=
  match cs with
  | [] => Some []
  | c :: rest =>
      match cell_label c, key_of_cells rest with
      | Some l, Some k => Some (l :: k)
      | _, _ => None
      end
  end.

(** *** Aggregation *)

Inductive aggregator : Type := Sum | Mean | Count | Median | Min | Max.

Definition cell_value (c : cell) : option Q :=
  match c with
  | CNum d => Some (dec_to_Q d)
  | _ => None
  end.

(** The numbers of a group, missing values left out. *)
Fixpoint present (cs : list cell) : list Q :=
  match cs with
  | [] => []
  | c :: rest =>
      match cell_value c with
      | Some q => q :: present rest
      | None => present rest
      end
  end.

Definition Qsum (l : list Q) : Q := fold_right Qplus 0%Q l.

Definition Qlength (l : list Q) : Q := inject_Z (Z.of_nat (List.length l)).

Definition Qmean (l : list Q) : option Q :=
  match l with
  | [] => None
  | _ => Some (Qsum l / Qlength l)%Q
  end.

Definition Qmin_list (l : list Q) : option Q :=
  match l with
  | [] => None
  | x :: rest => Some (fold_left (fun m y => if Q_ltb y m then y else m) rest x)
  end.

Definition Qmax_list (l : list Q) : option Q :=
  match l with
  | [] => None
  | x :: rest => Some (fold_left (fun m y => if Q_ltb m y then y else m) rest x)
  end.

(** The middle value, or the mean of the two middle values. *)
Definition Qmedian (l : list Q) : option Q :=
  let s := sort Q_leb l in
  let n := List.length s in
  match n with
  | O => None
  | _ =>
      if Nat.even n
      then Some ((nth (n / 2 - 1) s 0%Q + nth (n / 2) s 0%Q) / (2 # 1))%Q
      else Some (nth (n / 2) s 0%Q)
  end.

(** One aggregator on the values of one metric in one group.  Missing
    values are skipped; [Sum] of nothing is 0 and [Count] counts the
    non-missing values, text included; the others have no value on an empty
    group. *)
Definition aggregate (a : aggregator) (cs : list cell) : option Q :=
  match a with
  | Sum => Some (Qsum (present cs))
  | Mean => Qmean (present cs)
  | Count => Some (inject_Z (Z.of_nat (List.length (filter notna cs))))
  | Median => Qmedian (present cs)
  | Min => Qmin_list (present cs)
  | Max => Qmax_list (present cs)
  end.

(** *** Frames *)

(** The result of a pivot: one name per index level, the column labels (a
    tuple of labels each), and the rows with their key and one cell per
    column.  [index_multi] and [columns_multi] tell whether the index and
    the columns are a [MultiIndex]. *)
Record frame : Type := mkframe {
  index_names : list (option string);
  index_multi : bool;
  columns : list (list label);
  columns_multi : bool;
  rows : list (key * list (option Q))
}.

Definition nlevels (f : frame) : nat := List.length (index_names f).

Definition is_some {A : Type} (o : option A) : bool :=
  match o with Some _ => true | None => false end.

(** [dropna(how="all")]: the rows that have at least one value. *)
Definition dropna_all (rs : list (key * list (option Q)))
  : list (key * list (option Q)) :=
  filter (fun r => existsb is_some (snd r)) rs.

Definition fillna (fill : Q) (c : option Q) : option Q :=
  match c with
  | Some q => Some q
  | None => Some fill
  end.

Definition column_cells (j : nat) (rs : list (key * list (option Q)))
  : list (option Q) :=
  map (fun r => nth j (snd r) None) rs.

Fixpoint nansum (l : list (option Q)) : Q :=
  match l with
  | [] => 0%Q
  | Some q :: rest => (q + nansum rest)%Q
  | None :: rest => nansum rest
  end.

(** [sum(numeric_only=True).values] on rows with [ncols] columns: the sum
    of every column, missing cells skipped. *)
Definition frame_sum (ncols : nat) (rs : list (key * list (option Q)))
  : list Q :=
  map (fun j => nansum (column_cells j rs)) (seq 0 ncols).

(** *** Grouping *)

(** The rows of the table as (key, metric cells); a row with a missing key
    value belongs to no group. *)
Definition keyed_rows (t : table) (keys values : list string)
  : list (key * list cell) :=
  flat_map (fun i =>
              match key_of_cells (row_cells t keys i) with
              | Some k => [(k, row_cells t values i)]
              | None => []
              end)
           (seq 0 (row_count t)).

Fixpoint add_to_group (k : key) (v : list cell)
         (gs : list (key * list (list cell))) : list (key * list (list cell)) :=
  match gs with
  | [] => [(k, [v])]
  | (k', vs) :: rest =>
      if key_eqb k k' then (k', vs ++ [v]) :: rest
      else (k', vs) :: add_to_group k v rest
  end.

(** [groupby(keys)]: the groups in key order, each with its rows in table
    order. *)
Definition groupby (l : list (key * list cell)) : list (key * list (list cell)) :=
  sort (fun a b => key_leb (fst a) (fst b))
       (fold_left (fun gs kv => add_to_group (fst kv) (snd kv) gs) l []).

(** The aggregator applied to each of the [nvals] metrics of a group. *)
Definition agg_group (a : aggregator) (nvals : nat) (g : list (list cell))
  : list (option Q) :=
  map (fun j => aggregate a (map (fun r => nth j r CNaN) g)) (seq 0 nvals).

(** [groupby(keys).agg(aggfunc)]: for each group, in key order, the
    aggregated value of each metric, missing when the group has no value to
    aggregate. *)
Definition grouped_cells (t : table) (keys values : list string) (a : aggregator)
  : list (key * list (option Q)) :=
  map (fun g => (fst g, agg_group a (List.length values) (snd g)))
      (groupby (keyed_rows t keys values)).

(** The aggregated groups, those without any value dropped
    ([dropna(how="all")], inside [pivot_table]). *)
Definition agged (t : table) (keys values : list string) (a : aggregator)
  : list (key * list (option Q)) :=
  dropna_all (grouped_cells t keys values a).

(** *** pivot_table *)

(** [pd.pivot_table(data, index, columns, values, aggfunc, fill_value,
    margins=False)] with [values] a list and one aggregator for all of
    them.  Metric columns come out in sorted order.  With a column group
    the groups are unstacked: a (row, column) pair that has no group gets
    the fill value; without a row group the table is transposed and has one
    row per metric.  The columns that hold no value at all are removed at
    the end: after the filling these are the columns of a table without
    rows, so a table in which no group is left has no column either. *)
Definition pivot_table (data : table) (index columns values : list string)
           (a : aggregator) (fill_value : Q) : outcome frame :=
  let keys := index ++ columns in
  if negb (forallb (has_column data) values) then Raised "KeyError"
  else if negb (forallb (has_column data) keys) then Raised "KeyError"
  else if existsb (fun v => existsb (String.eqb v) keys) values
  then Raised "KeyError"
  else
    let svalues := sort String.leb values in
    let ag := agged data keys svalues a in
    match index, columns with
    | [], [] => Raised "ValueError"
    | _ :: _, [] =>
        Returned
          (mkframe (map Some index) (Nat.leb 2 (List.length index))
                   match ag with
                   | [] => []
                   | _ :: _ => map (fun m => [LStr m]) svalues
                   end
                   false
                   (map (fun r => (fst r, map (fillna fill_value) (snd r))) ag))
    | [], _ :: _ =>
        Returned
          (mkframe [None] false
                   (map fst ag) (Nat.leb 2 (List.length columns))
                   (map (fun jm =>
                           ([LStr (snd jm)],
                            map (fun g => fillna fill_value (nth (fst jm) (snd g) None)) ag))
                        (combine (seq 0 (List.length svalues)) svalues)))
    | _ :: _, _ :: _ =>
        let ni := List.length index in
        let rowkeys := unique key_eqb (map (fun r => firstn ni (fst r)) ag) in
        let colkeys :=
          sort key_leb (unique key_eqb (map (fun r => skipn ni (fst r)) ag)) in
        let cell_at (rk : key) (j : nat) (ck : key) : option Q :=
          fillna fill_value
                 match find (fun r => key_eqb (fst r) (rk ++ ck)) ag with
                 | Some r => nth j (snd r) None
                 | None => Some fill_value
                 end in
        Returned
          (mkframe (map Some index) (Nat.leb 2 ni)
                   (flat_map (fun m => map (fun ck => LStr m :: ck) colkeys) svalues)
                   true
                   (map (fun rk =>
                           (rk, flat_map (fun j => map (cell_at rk j) colkeys)
                                         (seq 0 (List.length svalues))))
                        rowkeys))
    end.

End Pandas.

(** ** diligence/pivoting.py *)

Module Pivoting.
Import Text PandasText Formatters Pandas.
Local Open Scope list_scope.

(** Sequencing of calls that may raise. *)
Definition bind {A B : Type} (x : outcome A) (k : A -> outcome B) : outcome B :=
  match x with
  | Raised e => Raised e
  | Returned a => k a
  end.

Notation "x <- c ;; k" := (bind c (fun x => k))
  (at level 61, c at next level, right associativity).

Definition subtotal_label : string := "Sous-total".
Definition total_label : string := "Total".

(** [pd.MultiIndex.from_tuples([tuple], names=names)]: the names must be as
    many as the levels of the tuple. *)
Definition from_tuples (tuple : key) (names : list (option string)) : outcome key :=
  if Nat.eqb (List.length names) (List.length tuple) then Returned tuple
  else Raised "ValueError".

Definition level_value (i : nat) (k : key) : label := nth i k (LStr "").

(** [pvt.xs(g, level=0, drop_level=False)]: the rows of the first-level
    group [g]. *)
Definition xs (g : label) (rs : list (key * list (option Q)))
  : list (key * list (option Q)) :=
  filter (fun r => label_eqb (level_value 0 (fst r)) g) rs.

Definition is_subtotal_key (k : key) : bool :=
  label_eqb (level_value 1 k) (LStr subtotal_label).

Definition some_cells (vals : list Q) : list (option Q) := map Some vals.

(** [pd.concat(pieces)] on rows: there must be something to concatenate. *)
Definition pd_concat (pieces : list (list (key * list (option Q))))
  : outcome (list (key * list (option Q))) :=
  match pieces with
  | [] => Raised "ValueError"
  | _ :: _ => Returned (List.concat pieces)
  end.

(** The loop over the first-level groups: the block of each group followed
    by its subtotal row. *)
Fixpoint subtotal_pieces (pvt : frame) (groups : list label)
  : outcome (list (list (key * list (option Q)))) :=
  match groups with
  | [] => Returned []
  | g :: rest =>
      let block := xs g (rows pvt) in
      let sub := frame_sum (List.length (columns pvt)) block in
      k <- from_tuples [g; LStr subtotal_label] (index_names pvt) ;;
      piece <- pd_concat [block; [(k, some_cells sub)]] ;;
      pieces <- subtotal_pieces pvt rest ;;
      Returned (piece :: pieces)
  end.

Definition add_row_subtotals_and_total (pvt : frame) : outcome frame :=
  if index_multi pvt && Nat.leb 2 (nlevels pvt) then
    pieces <- subtotal_pieces pvt
                (unique label_eqb (map (fun r => level_value 0 (fst r)) (rows pvt))) ;;
    out <- pd_concat pieces ;;
    let total_vals :=
      frame_sum (List.length (columns pvt))
                (filter (fun r => negb (is_subtotal_key (fst r))) out) in
    total_idx <- from_tuples [LStr total_label; LStr ""] (index_names pvt) ;;
    Returned (mkframe (index_names pvt) (index_multi pvt) (columns pvt)
                      (columns_multi pvt)
                      (out ++ [(total_idx, some_cells total_vals)]))
  else
    Returned (mkframe (index_names pvt) (index_multi pvt) (columns pvt)
                      (columns_multi pvt)
                      (rows pvt ++
                         [([LStr total_label],
                           some_cells (frame_sum (List.length (columns pvt)) (rows pvt)))])).

Definition arithmetic (a : aggregator) : bool :=
  match a with
  | Count => false
  | _ => true
  end.

(** The loop over [value_cols]: each metric column is replaced by its
    numeric normalization when the aggregator does arithmetic. *)
Fixpoint coerce_values (df_vals : table) (value_cols : list string)
         (agg_choice : aggregator) : outcome table :=
  match value_cols with
  | [] => Returned df_vals
  | col :: rest =>
      if arithmetic agg_choice then
        match get_column df_vals col with
        | None => Raised "KeyError"
        | Some vals => coerce_values (set_column df_vals col (to_num vals)) rest agg_choice
        end
      else coerce_values df_vals rest agg_choice
  end.

Definition msg_no_group : string :=
  "Choisis au moins **une** colonne pour *Lignes* **ou** *Colonnes*.".
Definition msg_no_metric : string :=
  "Choisis au moins **une** métrique dans *Valeurs*.".

Definition is_nil {A : Type} (l : list A) : bool :=
  match l with [] => true | _ => false end.

(** The first half of [build_pivot]: the metric columns are coerced, the
    table is pivoted with fill value 0, and the rows left without any value
    are dropped.  This is the pivot body, before the totals. *)
Definition pivot_body (df : table) (index_cols columns_cols value_cols : list string)
           (agg_choice : aggregator) : outcome frame :=
  df_vals <- coerce_values df value_cols agg_choice ;;
  pvt <- pivot_table df_vals index_cols columns_cols value_cols agg_choice 0%Q ;;
  Returned (mkframe (index_names pvt) (index_multi pvt) (columns pvt)
                    (columns_multi pvt) (dropna_all (rows pvt))).

Definition build_pivot (df : table) (index_cols columns_cols value_cols : list string)
           (agg_choice : aggregator) : outcome (option frame * string) :=
  if is_nil index_cols && is_nil columns_cols then Returned (None, msg_no_group)
  else if is_nil value_cols then Returned (None, msg_no_metric)
  else
    pvt <- pivot_body df index_cols columns_cols value_cols agg_choice ;;
    if index_multi pvt && Nat.leb 2 (nlevels pvt) && is_nil columns_cols then
      out <- add_row_subtotals_and_total pvt ;;
      Returned (Some out, "")
    else
      Returned
        (Some (mkframe (index_names pvt) (index_multi pvt) (columns pvt)
                       (columns_multi pvt)
                       (rows pvt ++
                          [([LStr "Total"],
                            some_cells (frame_sum (List.length (columns pvt)) (rows pvt)))])),
         "").

End Pivoting.

(** ** diligence/insights.py: the payload *)

Module Payload.
Import Text PandasText Pandas.
Local Open Scope list_scope.

(** A value of a payload row: text, a number, or NaN. *)
Inductive pyval : Type :=
| PStr (s : string)
| PNum (q : Q)
| PNaN.

(** A row of the payload, a mapping from column name to value. *)
Definition record : Type := list (string * pyval).

(** [r.get(name)] *)
Fixpoint get (r : record) (name : string) : option pyval :=
  match r with
  | [] => None
  | (n, v) :: rest => if String.eqb n name then Some v else get rest name
  end.

Record summary : Type := mksummary {
  s_sum : Q;
  s_mean : Q;
  s_min : Q;
  s_max : Q;
  s_non_null : nat
}.

Record payload : Type := mkpayload {
  shape_rows : nat;
  shape_cols : nat;
  p_columns : list string;
  numeric_summary : list (string * summary);
  p_rows : list record
}.

Definition separator : string := " | ".

Section Flattening.
(** [str(x)] of a number that labels a column.  Python writes an integer
    [2023] and a float [2023.0]; the table of the model does not tell them
    apart, so the digits are not modelled: what follows holds for every
    rendering. *)
Variable number_str : dec -> string.

(** [str(x)] of a label. *)
Definition label_str (l : label) : string :=
  match l with
  | LStr s => s
  | LNum d => number_str d
  end.

(** The flat name of a column.  A multi-level label is joined level by
    level; a flat label is kept (by its text when it is a number). *)
Definition flat_name (multi : bool) (col : list label) : string :=
  if multi then strip (join separator (map label_str col))
  else match col with
       | l :: _ => label_str l
       | [] => ""
       end.

End Flattening.

(** The column name [reset_index] gives to index level [i]. *)
Definition level_name (multi : bool) (i : nat) (name : option string) : string :=
  match name with
  | Some n => n
  | None => if multi then "level_" ++ N_str (N.of_nat i) else "index"
  end.

Definition label_val (l : label) : pyval :=
  match l with
  | LStr s => PStr s
  | LNum d => PNum (dec_to_Q d)
  end.

Definition cell_val (c : option Q) : pyval :=
  match c with
  | Some q => PNum q
  | None => PNaN
  end.

(** The values of a row once the key is demoted: one per index level, then
    the cells. *)
Definition reset_row (levels : nat) (r : key * list (option Q)) : list pyval :=
  map (fun i => match nth_error (fst r) i with
                | Some l => label_val l
                | None => PNaN
                end) (seq 0 levels)
  ++ map cell_val (snd r).

(** [tbl.head(n)] *)
Definition head {A : Type} (n : Z) (l : list A) : list A :=
  if 0 <=? n then firstn (Z.to_nat n) l
  else firstn (List.length l - Z.to_nat (- n)) l.

(** [pd.to_numeric(tbl[c], errors="coerce")] on a value of a numeric
    column. *)
Definition numeric_val (v : pyval) : option Q :=
  match v with
  | PNum q => Some q
  | _ => None
  end.

Fixpoint present_vals (l : list (option Q)) : list Q :=
  match l with
  | [] => []
  | Some q :: rest => q :: present_vals rest
  | None :: rest => present_vals rest
  end.

Definition or_zero (o : option Q) : Q :=
  match o with Some q => q | None => 0%Q end.

(** The summary of one numeric column. *)
Definition summarize (s : list (option Q)) : summary :=
  let vals := present_vals s in
  mksummary (nansum s)
            (or_zero (Qmean vals))
            (or_zero (Qmin_list vals))
            (or_zero (Qmax_list vals))
            (List.length vals).

(** Whether the demoted index level [i] is a numeric column: its labels are
    all numbers (and there is at least one). *)
Definition level_is_numeric (i : nat) (rs : list (key * list (option Q))) : bool :=
  match rs with
  | [] => false
  | _ => forallb (fun r => match nth_error (fst r) i with
                           | Some (LNum _) => true
                           | _ => false
                           end) rs
  end.

Definition default_max_rows : Z := 1000.

(** [pivot_to_payload(pvt, max_rows)], for a rendering [number_str] of the
    numbers that label a column.  [reset_index] refuses to demote a level
    whose name is already a column. *)
Definition pivot_to_payload (number_str : dec -> string) (pvt : frame) (max_rows : Z)
  : outcome payload :=
  let flat := map (flat_name number_str (columns_multi pvt)) (columns pvt) in
  let levels := List.length (index_names pvt) in
  let lnames :=
    map (fun ix => level_name (index_multi pvt) (fst ix) (snd ix))
        (combine (seq 0 levels) (index_names pvt)) in
  if existsb (fun n => existsb (String.eqb n) flat) lnames
  then Raised "ValueError"
  else
    let names := lnames ++ flat in
    let full := map (reset_row levels) (rows pvt) in
    let tbl :=
      if Z.of_nat (List.length full) >? max_rows then head max_rows full
      else full in
    let is_numeric :=
      map (fun i => level_is_numeric i (rows pvt)) (seq 0 levels)
      ++ map (fun _ => true) flat in
    let stats :=
      flat_map (fun jn =>
                  if nth (fst jn) is_numeric false
                  then [(snd jn,
                         summarize (map (fun r => numeric_val (nth (fst jn) r PNaN)) tbl))]
                  else [])
               (combine (seq 0 (List.length names)) names) in
    Returned (mkpayload (List.length tbl) (List.length names) names stats
                        (map (fun r => combine names r) tbl)).

End Payload.

(** ** Binary64 numbers

    The numbers of numpy and of Python's [float], after the IEEE 754
    specification of the library: a zero, an infinity, NaN, or
    [(-1)^s * m * 2^e].  The operations round to nearest, ties to even. *)

Module Binary64.
Import SpecFloat.
Local Open Scope list_scope.

Definition prec : Z := 53.
Definition emax : Z := 1024.

Definition float : Type := spec_float.

Definition nan : float := S754_nan.
Definition pos_zero : float := S754_zero false.
Definition neg_zero : float := S754_zero true.

Definition fadd (x y : float) : float := SFadd prec emax x y.
Definition fsub (x y : float) : float := SFsub prec emax x y.
Definition fdiv (x y : float) : float := SFdiv prec emax x y.
Definition fabs (x : float) : float := SFabs x.
Definition feqb (x y : float) : bool := SFeqb x y.
Definition fltb (x y : float) : bool := SFltb x y.
Definition fleb (x y : float) : bool := SFleb x y.

Definition is_nan (x : float) : bool :=
  match x with S754_nan => true | _ => false end.

(** Neither NaN nor an infinity. *)
Definition is_finite (x : float) : bool :=
  match x with
  | S754_zero _ | S754_finite _ _ _ => true
  | _ => false
  end.

(** The binary64 number nearest to a quotient of two positive integers. *)
Definition nearest_quotient (s : bool) (n d : positive) : float :=
  let '(mz, ez, lz) := SFdiv_core_binary prec emax (Zpos n) 0 (Zpos d) 0 in
  binary_round_aux prec emax s mz ez lz.

(** The binary64 number nearest to a rational: the value of a number of
    the payload as a [float], and of a decimal literal of the code. *)
Definition b64 (q : Q) : float :=
  match Qnum q with
  | Z0 => pos_zero
  | Zpos n => nearest_quotient false n (Qden q)
  | Zneg n => nearest_quotient true n (Qden q)
  end.

Definition float_of_nat (n : nat) : float := b64 (inject_Z (Z.of_nat n)).

(** *** The sum of an array

    [np.sum] on a contiguous array of floats: fewer than 8 numbers are added
    in order; up to 128 numbers are added in eight interleaved partial sums,
    combined pairwise, the numbers after the last full block of eight being
    added in order; more numbers are split in two halves, the first of a
    length that is a multiple of eight, summed the same way. *)

Definition add_in_order (res : float) (a : list float) : float :=
  fold_left fadd a res.

(** The eight partial sums [r], each increased by its number of every
    block of eight of [a]; [k] blocks. *)
Fixpoint add_blocks (k : nat) (r a : list float) : list float :=
  match k with
  | O => r
  | S k' =>
      add_blocks k' (map (fun xy => fadd (fst xy) (snd xy)) (combine r (firstn 8 a)))
                 (skipn 8 a)
  end.

Definition block_sum (a : list float) : float :=
  let n := List.length a in
  let full := (n - Nat.modulo n 8)%nat in
  let r := add_blocks (Nat.div full 8 - 1) (firstn 8 a) (skipn 8 a) in
  let at_ (j : nat) := nth j r pos_zero in
  let res := fadd (fadd (fadd (at_ 0%nat) (at_ 1%nat)) (fadd (at_ 2%nat) (at_ 3%nat)))
                 (fadd (fadd (at_ 4%nat) (at_ 5%nat)) (fadd (at_ 6%nat) (at_ 7%nat))) in
  add_in_order res (skipn full a).

(** [fuel] bounds the depth of the splitting; the length of the array is
    always enough. *)
Fixpoint pairwise_sum (fuel : nat) (a : list float) : float :=
  let n := List.length a in
  if Nat.ltb n 8 then add_in_order neg_zero a
  else if Nat.leb n 128 then block_sum a
  else
    match fuel with
    | O => block_sum a
    | S fuel' =>
        let half := Nat.div n 2 in
        let n2 := (half - Nat.modulo half 8)%nat in
        fadd (pairwise_sum fuel' (firstn n2 a)) (pairwise_sum fuel' (skipn n2 a))
    end.

(** The reduction starts from 0. *)
Definition np_sum (a : list float) : float :=
  fadd pos_zero (pairwise_sum (List.length a) a).

End Binary64.

(** ** diligence/insights.py: the analysis engine *)

Module Insights.
Import Text PandasText Pandas Payload Binary64.
Local Open Scope list_scope.

(** *** Column search

    The pattern of [_find_col] is the alternation of [\bkeyword\b], matched
    anywhere in the column name, letter case ignored.  In the byte model a
    word character is an ASCII letter, digit or underscore, or any byte of
    a non-ASCII character; letter case is folded for ASCII letters only. *)

Definition is_upper (c : ascii) : bool :=
  let n := nat_of_ascii c in (Nat.leb 65 n && Nat.leb n 90)%bool.

Definition is_lower (c : ascii) : bool :=
  let n := nat_of_ascii c in (Nat.leb 97 n && Nat.leb n 122)%bool.

Definition fold_case (c : ascii) : ascii :=
  if is_upper c then ascii_of_nat (nat_of_ascii c + 32) else c.

Definition is_word (c : ascii) : bool :=
  (is_upper c || is_lower c || is_digit c || Ascii.eqb c "_"
   || Nat.leb 128 (nat_of_ascii c))%bool.

Definition word_opt (o : option ascii) : bool :=
  match o with Some c => is_word c | None => false end.

(** [\b] between two neighbours. *)
Definition boundary (before after : option ascii) : bool :=
  xorb (word_opt before) (word_opt after).

Definition first_char (s : string) : option ascii :=
  match s with String c _ => Some c | EmptyString => None end.

(** The keyword read at the start of [s], then a boundary. *)
Fixpoint match_rest (keyword s : string) (last : option ascii) : bool :=
  match keyword with
  | EmptyString => boundary last (first_char s)
  | String a keyword' =>
      match s with
      | String b s' =>
          Ascii.eqb (fold_case a) (fold_case b) && match_rest keyword' s' (Some b)
      | EmptyString => false
      end
  end.

Definition match_here (before : option ascii) (keyword s : string) : bool :=
  boundary before (first_char s) && match_rest keyword s before.

(** [pat.search(s)] *)
Fixpoint search_from (candidates : list string) (before : option ascii)
         (s : string) : bool :=
  existsb (fun k => match_here before k s) candidates
  || match s with
     | String c rest => search_from candidates (Some c) rest
     | EmptyString => false
     end.

Definition search (candidates : list string) (s : string) : bool :=
  search_from candidates None s.

Definition _find_col (cols : list string) (candidates : list string)
  : option string :=
  find (search candidates) cols.

Record metrics : Type := mkmetrics {
  m_impressions : option string;
  m_clicks : option string;
  m_ctr : option string;
  m_spend : option string;
  m_cpc : option string;
  m_cpm : option string;
  m_primary : option string
}.

(** [isinstance(v, (int, float))]: NaN is a float. *)
Definition is_number (v : option pyval) : bool :=
  match v with
  | Some (PNum _) | Some PNaN => true
  | _ => false
  end.

Definition first_some {A : Type} (l : list (option A)) : option A :=
  match filter is_some l with
  | o :: _ => o
  | [] => None
  end.

Definition _infer_metrics_from_payload (p : payload) : metrics :=
  let cols := p_columns p in
  let col_impr := _find_col cols ["Impressions"; "Impr"; "Imps"] in
  let col_clicks := _find_col cols ["Clicks"; "Click"; "Clics"] in
  let col_ctr := _find_col cols ["CTR"; "Click-Through Rate"] in
  let col_spend := _find_col cols ["Spend"; "Cost"; "Dépense"; "Budget"] in
  let col_cpc := _find_col cols ["CPC"] in
  let col_cpm := _find_col cols ["CPM"] in
  let primary_numeric :=
    match first_some [col_spend; col_clicks; col_impr; col_ctr; col_cpc; col_cpm] with
    | Some c => Some c
    | None =>
        find (fun c => existsb (fun r => is_number (get r c)) (p_rows p)) cols
    end in
  mkmetrics col_impr col_clicks col_ctr col_spend col_cpc col_cpm primary_numeric.

(** *** Series of a column *)

(** [pd.to_numeric(x, errors="coerce")] on one row value: a number is
    itself, text is read as a number when it is one, anything else is
    missing. *)
Definition _numeric (v : option pyval) : option Q :=
  match v with
  | Some (PNum q) => Some q
  | Some (PStr s) => option_map dec_to_Q (parse_number s)
  | _ => None
  end.

Definition col_series (rs : list record) (name : option string)
  : option (list (option Q)) :=
  match name with
  | None => None
  | Some n => Some (map (fun r => _numeric (get r n)) rs)
  end.

Definition any_notna (s : list (option Q)) : bool := existsb is_some s.

(** *** Weighted ratios *)

Record weighted : Type := mkweighted {
  ctr_weighted : option Q;
  clicks_sum : option Q;
  impressions_sum : option Q;
  cpc_weighted : option Q;
  spend_sum : option Q;
  cpm_weighted : option Q
}.

Definition positive (q : Q) : bool := Q_ltb 0%Q q.

(** The first block: [(ctr_weighted, clicks_sum, impressions_sum)]; the sums
    are recorded only when the ratio is attempted. *)
Definition weigh_ctr (s_impr s_clicks : option (list (option Q)))
  : option Q * option Q * option Q :=
  match s_impr, s_clicks with
  | Some impr, Some clicks =>
      if any_notna impr then
        let sum_impr := nansum impr in
        let sum_clicks := nansum clicks in
        (if positive sum_impr then Some (sum_clicks / sum_impr)%Q else None,
         Some sum_clicks, Some sum_impr)
      else (None, None, None)
  | _, _ => (None, None, None)
  end.

Definition weigh_cpc (s_spend s_clicks : option (list (option Q)))
  : option Q * option Q :=
  match s_spend, s_clicks with
  | Some spend, Some clicks =>
      if any_notna clicks then
        let sum_spend := nansum spend in
        let sum_clicks := nansum clicks in
        (if positive sum_clicks then Some (sum_spend / sum_clicks)%Q else None,
         Some sum_spend)
      else (None, None)
  | _, _ => (None, None)
  end.

Definition weigh_cpm (s_spend s_impr : option (list (option Q))) : option Q :=
  match s_spend, s_impr with
  | Some spend, Some impr =>
      if any_notna impr then
        let sum_spend := nansum spend in
        let sum_impr := nansum impr in
        if positive sum_impr then Some (sum_spend / sum_impr * 1000)%Q else None
      else None
  | _, _ => None
  end.

(** *** Dispersion *)

Record dispersion : Type := mkdispersion {
  std_squared : Q;   (* the square of the reported standard deviation *)
  iqr : Q;
  d_min : Q;
  d_max : Q
}.

(** [np.percentile(vals, pct)], linear interpolation between the two
    nearest ranks of the sorted values. *)
Definition percentile (vals : list Q) (pct : Q) : Q :=
  let s := sort Q_leb vals in
  let pos := ((Qlength s - 1) * pct / 100)%Q in
  let lo := Z.to_nat (Qfloor pos) in
  let frac := (pos - inject_Z (Qfloor pos))%Q in
  let a := nth lo s 0%Q in
  let b := nth (S lo) s a in
  (a + frac * (b - a))%Q.

Definition variance (vals : list Q) : Q :=
  let mu := or_zero (Qmean vals) in
  or_zero (Qmean (map (fun x => ((x - mu) * (x - mu))%Q) vals)).

Definition disperse (s_primary : option (list (option Q))) : option dispersion :=
  match s_primary with
  | Some s =>
      if any_notna s then
        let vals := present_vals s in
        Some (mkdispersion (variance vals)
                           (percentile vals 75 - percentile vals 25)%Q
                           (or_zero (Qmin_list vals))
                           (or_zero (Qmax_list vals)))
      else None
  | None => None
  end.

(** *** Ranking *)

(** The sort key of a row: its number, NaN, or minus infinity when the
    value is not a number. *)
Inductive rank_key : Type :=
| NegInf
| Fin (q : Q)
| NaNKey.

(** Python [<] on the keys; every comparison with NaN is false. *)
Definition key_lt (a b : rank_key) : bool :=
  match a, b with
  | NegInf, Fin _ => true
  | Fin x, Fin y => Q_ltb x y
  | _, _ => false
  end.

Definition getv (key_col : string) (r : record) : rank_key :=
  match get r key_col with
  | Some (PNum q) => Fin q
  | Some PNaN => NaNKey
  | _ => NegInf
  end.

(** [sorted(rows, key=key, reverse=True)]: descending, rows with equal keys
    in their original order.  On keys without NaN this is the list every
    stable sort returns; with NaN keys the order Python returns depends on
    the comparisons its sort happens to make and is not modelled. *)
Definition sorted_desc (key : record -> rank_key) (rs : list record) : list record :=
  sort (fun x y => negb (key_lt (key x) (key y))) rs.

(** [l[-n:]] *)
Definition lastn {A : Type} (n : nat) (l : list A) : list A :=
  skipn (List.length l - n) l.

Record ranking : Type := mkranking {
  top : list record;
  bottom : list record
}.

(** [None] stands for the empty list returned without a key column. *)
Definition build_ranked (rs : list record) (key_col : option string) (topn : nat)
  : option ranking :=
  match key_col with
  | None => None
  | Some k =>
      let ranked := sorted_desc (getv k) rs in
      Some (mkranking (firstn topn ranked) (rev (lastn topn ranked)))
  end.

(** *** Data quality *)

(** [ctr_vs_ratio_avg_abs_diff] is [None] when the key is absent from the
    dictionary. *)
Record quality : Type := mkquality {
  ctr_vs_ratio_warning : bool;
  ctr_vs_ratio_avg_abs_diff : option float;
  missing_columns : list string
}.

(** A column as pandas holds it: binary64 numbers, NaN for a missing
    value. *)
Definition to_float (v : option Q) : float :=
  match v with
  | Some q => b64 q
  | None => nan
  end.

Definition float_series (s : list (option Q)) : list float := map to_float s.

(** [s.replace({0: np.nan})] *)
Definition replace_zero (s : list float) : list float :=
  map (fun x => if feqb x pos_zero then nan else x) s.

(** [s_clicks / s_impr.replace({0: nan})], row by row. *)
Definition implied_ratio (s_clicks s_impr : list float) : list float :=
  map (fun ci => fdiv (fst ci) (snd ci)) (combine s_clicks (replace_zero s_impr)).

(** [np.abs(ratio - s_ctr)], row by row. *)
Definition abs_diff (ratio s_ctr : list float) : list float :=
  map (fun rt => fabs (fsub (fst rt) (snd rt))) (combine ratio s_ctr).

(** [np.nanmean]: the sum of the array with 0 in the place of every NaN,
    divided by the number of values that are not NaN; NaN (0/0) when
    nothing is left. *)
Definition nanmean (a : list float) : float :=
  let arr := map (fun x => if is_nan x then pos_zero else x) a in
  let cnt := List.length (filter (fun x => negb (is_nan x)) a) in
  fdiv (np_sum arr) (float_of_nat cnt).

(** The literal [0.02], two percentage points. *)
Definition threshold : float := b64 (2 # 100).

(** [bool(diff > 0.02)]; a NaN mean compares false. *)
Definition exceeds (diff : float) : bool := fltb threshold diff.

(** Truth value of an optional column name: neither [None] nor empty. *)
Definition truthy (name : option string) : bool :=
  match name with
  | Some (String _ _) => true
  | _ => false
  end.

Definition check_quality (m : metrics) (s_clicks s_impr s_ctr : option (list (option Q)))
  : quality :=
  let missing :=
    flat_map (fun ln => match fst ln with None => [snd ln] | Some _ => [] end)
             [(m_impressions m, "Impressions"); (m_clicks m, "Clicks");
              (m_spend m, "Spend")] in
  if truthy (m_ctr m) && (truthy (m_clicks m) && truthy (m_impressions m)) then
    match s_clicks, s_impr, s_ctr with
    | Some clicks, Some impr, Some ctr =>
        let ratio := implied_ratio (float_series clicks) (float_series impr) in
        let diff := nanmean (abs_diff ratio (float_series ctr)) in
        mkquality (exceeds diff) (Some diff) missing
    | _, _, _ => mkquality false None missing
    end
  else mkquality false None missing.

(** *** The analysis *)

Record analysis : Type := mkanalysis {
  inferred_metrics : metrics;
  weighted_ratios : weighted;
  dispersion_on_primary : option dispersion;
  ranking_on_primary : ranking;
  data_quality : quality
}.

(** [_analyze_payload].  Without a primary metric [build_ranked] returns a
    list, which the result dictionary cannot unpack: the call raises. *)
Definition _analyze_payload (p : payload) : outcome analysis :=
  let rs := p_rows p in
  let m := _infer_metrics_from_payload p in
  let s_impr := col_series rs (m_impressions m) in
  let s_clicks := col_series rs (m_clicks m) in
  let s_ctr := col_series rs (m_ctr m) in
  let s_spend := col_series rs (m_spend m) in
  let '(ctr, csum, isum) := weigh_ctr s_impr s_clicks in
  let '(cpc, ssum) := weigh_cpc s_spend s_clicks in
  let w := mkweighted ctr csum isum cpc ssum (weigh_cpm s_spend s_impr) in
  let primary := m_primary m in
  let s_primary := if truthy primary then col_series rs primary else None in
  let disp := disperse s_primary in
  let q := check_quality m s_clicks s_impr s_ctr in
  match build_ranked rs primary 5 with
  | None => Raised "TypeError"
  | Some rk => Returned (mkanalysis m w disp rk q)
  end.

(** *** The fallback narrative *)

Section Fallback.
(** Python's rendering of floats: [str(x)] and [f"{x:,.2f}"].  Their
    digits are not modelled; what follows holds for any rendering. *)
Variable float_repr : Q -> string.
Variable format_2f : Q -> string.

Definition value_str (v : option pyval) : string :=
  match v with
  | Some (PStr s) => s
  | Some (PNum q) => float_repr q
  | Some PNaN => "nan"
  | None => "None"
  end.

Definition newline : string := String (ascii_of_nat 10) EmptyString.

Definition is_continuation (c : ascii) : bool :=
  let n := nat_of_ascii c in (Nat.leb 128 n && Nat.leb n 191)%bool.

(** [s[:n]], counted in characters of the encoded text. *)
Fixpoint take_chars (n : nat) (s : string) : string :=
  match s with
  | EmptyString => EmptyString
  | String c rest =>
      if is_continuation c then String c (take_chars n rest)
      else match n with
           | O => EmptyString
           | S k => String c (take_chars k rest)
           end
  end.

Definition msg_no_data : string := "Aucune donnée dans le pivot.".
Definition msg_not_numeric : string :=
  "**TL;DR** — Pivot non numérique : vérifie les métriques choisies.".
Definition msg_top : string :=
  "Top lignes (selon la première métrique numérique) :".
Definition msg_recos : string :=
  "Recos : approfondir les segments en tête, vérifier les extrêmes, et tester des variantes sur les segments sous-performants.".

Definition row_label (numeric_names : list string) (r : record) : string :=
  take_chars 120
    (join separator
          (map (fun kv => value_str (Some (snd kv)))
               (filter (fun kv => negb (existsb (String.eqb (fst kv)) numeric_names)) r))).

Definition fallback_comment_on_pivot (p : payload) : string :=
  match p_rows p with
  | [] => msg_no_data
  | _ :: _ =>
      match numeric_summary p with
      | [] => msg_not_numeric
      | (first, st) :: _ =>
          let top_rows :=
            firstn 3 (sorted_desc (getv first)
                                  (filter (fun r => is_number (get r first)) (p_rows p))) in
          let headline :=
            replace "." ","
              (replace "," " "
                 ("**TL;DR** — La métrique « " ++ first ++ " » totalise "
                  ++ format_2f (s_sum st) ++ " (moyenne "
                  ++ format_2f (s_mean st) ++ ").")%string) in
          let numeric_names := map fst (numeric_summary p) in
          let tops :=
            match top_rows with
            | [] => []
            | _ :: _ =>
                msg_top ::
                map (fun r => ("- " ++ row_label numeric_names r ++ " → "
                               ++ first ++ "=" ++ value_str (get r first))%string)
                    top_rows
            end in
          join newline (headline :: tops ++ [msg_recos])
      end
  end.
End Fallback.

End Insights.

(** ** The statements of the specification about the analysis, in its words *)

Module AnalysisSpec.
Import Text PandasText Pandas Payload Binary64 Insights.
Local Open Scope list_scope.

(** The number a payload row holds in a column, if it holds one. *)
Definition row_number (r : record) (name : string) : option Q :=
  _numeric (get r name).

(** sum(column) over the payload rows, missing values skipped. *)
Definition column_sum (rs : list record) (name : string) : Q :=
  nansum (map (fun r => row_number r name) rs).

Definition opt_Qeq (a b : option Q) : Prop :=
  match a, b with
  | Some x, Some y => (x == y)%Q
  | None, None => True
  | _, _ => False
  end.

(** The weighted click-rate as the specification states it: the ratio of
    the two sums, null when the impressions sum to zero or when one of the
    two columns is absent. *)
Definition weighted_ctr_as_stated (p : payload) : Prop :=
  forall a, _analyze_payload p = Returned a ->
    match m_clicks (inferred_metrics a), m_impressions (inferred_metrics a) with
    | Some k, Some i =>
        if Q_eqb (column_sum (p_rows p) i) 0%Q
        then ctr_weighted (weighted_ratios a) = None
        else opt_Qeq (ctr_weighted (weighted_ratios a))
                     (Some (column_sum (p_rows p) k / column_sum (p_rows p) i)%Q)
    | _, _ => ctr_weighted (weighted_ratios a) = None
    end.

(** The absolute difference, on one row, between the stated click-rate and
    the ratio clicks/impressions; missing when a value is missing or the
    impressions are zero. *)
Definition row_abs_difference (c k i : string) (r : record) : option Q :=
  match row_number r k, row_number r i, row_number r c with
  | Some clicks, Some impr, Some ctr =>
      if Q_eqb impr 0%Q then None else Some (Qabs (clicks / impr - ctr))
  | _, _, _ => None
  end.

(** The mean of these differences over the rows that have one. *)
Definition mean_abs_difference (rs : list record) (c k i : string) : option Q :=
  Qmean (present_vals (map (row_abs_difference c k i) rs)).

(** The same difference in binary64 arithmetic: the quotient of the clicks
    by the impressions, rounded; its difference with the stated
    click-rate, rounded; missing when a value is missing or the
    impressions are zero. *)
Definition row_abs_difference_b64 (c k i : string) (r : record) : option float :=
  match row_number r k, row_number r i, row_number r c with
  | Some clicks, Some impr, Some ctr =>
      if feqb (b64 impr) pos_zero then None
      else Some (fabs (fsub (fdiv (b64 clicks) (b64 impr)) (b64 ctr)))
  | _, _, _ => None
  end.

(** The mean of these differences in binary64 arithmetic: their sum over
    the rows, a row without a difference counting for 0, divided by the
    number of rows that have one; NaN when no row has one. *)
Definition mean_abs_difference_b64 (rs : list record) (c k i : string) : float :=
  let ds := map (row_abs_difference_b64 c k i) rs in
  fdiv (np_sum (map (fun d => match d with Some x => x | None => pos_zero end) ds))
       (float_of_nat (List.length (filter is_some ds))).

(** The numbers that the rows hold in the columns [names] are in the range
    of binary64: none is rounded to an infinity. *)
Definition numbers_in_range (rs : list record) (names : list string) : bool :=
  forallb (fun r =>
             forallb (fun n => match row_number r n with
                               | Some q => is_finite (b64 q)
                               | None => true
                               end) names) rs.

End AnalysisSpec.

(** ** Sample payloads *)

Module Samples.
Import Text PandasText Pandas Payload.
Local Open Scope list_scope.

(** The two rows of the specification's example. *)
Definition two_row_payload : payload :=
  mkpayload 2 2 ["Impressions"; "Clicks"] []
    [[("Impressions", PNum 1000); ("Clicks", PNum 10)];
     [("Impressions", PNum 100); ("Clicks", PNum 5)]].

(** A correction line brings the impressions below zero. *)
Definition negative_payload : payload :=
  mkpayload 2 2 ["Impressions"; "Clicks"] []
    [[("Impressions", PNum 100); ("Clicks", PNum 5)];
     [("Impressions", PNum (-300)); ("Clicks", PNum 2)]].

(** Stated click-rate 0.5 against 10 clicks for 100 impressions; the
    second row has no impression. *)
Definition quality_payload : payload :=
  mkpayload 2 3 ["Impressions"; "Clicks"; "CTR"] []
    [[("Impressions", PNum 100); ("Clicks", PNum 10); ("CTR", PNum (5 # 10))];
     [("Impressions", PNum 0); ("Clicks", PNum 3); ("CTR", PNum (1 # 10))]].

(** Stated click-rate 0.08 against 10 clicks for 100 impressions: a
    difference of 0.02 exactly. *)
Definition threshold_payload : payload :=
  mkpayload 1 3 ["Impressions"; "Clicks"; "CTR"] []
    [[("Impressions", PNum 100); ("Clicks", PNum 10); ("CTR", PNum (8 # 100))]].

(** The same row, the click-rate being the binary64 number that the
    literal 0.08 denotes, 5764607523034235 / 2^56: a difference below
    0.02. *)
Definition threshold_payload_b64 : payload :=
  mkpayload 1 3 ["Impressions"; "Clicks"; "CTR"] []
    [[("Impressions", PNum 100); ("Clicks", PNum 10);
      ("CTR", PNum (5764607523034235 # 72057594037927936))]].

(** Stated click-rate 0.02 and no click: a difference of 0.02 again. *)
Definition no_click_payload : payload :=
  mkpayload 1 3 ["Impressions"; "Clicks"; "CTR"] []
    [[("Impressions", PNum 100); ("Clicks", PNum 0); ("CTR", PNum (2 # 100))]].

End Samples.

(** ** The statements of the specification about totals, in its words *)

Module PivotSpec.
Import Text PandasText Pandas Pivoting.
Local Open Scope list_scope.

Definition ncols (pvt : frame) : nat := List.length (columns pvt).

(** The first-level group values, in order of appearance. *)
Definition first_level_groups (pvt : frame) : list label :=
  unique label_eqb (map (fun r => level_value 0 (fst r)) (rows pvt)).

(** The member rows of a first-level group. *)
Definition member_rows (pvt : frame) (g : label) : list (key * list (option Q)) :=
  xs g (rows pvt).

(** The row inserted after a group: its key, and the column-wise sum of the
    member rows, whatever the aggregator of the body. *)
Definition subtotal_row (second : string) (pvt : frame) (g : label)
  : key * list (option Q) :=
  ([g; LStr second], some_cells (frame_sum (ncols pvt) (member_rows pvt g))).

(** The body with a subtotal row after each first-level group. *)
Definition with_subtotals (second : string) (pvt : frame)
  : list (key * list (option Q)) :=
  flat_map (fun g => member_rows pvt g ++ [subtotal_row second pvt g])
           (first_level_groups pvt).

(** Column by column, the same numbers. *)
Definition same_numbers (a b : list Q) : Prop := Forall2 Qeq a b.

(** No row of the body carries the subtotal label at its second level. *)
Definition no_reserved_label (pvt : frame) : Prop :=
  forall r, In r (rows pvt) -> is_subtotal_key (fst r) = false.

(** C1 as the specification states it: the returned pivot is the body (with
    its subtotal rows, if any) followed by a Total row that holds the
    column-wise sum of the body rows. *)
Definition total_as_stated (df : table) (index_cols columns_cols value_cols : list string)
           (agg_choice : aggregator) : Prop :=
  forall p msg,
    build_pivot df index_cols columns_cols value_cols agg_choice
    = Returned (Some p, msg) ->
    exists pvt front total_key totals,
      pivot_body df index_cols columns_cols value_cols agg_choice = Returned pvt
      /\ rows p = front ++ [(total_key, some_cells totals)]
      /\ nth_error total_key 0 = Some (LStr "Total")
      /\ same_numbers totals (frame_sum (ncols pvt) (rows pvt)).

(** C2 as the specification states it, for a two-level row group without
    column group: subtotal rows keyed (group, "Subtotal") and a grand total
    over the member rows. *)
Definition subtotals_as_stated (df : table) (index_cols value_cols : list string)
           (agg_choice : aggregator) : Prop :=
  forall p msg,
    build_pivot df index_cols [] value_cols agg_choice = Returned (Some p, msg) ->
    exists pvt total_key totals,
      pivot_body df index_cols [] value_cols agg_choice = Returned pvt
      /\ rows p = with_subtotals "Subtotal" pvt ++ [(total_key, some_cells totals)]
      /\ same_numbers totals (frame_sum (ncols pvt) (rows pvt)).

(** A table in which one value of the second grouping column is the text
    of the subtotal label. *)
Definition collision_table : table :=
  [("Canal", [CStr "A"; CStr "A"; CStr "B"; CStr "B"]);
   ("Format", [CStr "x"; CStr "y"; CStr "x"; CStr "Sous-total"]);
   ("Impressions", [CNum (mkdec 100 0); CNum (mkdec 200 0);
                    CNum (mkdec 300 0); CNum (mkdec 400 0)])].

Definition campaign_table : table :=
  [("Canal", [CStr "A"; CStr "A"; CStr "B"; CStr "B"]);
   ("Format", [CStr "x"; CStr "y"; CStr "x"; CStr "y"]);
   ("Mois", [CStr "jan"; CStr "jan"; CStr "fev"; CStr "fev"]);
   ("Clicks", [CStr "10"; CStr "1 000"; CNum (mkdec 5 0); CNaN]);
   ("Impressions", [CNum (mkdec 100 0); CNum (mkdec 200 0);
                    CNum (mkdec 300 0); CNum (mkdec 400 0)])].

End PivotSpec.

(** ** The statements of the specification about the payload, in its words *)

Module PayloadSpec.
Import Text PandasText Pandas Payload.
Local Open Scope list_scope.

(** The names the demoted index levels get. *)
Definition level_names (pvt : frame) : list string :=
  map (fun ix => level_name (index_multi pvt) (fst ix) (snd ix))
      (combine (seq 0 (nlevels pvt)) (index_names pvt)).

(** The flat names of the columns. *)
Definition flat_names (number_str : dec -> string) (pvt : frame) : list string :=
  map (flat_name number_str (columns_multi pvt)) (columns pvt).

(** An index level has the name of a column. *)
Definition names_clash (number_str : dec -> string) (pvt : frame) : bool :=
  existsb (fun n => existsb (String.eqb n) (flat_names number_str pvt))
          (level_names pvt).

(** A rendering of the numbers for the examples, whose columns are
    labelled by text. *)
Definition sample_number_str : dec -> string := fun _ => "#".







End PayloadSpec.

(** ** The statements about the pivot handed to the analysis, in words *)

Module PipelineSpec.
Import Text PandasText Pandas Pivoting Payload Insights PayloadSpec AnalysisSpec.
Local Open Scope list_scope.

(** The payload row of a pivot row. *)
Definition record_of (number_str : dec -> string) (pvt : frame)
           (r : key * list (option Q)) : record :=
  combine (level_names pvt ++ flat_names number_str pvt) (reset_row (nlevels pvt) r).

(** The first value of a payload row: the first level of the demoted
    key. *)
Definition first_value (r : record) : option pyval :=
  nth_error (map snd r) 0.

(** C10 as stated, first part: the payload built (with the default
    [max_rows]) from the pivot that [build_pivot] returns has the Total row
    as its last row. *)
Definition payload_keeps_total_as_stated
           (number_str : dec -> string)
           (df : table) (index_cols columns_cols value_cols : list string)
           (agg_choice : aggregator) : Prop :=
  forall pvt msg pay,
    build_pivot df index_cols columns_cols value_cols agg_choice
    = Returned (Some pvt, msg) ->
    pivot_to_payload number_str pvt default_max_rows = Returned pay ->
    first_value (last (p_rows pay) []) = Some (PStr "Total").

(** A table of 1000 lines, one per identifier. *)
Definition long_table : table :=
  [("Id", map (fun i => CNum (dec_of_Z (Z.of_nat i))) (seq 1 1000));
   ("Clicks", repeat (CNum (dec_of_Z 1)) 1000)].

(** Whether the last row of the payload built from the pivot starts with
    the text Total; [None] when a call raises or returns no pivot. *)
Definition last_row_is_total
           (number_str : dec -> string)
           (df : table) (index_cols columns_cols value_cols : list string)
           (agg_choice : aggregator) : option bool :=
  match build_pivot df index_cols columns_cols value_cols agg_choice with
  | Returned (Some pvt, _) =>
      match pivot_to_payload number_str pvt default_max_rows with
      | Returned pay =>
          Some match first_value (last (p_rows pay) []) with
               | Some (PStr s) => String.eqb s "Total"
               | _ => false
               end
      | Raised _ => None
      end
  | _ => None
  end.

End PipelineSpec.

(** ** The statements about missing values, in words *)

Module MissingSpec.
Import Text PandasText Formatters Pandas Pivoting.
Local Open Scope list_scope.

(** The aggregated cells of every group of the table, before any row is
    dropped and any cell filled: one row per combination of grouping
    values, one cell per metric (metrics in sorted order), a cell being
    missing when the group has no value to aggregate for the metric. *)
Definition group_cells (df : table) (index_cols columns_cols value_cols : list string)
           (agg_choice : aggregator) : list (key * list (option Q)) :=
  match coerce_values df value_cols agg_choice with
  | Returned df_vals =>
      grouped_cells df_vals (index_cols ++ columns_cols)
                    (sort String.leb value_cols) agg_choice
  | Raised _ => []
  end.

(** A cell, with 0 for a missing value. *)
Definition filled (c : option Q) : option Q :=
  Some match c with Some q => q | None => 0%Q end.

(** Two channels; the second has no readable number of clicks. *)
Definition sparse_table : table :=
  [("Canal", [CStr "A"; CStr "A"; CStr "A"; CStr "B"; CStr "C"]);
   ("Clicks", [CStr "1"; CStr "n/a"; CStr "3"; CStr "n/a"; CStr "7"]);
   ("Impressions", [CStr "10"; CStr "20"; CNaN; CNaN; CStr "70"])].

(** The groups that have a value for at least one metric. *)
Definition valued_groups (df : table) (index_cols columns_cols value_cols : list string)
           (agg_choice : aggregator) : list (key * list (option Q)) :=
  filter (fun g => existsb is_some (snd g))
         (group_cells df index_cols columns_cols value_cols agg_choice).

(** The key of a group over [ni] row-group columns followed by the
    column-group columns: its row part and its column part. *)
Definition row_part (ni : nat) (g : key * list (option Q)) : key :=
  firstn ni (fst g).

Definition column_part (ni : nat) (g : key * list (option Q)) : key :=
  skipn ni (fst g).

(** The cell of a cross-tabulation at the row group [rk], the column group
    [ck] and the metric number [j]: the aggregated value of the group of
    that combination, and 0 when the group has no value for the metric or
    when no group has that combination. *)
Definition crossed_cell (groups : list (key * list (option Q)))
           (rk ck : key) (j : nat) : option Q :=
  match find (fun g => key_eqb (fst g) (rk ++ ck)) groups with
  | Some g => filled (nth j (snd g) None)
  | None => Some 0%Q
  end.

(** Channels by device.  The channel B has no readable number of clicks on
    the desktop; the channel C has none at all; the channel D was not seen
    on the mobile. *)
Definition sparse_crossed_table : table :=
  [("Canal", [CStr "A"; CStr "A"; CStr "A"; CStr "B"; CStr "B"; CStr "C";
              CStr "D"]);
   ("Device", [CStr "Mobile"; CStr "Mobile"; CStr "Desktop"; CStr "Mobile";
               CStr "Desktop"; CStr "Desktop"; CStr "Desktop"]);
   ("Clicks", [CStr "1"; CStr "3"; CStr "2"; CStr "5"; CStr "n/a"; CStr "n/a";
               CStr "4"])].

End MissingSpec.

(** ** More sample payloads *)

Module MoreSamples.
Import Text PandasText Pandas Payload.
Local Open Scope list_scope.

(** Spend, clicks and impressions by segment. *)
Definition spend_payload : payload :=
  mkpayload 3 4 ["Segment"; "Spend"; "Clicks"; "Impressions"] []
    [[("Segment", PStr "Search"); ("Spend", PNum 120); ("Clicks", PNum 60);
      ("Impressions", PNum 3000)];
     [("Segment", PStr "Social"); ("Spend", PNum 80); ("Clicks", PNum 20);
      ("Impressions", PNum 5000)];
     [("Segment", PStr "Display"); ("Spend", PNum 50); ("Clicks", PNaN);
      ("Impressions", PNum 2000)]].

(** The click-rate is given under its long name. *)
Definition long_name_payload : payload :=
  mkpayload 1 3 ["Segment"; "Click-Through Rate"; "Impressions"] []
    [[("Segment", PStr "Search"); ("Click-Through Rate", PNum (2 # 100));
      ("Impressions", PNum 3000)]].

(** Seven rows ranked on their spend. *)
Definition seven_rows : payload :=
  mkpayload 7 2 ["Segment"; "Spend"] []
    (map (fun sv => [("Segment", PStr (fst sv)); ("Spend", PNum (inject_Z (snd sv)))])
         [("a", 30%Z); ("b", 10%Z); ("c", 70%Z); ("d", 20%Z); ("e", 60%Z);
          ("f", 50%Z); ("g", 40%Z)]).

End MoreSamples.

(** ** Reading a ranking *)

Module RankingSpec.
Import Text PandasText Pandas Payload Insights.
Local Open Scope list_scope.

(** No row is followed by a row with a greater key. *)
Fixpoint descending (key : record -> rank_key) (l : list record) : bool :=
  match l with
  | [] => true
  | x :: rest =>
      forallb (fun y => negb (key_lt (key x) (key y))) rest && descending key rest
  end.

End RankingSpec.

(** ** Reading the narrative *)

Module NarrativeSpec.
Import Text.

(** The text up to its first line break. *)
Fixpoint first_line (s : string) : string :=
  match s with
  | EmptyString => EmptyString
  | String c rest =>
      if Ascii.eqb c (ascii_of_nat 10) then EmptyString
      else String c (first_line rest)
  end.

End NarrativeSpec.

(** ** diligence/insights.py: the sample of the payload sent with the prompt *)

Module Prompt.
Import Text Pandas Payload.
Local Open Scope list_scope.

(** [l[:n]] *)
Definition slice_to {A : Type} (n : Z) (l : list A) : list A :=
  if 0 <=? n then firstn (Z.to_nat n) l
  else firstn (List.length l - Z.to_nat (- n)) l.

(** [l[n:]] *)
Definition slice_from {A : Type} (n : Z) (l : list A) : list A :=
  if 0 <=? n then skipn (Z.to_nat n) l
  else skipn (List.length l - Z.to_nat (- n)) l.

Record slim : Type := mkslim {
  sl_shape : nat * nat;
  sl_columns : list string;
  sl_numeric_summary : list (string * summary);
  sl_rows : list record;
  sl_note : string
}.

Definition _shrink_payload_for_prompt (p : payload) (head tail : Z) : slim :=
  let rows := p_rows p in
  let len := Z.of_nat (List.length rows) in
  let sampled :=
    slice_to head rows
    ++ (if len >? head + tail then slice_from (- tail) rows else []) in
  mkslim (shape_rows p, shape_cols p)
         (slice_to 60 (p_columns p))
         (numeric_summary p)
         sampled
         ("rows sampled: head=" ++ Z_str (Z.min head len)
          ++ ", tail=" ++ Z_str (Z.min tail (Z.max 0 (len - head))))%string.

(** A payload of [n] rows numbered from [start]. *)
Definition numbered_rows (start n : nat) : payload :=
  mkpayload n 1 ["Rang"] []
    (map (fun i => [("Rang", PNum (inject_Z (Z.of_nat i)))]) (seq start n)).

End Prompt.

(** ** diligence/formatters.py: the display of a table

    A table on display is a sequence of columns.  Each has a name (text or
    a number for flat labels, a tuple under [MultiIndex] columns), a dtype,
    of which only "numeric or not" matters, and its values.  Column names
    are taken to be distinct, as [read_csv] and [pivot_table] make them. *)

Module Display.
Import Text PandasText Formatters Pandas Pivoting Payload Insights.
Local Open Scope list_scope.

Inductive series_name : Type :=
| NoName
| Flat (l : label)
| Tuple (t : list label).

Record column : Type := mkcolumn {
  c_name : series_name;
  c_numeric : bool;
  c_cells : list pyval
}.

Definition dataframe : Type := list column.

(** [str.lower()].  Only ASCII letters are folded here: no other letter
    becomes [c], [t] or [r], the only letters the result is searched
    for. *)
Fixpoint lower (s : string) : string :=
  match s with
  | EmptyString => EmptyString
  | String c rest => String (fold_case c) (lower rest)
  end.

(** [(s.name or "").lower()]: a name that is falsy gives the empty text;
    of the others only text has a method [lower]. *)
Definition name_lower (n : series_name) : outcome string :=
  match n with
  | NoName => Returned ""
  | Flat (LStr s) => Returned (lower s)
  | Flat (LNum d) =>
      if Q_eqb (dec_to_Q d) 0 then Returned "" else Raised "AttributeError"
  | Tuple [] => Returned ""
  | Tuple (_ :: _) => Raised "AttributeError"
  end.

(** [sub in s] *)
Fixpoint contains (sub s : string) : bool :=
  String.prefix sub s
  || match s with
     | String _ rest => contains sub rest
     | EmptyString => false
     end.

(** [(vals >= 0) & (vals <= 1)] on one value; false on a missing one. *)
Definition in_unit (v : option Q) : bool :=
  match v with
  | Some q => Q_leb 0 q && Q_leb q 1
  | None => false
  end.

Definition indicator (b : bool) : Q := if b then 1 else 0.

(** [is_percent_series(s)]: the mean of the flags is NaN on an empty
    series, and NaN is not at least 0.8. *)
Definition is_percent_series (name : series_name) (s : list pyval) : outcome bool :=
  lname <- name_lower name ;;
  if contains "ctr" lname then Returned true
  else
    Returned
      match Qmean (map (fun v => indicator (in_unit (_numeric (Some v)))) s) with
      | Some m => Q_leb (8 # 10) m
      | None => false
      end.

Section Rendering.
(** Python's [f"{x:.2f}"] and [f"{x:,.2f}"] on a number. *)
Variable fmt_2f : Q -> string.
Variable fmt_sep_2f : Q -> string.

Definition french (s : string) : string := replace "." "," (replace "," " " s).

(** [format_fr(n, 2)] *)
Definition format_fr (n : pyval) : pyval :=
  match n with
  | PNum q => PStr (french (fmt_sep_2f q))
  | PNaN => PStr ""
  | PStr s => PStr s
  end.

(** [format_compact(n, 2)] *)
Definition format_compact (n : pyval) : pyval :=
  match n with
  | PNum q =>
      if Q_leb 1000000000 (Qabs q) then PStr (fmt_2f (q / 1000000000) ++ "B")
      else if Q_leb 1000000 (Qabs q) then PStr (fmt_2f (q / 1000000) ++ "M")
      else if Q_leb 1000 (Qabs q) then PStr (fmt_2f (q / 1000) ++ "k")
      else PStr (fmt_2f q)
  | PNaN => PStr ""
  | PStr s => PStr s
  end.

(** [(col * 100).map(lambda x: f"{x:.2f}%")]; NaN is rendered [nan]. *)
Definition percent_raw (v : pyval) : pyval :=
  match v with
  | PNum q => PStr (fmt_2f (q * 100) ++ "%")
  | PNaN => PStr "nan%"
  | PStr s => PStr s
  end.

Definition percent_french (v : pyval) : pyval :=
  match v with
  | PNum q => PStr (french (fmt_sep_2f (q * 100) ++ "%"))
  | PNaN => PStr (french "nan%")
  | PStr s => PStr s
  end.

Definition fmt_brut : string := "Brut".
Definition fmt_separators : string := "Séparateurs (1 234,56)".
Definition fmt_compact : string := "Compact (1.2k / 3.4M)".

(** The body of the loop, for one column. *)
Definition format_column (num_format : string) (c : column) : outcome column :=
  if c_numeric c then
    pct <- is_percent_series (c_name c) (c_cells c) ;;
    if pct : bool then
      if String.eqb num_format fmt_brut
      then Returned (mkcolumn (c_name c) false (map percent_raw (c_cells c)))
      else Returned (mkcolumn (c_name c) false (map percent_french (c_cells c)))
    else if String.eqb num_format fmt_separators
    then Returned (mkcolumn (c_name c) false (map format_fr (c_cells c)))
    else if String.eqb num_format fmt_compact
    then Returned (mkcolumn (c_name c) false (map format_compact (c_cells c)))
    else Returned c
  else Returned c.

Fixpoint format_dataframe_for_display (df_in : dataframe) (num_format : string)
  : outcome dataframe :=
  match df_in with
  | [] => Returned []
  | c :: rest =>
      c' <- format_column num_format c ;;
      rest' <- format_dataframe_for_display rest num_format ;;
      Returned (c' :: rest')
  end.
End Rendering.

(** The pivot as the display sees it: the index is not a column; every
    column holds floats. *)
Definition of_frame (f : frame) : dataframe :=
  map (fun jc =>
         mkcolumn (if columns_multi f then Tuple (snd jc)
                   else match snd jc with
                        | l :: _ => Flat l
                        | [] => NoName
                        end)
                  true
                  (map cell_val (column_cells (fst jc) (rows f))))
      (combine (seq 0 (List.length (columns f))) (columns f)).

End Display.

(** ** Counting the separators of a text *)

Module SeparatorSpec.
Import Text.

(** How many times the character [c] occurs in [s]. *)
Fixpoint count_char (c : ascii) (s : string) : nat :=
  match s with
  | EmptyString => O
  | String d rest => ((if Ascii.eqb c d then 1 else 0) + count_char c rest)%nat
  end.

(** The decimal separators of a text: its dots and its commas. *)
Definition separators (s : string) : nat :=
  (count_char "." s + count_char "," s)%nat.

End SeparatorSpec.

(** ** diligence/file_io.py

    The readers of the libraries (the Excel reader, the decoding of the
    bytes, the separator sniffer, the split into lines and the CSV parser)
    are parameters of the model; the guards, the retry and the cleaning of
    the parsed table are those of [load_table].  An exception is written
    with its message. *)

Module FileIO.
Import Text PandasText Pandas Pivoting Insights Display SeparatorSpec.
Local Open Scope list_scope.

Record upload : Type := mkupload {
  u_name : string;
  u_raw : string
}.

(** [s.endswith(suffix)] *)
Definition ends_with (suffix s : string) : bool :=
  String.prefix (rev_string suffix "") (rev_string s "").

Definition is_excel_name (name : string) : bool :=
  let n := lower name in
  ends_with ".xlsx" n || ends_with ".xls" n.

Definition no_file_error : string := "ValueError: Aucun fichier fourni.".
Definition empty_file_error : string := "ValueError: Le fichier est vide.".
Definition zip_error : string :=
  "ValueError: On dirait un Excel renommé en .csv. Exporte en vrai CSV.".
Definition separator_error : string :=
  "ValueError: Séparateur inconnu (utilise , ou ;)".

(** [df.columns.str.contains(r"^Unnamed", na=False)], one name. *)
Definition starts_unnamed (name : string) : bool := String.prefix "Unnamed" name.

(** The positions of the rows that [dropna(how="all")] keeps: those with a
    value in some column. *)
Definition dropna_rows (t : table) : list nat :=
  filter (fun i => existsb (fun col => notna (nth i (snd col) CNaN)) t)
         (seq 0 (row_count t)).

(** [df.dropna(how="all").loc[:, ~unnamed].reset_index(drop=True)]: the
    rows are chosen on all the columns, then the columns are chosen. *)
Definition clean_table (t : table) : table :=
  let kept := dropna_rows t in
  map (fun col => (fst col, map (fun i => nth i (snd col) CNaN) kept))
      (filter (fun col => negb (starts_unnamed (fst col))) t).

Section Readers.
Variable read_excel : upload -> outcome table.
Variable decode : string -> string.
Variable sniff : string -> outcome string.
Variable first_line_of : string -> string.
Variable read_csv : string -> string -> outcome table.

(** The sniffed delimiter or, when the sniffer raises, the more frequent
    of [;] and [,] in the first line, [;] on a tie. *)
Definition guess_separator (text : string) : string :=
  match sniff (take_chars 5000 text) with
  | Returned sep => sep
  | Raised _ =>
      let l := first_line_of text in
      if Nat.leb (count_char "," l) (count_char ";" l) then ";" else ","
  end.

Definition alternative (sep : string) : string :=
  if String.eqb sep ";" then "," else ";".

Definition load_table (uploaded_file : option upload) : outcome table :=
  match uploaded_file with
  | None => Raised no_file_error
  | Some f =>
      if is_excel_name (u_name f) then read_excel f
      else
        let raw := u_raw f in
        match raw with
        | EmptyString => Raised empty_file_error
        | String _ _ =>
            if String.prefix "PK" raw then Raised zip_error
            else
              let text := decode raw in
              let sep := guess_separator text in
              df <- read_csv text sep ;;
              df <- (if Nat.eqb (List.length df) 1
                     then read_csv text (alternative sep)
                     else Returned df) ;;
              if Nat.eqb (List.length df) 1 then Raised separator_error
              else Returned (clean_table df)
        end
  end.
End Readers.

End FileIO.

(** ** The sum of a metric over the table *)

Module TotalSpec.
Import Text PandasText Pandas.
Local Open Scope list_scope.




End TotalSpec.

(** ** Facts about text *)

Module TextFacts.
Import Text.

Lemma prefix_head (c : ascii) (old s : string) :
  occurs c s = false -> String.prefix (String c old) s = false.
Proof.
  destruct s as [|d rest]; simpl; [reflexivity|].
  intros H. apply orb_false_iff in H as [H _].
  destruct (ascii_dec c d) as [->|ne].
  - rewrite Ascii.eqb_refl in H. discriminate.
  - reflexivity.
Qed.

(** Replacing a text whose first character does not occur changes nothing. *)
Lemma replace_absent (c : ascii) (old new s : string) :
  occurs c s = false -> replace (String c old) new s = s.
Proof.
  unfold replace. induction s as [|d rest IH]; intros H; [reflexivity|].
  cbn [replace_from]. rewrite (prefix_head c old (String d rest) H).
  simpl in H. apply orb_false_iff in H as [_ H].
  now rewrite (IH H).
Qed.

Lemma all_chars_app (p : ascii -> bool) (a b : string) :
  all_chars p (a ++ b) = (all_chars p a && all_chars p b)%bool.
Proof.
  induction a as [|c a IH]; simpl; [reflexivity|].
  now rewrite IH, andb_assoc.
Qed.

Lemma all_chars_occurs (p : ascii -> bool) (c : ascii) (s : string) :
  all_chars p s = true -> p c = false -> occurs c s = false.
Proof.
  intros Hs Hc. induction s as [|d rest IH]; simpl in *; [reflexivity|].
  apply andb_true_iff in Hs as [Hd Hr].
  rewrite (IH Hr), orb_false_r.
  destruct (Ascii.eqb_spec c d) as [->|]; [congruence|reflexivity].
Qed.

Lemma append_nil_r (s : string) : s ++ "" = s.
Proof. induction s as [|c s IH]; simpl; [reflexivity|now rewrite IH]. Qed.

Lemma append_assoc (a b c : string) : (a ++ b) ++ c = a ++ (b ++ c).
Proof. induction a as [|x a IH]; simpl; [reflexivity|now rewrite IH]. Qed.

End TextFacts.

(** ** Numeric normalization *)

Module FormattersSpec.
Import Text PandasText Formatters.

(** Thousands separators are dropped and the decimal comma is read; text
    that is not a number becomes the missing marker. *)
Example to_num_french :
  to_num [CStr "1 234,56"; CStr "abc"; CNum (mkdec 5 0); CNaN; CStr "-1.5e3"]
  = [CNum (mkdec 123456 (-2)); CNaN; CNum (mkdec 5 0); CNaN; CNum (mkdec (-15) 2)].
Proof. reflexivity. Qed.

End FormattersSpec.

(** ** The pivot builder: validation *)

Module ValidationSpec.
Import Text Pandas Pivoting.
Local Open Scope list_scope.

Lemma bind_returned {A B : Type} (x : outcome A) (k : A -> outcome B) (b : B) :
  bind x k = Returned b -> exists a, x = Returned a /\ k a = Returned b.
Proof. destruct x as [e|a]; simpl; [discriminate|eauto]. Qed.

(** C4. Called with both the row group and the column group empty, or
    with no metric column, [build_pivot] returns (it does not raise) no
    pivot and a non-empty reason; when it returns a pivot, the message is
    empty. *)
Theorem build_pivot_validation
        (df : table) (index_cols columns_cols value_cols : list string)
        (agg_choice : aggregator) :
  ((index_cols = [] /\ columns_cols = []) \/ value_cols = [] ->
   exists msg,
     build_pivot df index_cols columns_cols value_cols agg_choice
     = Returned (None, msg) /\ msg <> "")
  /\ (forall pvt msg,
        build_pivot df index_cols columns_cols value_cols agg_choice
        = Returned (Some pvt, msg) -> msg = "").
Proof.
  split.
  - intros [[-> ->] | ->].
    + exists msg_no_group. split; [reflexivity|discriminate].
    + unfold build_pivot.
      destruct (is_nil index_cols && is_nil columns_cols).
      * exists msg_no_group. split; [reflexivity|discriminate].
      * exists msg_no_metric. split; [reflexivity|discriminate].
  - intros pvt msg. unfold build_pivot.
    destruct (is_nil index_cols && is_nil columns_cols); [discriminate|].
    destruct (is_nil value_cols); [discriminate|].
    intros H. apply bind_returned in H as (p & _ & H).
    destruct (index_multi p && Nat.leb 2 (nlevels p) && is_nil columns_cols).
    + apply bind_returned in H as (out & _ & H). congruence.
    + congruence.
Qed.

Definition sample_table : table :=
  [("Canal", [CStr "A"; CStr "A"; CStr "B"]);
   ("Clicks", [CStr "10"; CStr "1 000"; CNum (mkdec 5 0)])].

Lemma build_pivot_validation_witness :
  (exists msg,
     build_pivot sample_table [] [] ["Clicks"] Sum = Returned (None, msg)
     /\ msg <> "")
  /\ (exists pvt,
        build_pivot sample_table ["Canal"] [] ["Clicks"] Sum
        = Returned (Some pvt, "")).
Proof.
  split.
  - apply (proj1 (build_pivot_validation sample_table [] [] ["Clicks"] Sum)).
    left. split; reflexivity.
  - destruct (build_pivot sample_table ["Canal"] [] ["Clicks"] Sum)
      as [e|[[pvt|] msg]] eqn:E; try (vm_compute in E; discriminate).
    exists pvt.
    now rewrite (proj2 (build_pivot_validation sample_table ["Canal"] []
                          ["Clicks"] Sum) pvt msg E).
Defined.

End ValidationSpec.

(** ** The fallback narrative *)

Module FallbackSpec.
Import Text Pandas Payload Insights TextFacts.
Local Open Scope list_scope.

Lemma append_empty (a b : string) : (a ++ b)%string = "" -> a = "" /\ b = "".
Proof. destruct a; simpl; [auto|discriminate]. Qed.

(** A joined text is empty only if every part is. *)
Lemma join_empty (sep : string) (parts : list string) :
  join sep parts = "" -> forall p, In p parts -> p = "".
Proof.
  induction parts as [|a rest IH]; intros H p Hin; [destruct Hin|].
  destruct rest as [|b rest'].
  - simpl in H. destruct Hin as [<-|[]]. exact H.
  - change (join sep (a :: b :: rest'))
      with (a ++ sep ++ join sep (b :: rest'))%string in H.
    apply append_empty in H as [Ha H]. apply append_empty in H as [_ H].
    destruct Hin as [<-|Hin]; [exact Ha|]. now apply IH.
Qed.

(** C9. The fallback narrative is a function of the payload (and of
    nothing else but the rendering of numbers) that returns a non-empty
    text for every payload; on a payload without rows it returns the
    literal no-data message, and on a payload with rows and no numeric
    column it returns a non-empty text too.  Being a total function, it
    does not raise. *)
Theorem fallback_nonempty (float_repr format_2f : Q -> string) (p : payload) :
  fallback_comment_on_pivot float_repr format_2f p <> ""
  /\ (p_rows p = [] ->
      fallback_comment_on_pivot float_repr format_2f p
      = "Aucune donnée dans le pivot.")
  /\ (p_rows p <> [] -> numeric_summary p = [] ->
      fallback_comment_on_pivot float_repr format_2f p
      = "**TL;DR** — Pivot non numérique : vérifie les métriques choisies.").
Proof.
  unfold fallback_comment_on_pivot. split; [|split].
  - destruct (p_rows p) as [|r rs]; [discriminate|].
    destruct (numeric_summary p) as [|[first st] rest]; [discriminate|].
    intros H.
    assert (Hr : msg_recos = "").
    { eapply join_empty; [exact H|].
      right. apply in_or_app. right. left. reflexivity. }
    discriminate Hr.
  - intros ->. reflexivity.
  - intros Hrows Hstats. destruct (p_rows p); [congruence|].
    now rewrite Hstats.
Qed.

Definition text_only_payload : payload :=
  mkpayload 1 1 ["Canal"] [] [[("Canal", PStr "A")]].

Lemma fallback_nonempty_witness :
  fallback_comment_on_pivot (fun _ => "") (fun _ => "") text_only_payload
  = "**TL;DR** — Pivot non numérique : vérifie les métriques choisies.".
Proof.
  apply (proj2 (proj2 (fallback_nonempty (fun _ => "") (fun _ => "")
                                         text_only_payload)));
    [discriminate|reflexivity].
Defined.

End FallbackSpec.

(** ** The analysis engine: weighted click-rate and data quality *)

Module AnalysisFacts.
Import Text PandasText Pandas Payload Insights AnalysisSpec.
Local Open Scope list_scope.

Lemma Q_ltb_lt (a b : Q) : Q_ltb a b = true <-> (a < b)%Q.
Proof.
  unfold Q_ltb. rewrite negb_true_iff. split.
  - intros H. apply Qnot_le_lt. intros Hle.
    apply Qle_bool_iff in Hle. congruence.
  - intros H. destruct (Qle_bool b a) eqn:E; [|reflexivity].
    apply Qle_bool_iff in E. exfalso. exact (Qlt_not_le _ _ H E).
Qed.

Lemma Q_ltb_false (x y : Q) : Q_ltb x y = false <-> (y <= x)%Q.
Proof.
  split; intros H.
  - apply Qnot_lt_le. intros L. apply Q_ltb_lt in L. congruence.
  - destruct (Q_ltb x y) eqn:E; [|reflexivity].
    apply Q_ltb_lt in E. apply Qle_not_lt in H. contradiction.
Qed.

Lemma nansum_all_missing (s : list (option Q)) :
  any_notna s = false -> nansum s = 0%Q.
Proof.
  induction s as [|[q|] s IH]; simpl; intros H; try discriminate; auto.
Qed.

(** What [_analyze_payload] returns, field by field. *)
Lemma analyze_returned (p : payload) (a : analysis) :
  _analyze_payload p = Returned a ->
  let rs := p_rows p in
  let m := _infer_metrics_from_payload p in
  inferred_metrics a = m
  /\ ctr_weighted (weighted_ratios a)
     = fst (fst (weigh_ctr (col_series rs (m_impressions m))
                           (col_series rs (m_clicks m))))
  /\ data_quality a
     = check_quality m (col_series rs (m_clicks m))
                     (col_series rs (m_impressions m))
                     (col_series rs (m_ctr m))
  /\ build_ranked rs (m_primary m) 5 = Some (ranking_on_primary a).
Proof.
  unfold _analyze_payload. cbv zeta.
  destruct (weigh_ctr _ _) as [[ctr csum] isum].
  destruct (weigh_cpc _ _) as [cpc ssum].
  destruct (build_ranked _ _ 5) as [rk|]; [|discriminate].
  intros H. injection H as <-. simpl. auto.
Qed.

(** A column found by a keyword search has a name that is not empty. *)
Lemma find_col_truthy (cols candidates : list string) (c : string) :
  search candidates "" = false ->
  _find_col cols candidates = Some c -> truthy (Some c) = true.
Proof.
  intros Hempty Hfind. apply find_some in Hfind as [_ Hs].
  destruct c; [congruence|reflexivity].
Qed.

End AnalysisFacts.

(** ** Binary64 arithmetic *)

Module Binary64Facts.
Import SpecFloat Binary64.
Local Open Scope list_scope.

(** *** What is never NaN *)

Lemma shr_1_nonneg (mrs : shr_record) :
  0 <= shr_m mrs -> 0 <= shr_m (shr_1 mrs).
Proof.
  destruct mrs as [m r s]. cbn [shr_m]. intros H.
  destruct m as [|[p|p|]|p]; cbn; lia.
Qed.

Lemma iter_shr_1_nonneg (n : positive) (mrs : shr_record) :
  0 <= shr_m mrs -> 0 <= shr_m (iter_pos shr_1 n mrs).
Proof.
  revert mrs. induction n as [n IH|n IH|]; intros mrs H; cbn [iter_pos].
  - apply IH, IH, shr_1_nonneg, H.
  - apply IH, IH, H.
  - apply shr_1_nonneg, H.
Qed.

Lemma shr_fexp_nonneg (m e : Z) (l : location) :
  0 <= m -> 0 <= shr_m (fst (shr_fexp prec emax m e l)).
Proof.
  intros H. unfold shr_fexp, shr.
  assert (H0 : 0 <= shr_m (shr_record_of_loc m l))
    by (destruct l as [|[]]; exact H).
  destruct (_ - e) as [|n|n]; cbn [fst]; [exact H0| |exact H0].
  apply iter_shr_1_nonneg, H0.
Qed.

Lemma round_nearest_even_nonneg (m : Z) (l : location) :
  0 <= m -> 0 <= round_nearest_even m l.
Proof.
  intros H. destruct l as [|[]]; cbn [round_nearest_even]; try lia.
  destruct (Z.even m); lia.
Qed.

Lemma binary_round_aux_number (s : bool) (m e : Z) (l : location) :
  0 <= m -> is_nan (binary_round_aux prec emax s m e l) = false.
Proof.
  intros H. unfold binary_round_aux.
  pose proof (shr_fexp_nonneg m e l H) as H1.
  destruct (shr_fexp prec emax m e l) as [mrs' e']. cbn [fst] in H1.
  pose proof (shr_fexp_nonneg _ e' loc_Exact
                (round_nearest_even_nonneg _ (loc_of_shr_record mrs') H1)) as H2.
  destruct (shr_fexp prec emax _ e' loc_Exact) as [mrs'' e'']. cbn [fst] in H2.
  destruct (shr_m mrs'') as [|p|p]; [reflexivity| |lia].
  now destruct (e'' <=? emax - prec).
Qed.

Lemma binary_normalize_number (m e : Z) (szero : bool) :
  is_nan (binary_normalize prec emax m e szero) = false.
Proof.
  unfold binary_normalize, binary_round.
  destruct m as [|p|p]; [reflexivity| |];
    destruct (shl_align _ _ _) as [mz ez]; now apply binary_round_aux_number.
Qed.

Lemma div_core_nonneg (m1 m2 : positive) (e1 e2 : Z) :
  0 <= fst (fst (SFdiv_core_binary prec emax (Zpos m1) e1 (Zpos m2) e2)).
Proof.
  unfold SFdiv_core_binary. cbv zeta.
  set (s := e1 - e2 - _).
  set (m' := match s with Z0 => Zpos m1 | Zpos _ => Z.shiftl (Zpos m1) s | Zneg _ => 0 end).
  assert (Hm : 0 <= m').
  { unfold m'. destruct s; [lia| |lia]. apply Z.shiftl_nonneg. lia. }
  pose proof (Z_div_mod m' (Zpos m2) eq_refl) as H.
  destruct (Z.div_eucl m' (Zpos m2)) as [q r]. cbn [fst].
  destruct H as [H [Hr0 Hr1]]. nia.
Qed.

Lemma nearest_quotient_number (s : bool) (n d : positive) :
  is_nan (nearest_quotient s n d) = false.
Proof.
  unfold nearest_quotient.
  pose proof (div_core_nonneg n d 0 0) as H.
  destruct (SFdiv_core_binary prec emax (Zpos n) 0 (Zpos d) 0) as [[mz ez] lz].
  now apply binary_round_aux_number.
Qed.

(** The nearest binary64 number is a number. *)
Lemma b64_number (q : Q) : is_nan (b64 q) = false.
Proof.
  unfold b64. destruct (Qnum q); [reflexivity| |]; apply nearest_quotient_number.
Qed.

(** A finite number divided by a finite number other than zero. *)
Lemma fdiv_number (x y : float) :
  is_finite x = true -> is_finite y = true -> feqb y pos_zero = false ->
  is_nan (fdiv x y) = false.
Proof.
  intros Hx Hy Hz.
  destruct x as [sx|sx| |sx mx ex]; try discriminate;
    destruct y as [sy|sy| |sy my ey]; try discriminate; try reflexivity.
  unfold fdiv, SFdiv.
  pose proof (div_core_nonneg mx my ex ey) as H.
  destruct (SFdiv_core_binary prec emax (Zpos mx) ex (Zpos my) ey) as [[mz ez] lz].
  now apply binary_round_aux_number.
Qed.

(** A number, infinite or not, minus a finite number. *)
Lemma fsub_number (x y : float) :
  is_nan x = false -> is_finite y = true -> is_nan (fsub x y) = false.
Proof.
  intros Hx Hy.
  destruct x as [sx|sx| |sx mx ex]; try discriminate;
    destruct y as [sy|sy| |sy my ey]; try discriminate; try reflexivity.
  - now destruct sx, sy.
  - apply binary_normalize_number.
Qed.

Lemma fabs_number (x : float) : is_nan (fabs x) = is_nan x.
Proof. now destruct x. Qed.

(** *** Comparisons *)

Lemma compare_cont_opp (p q : positive) :
  Pos.compare_cont Eq q p = CompOpp (Pos.compare_cont Eq p q).
Proof. exact (Pos.compare_antisym p q). Qed.

Lemma SFcompare_opp (x y : float) :
  SFcompare y x = option_map CompOpp (SFcompare x y).
Proof.
  destruct x as [sx|sx| |sx mx ex], y as [sy|sy| |sy my ey];
    try reflexivity;
    try (now destruct sx); try (now destruct sy); try (now destruct sx, sy).
  cbn [SFcompare option_map].
  rewrite (Z.compare_antisym ex ey), (compare_cont_opp mx my).
  destruct sx, sy; try reflexivity;
    destruct (ex ?= ey); cbn [CompOpp]; try reflexivity;
    now destruct (Pos.compare_cont Eq mx my).
Qed.

(** [x <= y] excludes [y < x]. *)
Lemma fleb_not_fltb (x y : float) : fleb x y = true -> fltb y x = false.
Proof.
  unfold fleb, fltb, SFleb, SFltb. rewrite (SFcompare_opp x y).
  now destruct (SFcompare x y) as [[]|].
Qed.

(** No comparison holds with NaN. *)
Lemma fltb_nan (x y : float) : is_nan y = true -> fltb x y = false.
Proof. destruct y; try discriminate. now destruct x. Qed.

(** *** The splitting of a sum never runs short *)

Lemma pairwise_sum_fuel (f1 f2 : nat) (a : list float) :
  (List.length a <= f1 + 128)%nat -> (List.length a <= f2 + 128)%nat ->
  pairwise_sum f1 a = pairwise_sum f2 a.
Proof.
  revert f2 a. induction f1 as [|f1 IH]; intros f2 a H1 H2.
  - destruct f2 as [|f2]; [reflexivity|]. cbn [pairwise_sum].
    destruct (Nat.ltb _ 8); [reflexivity|].
    destruct (Nat.leb (List.length a) 128) eqn:E; [reflexivity|].
    apply Nat.leb_gt in E. lia.
  - destruct f2 as [|f2]; cbn [pairwise_sum];
      destruct (Nat.ltb _ 8); try reflexivity;
      destruct (Nat.leb (List.length a) 128) eqn:E; try reflexivity;
      apply Nat.leb_gt in E; [lia|].
    set (n := List.length a) in *.
    set (n2 := (Nat.div n 2 - Nat.modulo (Nat.div n 2) 8)%nat).
    assert (Hn2 : (57 <= n2 <= n - 65)%nat).
    { unfold n2.
      pose proof (Nat.div_mod_eq n 2) as D2.
      pose proof (Nat.mod_upper_bound n 2 ltac:(lia)) as M2.
      pose proof (Nat.mod_upper_bound (Nat.div n 2) 8 ltac:(lia)) as M8.
      lia. }
    f_equal; apply IH; rewrite ?length_firstn, ?length_skipn; fold n; lia.
Qed.

End Binary64Facts.

Module AnalysisProps.
Import Text PandasText Pandas Payload Binary64 Insights AnalysisSpec AnalysisFacts
       Binary64Facts Samples.
Local Open Scope list_scope.

(** The difference of a row as pandas computes it, NaN standing for a
    missing value, is the difference of the row where it has one; this one
    is never NaN. *)
Lemma row_difference (c k i : string) (r : record) :
  numbers_in_range [r] [c; k; i] = true ->
  fabs (fsub (fdiv (to_float (_numeric (get r k)))
                   (if feqb (to_float (_numeric (get r i))) pos_zero then nan
                    else to_float (_numeric (get r i))))
             (to_float (_numeric (get r c))))
  = match row_abs_difference_b64 c k i r with Some x => x | None => nan end
  /\ forall x, row_abs_difference_b64 c k i r = Some x -> is_nan x = false.
Proof.
  unfold numbers_in_range, row_abs_difference_b64, row_number.
  cbn [forallb]. rewrite !andb_true_r. intros H.
  apply andb_prop in H as [Hc H]. apply andb_prop in H as [Hk Hi].
  destruct (_numeric (get r k)) as [x|]; cbn [to_float].
  - destruct (_numeric (get r i)) as [y|]; cbn [to_float].
    + destruct (_numeric (get r c)) as [z|]; cbn [to_float].
      * destruct (feqb (b64 y) pos_zero) eqn:E.
        -- split; [|discriminate]. now destruct (b64 x).
        -- split; [reflexivity|]. intros v [= <-].
           rewrite fabs_number. apply fsub_number; [|exact Hc].
           now apply fdiv_number.
      * split; [|discriminate].
        destruct (feqb (b64 y) pos_zero);
          [now destruct (b64 x)|now destruct (fdiv (b64 x) (b64 y))].
    + split; [|discriminate]. cbn. now destruct (b64 x).
  - split; [|now destruct (_numeric (get r i)), (_numeric (get r c))].
    now destruct (_numeric (get r i)), (_numeric (get r c)).
Qed.

Lemma numbers_in_range_cons (r : record) (rs : list record) (names : list string) :
  numbers_in_range (r :: rs) names = true ->
  numbers_in_range [r] names = true /\ numbers_in_range rs names = true.
Proof.
  unfold numbers_in_range. cbn [forallb]. rewrite andb_true_r.
  intros H. now apply andb_prop in H.
Qed.

Lemma abs_diff_rows (rs : list record) (c k i : string) :
  numbers_in_range rs [c; k; i] = true ->
  abs_diff (implied_ratio (float_series (map (fun r => _numeric (get r k)) rs))
                          (float_series (map (fun r => _numeric (get r i)) rs)))
           (float_series (map (fun r => _numeric (get r c)) rs))
  = map (fun d => match d with Some x => x | None => nan end)
        (map (row_abs_difference_b64 c k i) rs)
  /\ forall x, In (Some x) (map (row_abs_difference_b64 c k i) rs) ->
               is_nan x = false.
Proof.
  unfold abs_diff, implied_ratio, float_series, replace_zero.
  induction rs as [|r rs IH]; intros H; [now split|].
  apply numbers_in_range_cons in H as [Hr H].
  destruct (IH H) as [IH1 IH2]. destruct (row_difference c k i r Hr) as [R1 R2].
  split.
  - cbn [map combine fst snd]. rewrite IH1. f_equal. exact R1.
  - intros x [Hx|Hx]; [now apply R2|now apply IH2].
Qed.

(** The mean that numpy computes on an array with NaN for the missing
    values. *)
Lemma nanmean_rows (ds : list (option float)) :
  (forall x, In (Some x) ds -> is_nan x = false) ->
  nanmean (map (fun d => match d with Some x => x | None => nan end) ds)
  = fdiv (np_sum (map (fun d => match d with Some x => x | None => pos_zero end) ds))
         (float_of_nat (List.length (filter is_some ds))).
Proof.
  intros H. unfold nanmean. f_equal.
  - f_equal. rewrite map_map. apply map_ext_in. intros [x|] Hd; [|reflexivity].
    now rewrite (H x Hd).
  - f_equal. induction ds as [|[x|] ds IH]; [reflexivity| |].
    + cbn [map filter is_some]. rewrite (H x (or_introl eq_refl)).
      cbn [negb List.length]. f_equal. apply IH. intros y Hy. apply H. now right.
    + cbn [map filter is_some is_nan negb]. apply IH.
      intros y Hy. apply H. now right.
Qed.

(** C6, as the code has it.  When the payload has a click-rate column and
    the clicks and impressions columns, their numbers being in the range of
    binary64, the analysis reports the mean absolute difference between the
    stated click-rate and the per-row ratio clicks/impressions (a division
    by zero counting as missing) computed in binary64 arithmetic, and the
    data-quality flag is set if and only if this computed mean is strictly
    greater than the binary64 number nearest to 0.02; it is not set when
    the computed mean is at most that number, nor when it is NaN (no row
    has a difference). *)
Theorem ctr_warning_threshold_binary64 (p : payload) (a : analysis) (c k i : string) :
  _analyze_payload p = Returned a ->
  m_ctr (inferred_metrics a) = Some c ->
  m_clicks (inferred_metrics a) = Some k ->
  m_impressions (inferred_metrics a) = Some i ->
  numbers_in_range (p_rows p) [c; k; i] = true ->
  let d := mean_abs_difference_b64 (p_rows p) c k i in
  ctr_vs_ratio_avg_abs_diff (data_quality a) = Some d
  /\ (ctr_vs_ratio_warning (data_quality a) = true <-> fltb (b64 (2 # 100)) d = true)
  /\ (fleb d (b64 (2 # 100)) = true -> ctr_vs_ratio_warning (data_quality a) = false)
  /\ (is_nan d = true -> ctr_vs_ratio_warning (data_quality a) = false).
Proof.
  intros Ha Hc Hk Hi Hrange d.
  destruct (analyze_returned p a Ha) as (Hm & _ & Hq & _).
  rewrite Hm in Hc, Hk, Hi.
  assert (Hdq : data_quality a
                = mkquality (exceeds d) (Some d) (missing_columns (data_quality a))).
  { rewrite Hq. unfold check_quality.
    rewrite Hc, Hk, Hi.
    assert (Tc : truthy (Some c) = true).
    { eapply find_col_truthy; [|exact Hc]. reflexivity. }
    assert (Tk : truthy (Some k) = true).
    { eapply find_col_truthy; [|exact Hk]. reflexivity. }
    assert (Ti : truthy (Some i) = true).
    { eapply find_col_truthy; [|exact Hi]. reflexivity. }
    rewrite Tc, Tk, Ti. cbn [andb col_series missing_columns]. cbv zeta.
    destruct (abs_diff_rows (p_rows p) c k i Hrange) as [E Hnum].
    rewrite E, (nanmean_rows _ Hnum). reflexivity. }
  rewrite Hdq. cbn [ctr_vs_ratio_warning ctr_vs_ratio_avg_abs_diff].
  unfold exceeds, threshold.
  split; [reflexivity|]. split; [reflexivity|]. split.
  - apply fleb_not_fltb.
  - apply fltb_nan.
Qed.

(** C6 as stated fails.  With a stated click-rate of 0.08, 10 clicks and
    100 impressions the mean absolute difference is 0.02 exactly, not more,
    and the flag is set: the difference computed in binary64 is
    0.020000000000000004.  It is set too when the click-rate is the
    binary64 number that the literal 0.08 denotes, the difference being
    then below 0.02. *)
Lemma ctr_warning_set_at_threshold :
  (exists a d,
      _analyze_payload threshold_payload = Returned a
      /\ m_ctr (inferred_metrics a) = Some "CTR"
      /\ m_clicks (inferred_metrics a) = Some "Clicks"
      /\ m_impressions (inferred_metrics a) = Some "Impressions"
      /\ mean_abs_difference (p_rows threshold_payload) "CTR" "Clicks" "Impressions"
         = Some d
      /\ (d == 2 # 100)%Q
      /\ ctr_vs_ratio_warning (data_quality a) = true
      /\ ctr_vs_ratio_avg_abs_diff (data_quality a)
         = Some (SpecFloat.S754_finite false 5764607523034236 (-58)))
  /\ (exists a d,
         _analyze_payload threshold_payload_b64 = Returned a
         /\ m_ctr (inferred_metrics a) = Some "CTR"
         /\ m_clicks (inferred_metrics a) = Some "Clicks"
         /\ m_impressions (inferred_metrics a) = Some "Impressions"
         /\ mean_abs_difference (p_rows threshold_payload_b64)
                                "CTR" "Clicks" "Impressions" = Some d
         /\ (d < 2 # 100)%Q
         /\ ctr_vs_ratio_warning (data_quality a) = true).
Proof.
  split.
  - destruct (_analyze_payload threshold_payload) as [e|a] eqn:E;
      [vm_compute in E; discriminate|].
    vm_compute in E. injection E as <-.
    eexists. eexists. split; [reflexivity|].
    split; [reflexivity|]. split; [reflexivity|]. split; [reflexivity|].
    split; [vm_compute; reflexivity|].
    split; [vm_compute; reflexivity|]. split; reflexivity.
  - destruct (_analyze_payload threshold_payload_b64) as [e|a] eqn:E;
      [vm_compute in E; discriminate|].
    vm_compute in E. injection E as <-.
    eexists. eexists. split; [reflexivity|].
    split; [reflexivity|]. split; [reflexivity|]. split; [reflexivity|].
    split; [vm_compute; reflexivity|].
    split; [vm_compute; reflexivity|]. reflexivity.
Qed.

End AnalysisProps.

Module AnalysisWitness.
Import Text PandasText Pandas Payload Binary64 Insights AnalysisSpec AnalysisFacts
       Samples.
Local Open Scope list_scope.

(** A stated click-rate of 0.5 against 10 clicks for 100 impressions is
    flagged; a stated click-rate of 0.02 without any click, a difference of
    0.02 in binary64 too, is not. *)
Lemma ctr_warning_threshold_binary64_witness :
  (exists a, _analyze_payload quality_payload = Returned a
             /\ ctr_vs_ratio_warning (data_quality a) = true)
  /\ (exists a, _analyze_payload no_click_payload = Returned a
                /\ ctr_vs_ratio_avg_abs_diff (data_quality a) = Some (b64 (2 # 100))
                /\ ctr_vs_ratio_warning (data_quality a) = false).
Proof.
  split.
  - destruct (_analyze_payload quality_payload) as [e|a] eqn:E;
      [vm_compute in E; discriminate|].
    exists a. split; [reflexivity|].
    pose proof E as E'. vm_compute in E'. injection E' as E'.
    apply (proj1 (proj2 (AnalysisProps.ctr_warning_threshold_binary64
                    quality_payload a "CTR" "Clicks" "Impressions" E
                    ltac:(rewrite <- E'; reflexivity)
                    ltac:(rewrite <- E'; reflexivity)
                    ltac:(rewrite <- E'; reflexivity)
                    ltac:(vm_compute; reflexivity)))).
    vm_compute. reflexivity.
  - destruct (_analyze_payload no_click_payload) as [e|a] eqn:E;
      [vm_compute in E; discriminate|].
    exists a.  split; [reflexivity|].
    pose proof E as E'. vm_compute in E'. injection E' as E'.
    pose proof (AnalysisProps.ctr_warning_threshold_binary64
                  no_click_payload a "CTR" "Clicks" "Impressions" E
                  ltac:(rewrite <- E'; reflexivity)
                  ltac:(rewrite <- E'; reflexivity)
                  ltac:(rewrite <- E'; reflexivity)
                  ltac:(vm_compute; reflexivity)) as (Hd & _ & Hle & _).
    split.
    + rewrite Hd. vm_compute. reflexivity.
    + apply Hle. vm_compute. reflexivity.
Defined.

End AnalysisWitness.

Module WeightedSpec.
Import Text PandasText Pandas Payload Insights AnalysisSpec AnalysisFacts Samples.
Local Open Scope list_scope.

(** The weighted click-rate, from the two series. *)
Lemma weigh_ctr_sums (rs : list record) (k i : string) :
  fst (fst (weigh_ctr (col_series rs (Some i)) (col_series rs (Some k))))
  = if positive (column_sum rs i)
    then Some (column_sum rs k / column_sum rs i)%Q
    else None.
Proof.
  unfold weigh_ctr, col_series, column_sum, row_number.
  destruct (any_notna (map (fun r => _numeric (get r i)) rs)) eqn:E.
  - cbn [fst]. reflexivity.
  - cbn [fst]. now rewrite (nansum_all_missing _ E).
Qed.

(** C5, as the specification states it, fails when the impressions sum to
    a negative number: both columns are present, the sum is -200 and not
    zero, and the engine reports null instead of 7 / -200. *)
Lemma weighted_ctr_negative_sum : ~ weighted_ctr_as_stated negative_payload.
Proof.
  intros H.
  destruct (_analyze_payload negative_payload) as [e|a] eqn:E;
    [vm_compute in E; discriminate|].
  specialize (H a E). vm_compute in E. injection E as <-.
  vm_compute in H. exact H.
Qed.

(** C5, amended. The weighted click-rate is sum(clicks) / sum(impressions)
    over the payload rows when the impressions sum to a positive number,
    and null when they sum to zero or less, or when the clicks or the
    impressions column is absent; on the two-row payload of the
    specification it is 15/1100 and not 0.03. *)
Theorem weighted_ctr_from_sums :
  (forall (p : payload) (a : analysis),
      _analyze_payload p = Returned a ->
      match m_clicks (inferred_metrics a), m_impressions (inferred_metrics a) with
      | Some k, Some i =>
          if Qle_bool (column_sum (p_rows p) i) 0
          then ctr_weighted (weighted_ratios a) = None
          else ctr_weighted (weighted_ratios a)
               = Some (column_sum (p_rows p) k / column_sum (p_rows p) i)%Q
      | _, _ => ctr_weighted (weighted_ratios a) = None
      end)
  /\ (exists a q,
         _analyze_payload two_row_payload = Returned a
         /\ ctr_weighted (weighted_ratios a) = Some q
         /\ (q == 15 # 1100)%Q /\ ~ (q == 3 # 100)%Q).
Proof.
  split.
  - intros p a Ha.
    destruct (analyze_returned p a Ha) as (Hm & Hw & _).
    rewrite Hm, Hw.
    destruct (m_clicks (_infer_metrics_from_payload p)) as [k|],
             (m_impressions (_infer_metrics_from_payload p)) as [i|];
      try reflexivity.
    rewrite weigh_ctr_sums. unfold positive, Q_ltb.
    now destruct (Qle_bool (column_sum (p_rows p) i) 0).
  - destruct (_analyze_payload two_row_payload) as [e|a] eqn:E;
      [vm_compute in E; discriminate|].
    exists a. vm_compute in E. injection E as <-.
    eexists. split; [reflexivity|]. split; [reflexivity|].
    split; [reflexivity|]. intros H. vm_compute in H. discriminate H.
Qed.

(** On the negative payload the amended statement gives null. *)
Lemma weighted_ctr_from_sums_witness :
  exists a, _analyze_payload negative_payload = Returned a
            /\ ctr_weighted (weighted_ratios a) = None.
Proof.
  destruct (_analyze_payload negative_payload) as [e|a] eqn:E;
    [vm_compute in E; discriminate|].
  exists a. split; [reflexivity|].
  pose proof (proj1 weighted_ctr_from_sums negative_payload a E) as H.
  pose proof E as E'. vm_compute in E'. injection E' as E'.
  rewrite <- E' in H |- *. exact H.
Defined.

End WeightedSpec.

(** ** Grouping a list by a key and summing group by group *)

Module GroupingFacts.
Import Pandas.
Local Open Scope list_scope.

Section Partition.
Context {A B : Type} (eqb : A -> A -> bool) (f : B -> A) (mu : list B -> Q).
Hypothesis eqb_refl : forall x, eqb x x = true.
Hypothesis eqb_sym : forall x y, eqb x y = true -> eqb y x = true.
Hypothesis eqb_trans : forall x y z, eqb x y = true -> eqb y z = true -> eqb x z = true.
Hypothesis mu_nil : (mu [] == 0)%Q.
Hypothesis mu_cons : forall x l, (mu (x :: l) == mu [x] + mu l)%Q.

Lemma mu_app (l1 l2 : list B) : (mu (l1 ++ l2) == mu l1 + mu l2)%Q.
Proof.
  induction l1 as [|x l1 IH]; simpl.
  - rewrite mu_nil. ring.
  - rewrite mu_cons, IH, (mu_cons x l1). ring.
Qed.

(** No element equals an earlier one. *)
Fixpoint distinct (gs : list A) : Prop :=
  match gs with
  | [] => True
  | g :: rest => (forall g', In g' rest -> eqb g' g = false) /\ distinct rest
  end.

Lemma unique_acc_fresh (seen l : list A) (y : A) :
  In y (unique_acc eqb seen l) -> existsb (eqb y) seen = false.
Proof.
  revert seen. induction l as [|x l IH]; intros seen H; [destruct H|].
  simpl in H. destruct (existsb (eqb x) seen) eqn:E.
  - now apply IH.
  - destruct H as [<-|H]; [exact E|].
    apply IH in H. simpl in H. now apply orb_false_iff in H as [_ H].
Qed.

Lemma unique_acc_distinct (seen l : list A) : distinct (unique_acc eqb seen l).
Proof.
  revert seen. induction l as [|x l IH]; intros seen; simpl; [exact I|].
  destruct (existsb (eqb x) seen); [apply IH|].
  simpl. split; [|apply IH].
  intros g' Hg'. apply unique_acc_fresh in Hg'. simpl in Hg'.
  now apply orb_false_iff in Hg' as [Hg' _].
Qed.

Lemma unique_acc_covers (seen l : list A) (x : A) :
  In x l -> existsb (eqb x) seen || existsb (eqb x) (unique_acc eqb seen l) = true.
Proof.
  revert seen. induction l as [|y l IH]; intros seen H; [destruct H|].
  simpl. destruct (existsb (eqb y) seen) eqn:E.
  - destruct H as [->|H]; [now rewrite E|now apply IH].
  - simpl. destruct H as [->|H].
    + now rewrite eqb_refl, orb_true_r.
    + specialize (IH (y :: seen) H). simpl in IH.
      destruct (eqb x y) eqn:Exy; [now rewrite orb_true_r|].
      simpl in IH. exact IH.
Qed.

Lemma unique_covers (l : list A) (x : A) :
  In x l -> existsb (eqb x) (unique eqb l) = true.
Proof. intros H. exact (unique_acc_covers [] l x H). Qed.

(** The rows of the groups [gs], group after group, weigh as much as the
    rows that belong to one of them. *)
Lemma mu_groups (gs : list A) (rs : list B) :
  distinct gs ->
  (mu (flat_map (fun g => filter (fun r => eqb (f r) g) rs) gs)
   == mu (filter (fun r => existsb (eqb (f r)) gs) rs))%Q.
Proof.
  induction gs as [|g gs IH]; intros Hd.
  - simpl. rewrite mu_nil.
    induction rs as [|r rs IHr]; simpl; [now rewrite mu_nil|exact IHr].
  - destruct Hd as [Hg Hd]. cbn [flat_map]. rewrite mu_app, (IH Hd).
    clear IH. induction rs as [|r rs IHr].
    + simpl. rewrite mu_nil. ring.
    + cbn [filter existsb].
      destruct (eqb (f r) g) eqn:E1.
      * assert (E2 : existsb (eqb (f r)) gs = false).
        { destruct (existsb (eqb (f r)) gs) eqn:E2; [|reflexivity].
          apply existsb_exists in E2 as (g' & Hin & E2).
          apply eqb_sym in E2.
          pose proof (eqb_trans _ _ _ E2 E1) as T.
          rewrite (Hg g' Hin) in T. discriminate T. }
        rewrite E2. cbn [orb].
        rewrite (mu_cons r (filter _ rs)), (mu_cons r (filter _ rs)), <- IHr.
        ring.
      * cbn [orb]. destruct (existsb (eqb (f r)) gs).
        -- rewrite (mu_cons r (filter _ rs)), (mu_cons r (filter _ rs)), <- IHr.
           ring.
        -- exact IHr.
Qed.

(** Grouped by the distinct keys of their own, the rows weigh as much as
    ungrouped. *)
Lemma mu_unique_groups (rs : list B) :
  (mu (flat_map (fun g => filter (fun r => eqb (f r) g) rs)
                (unique eqb (map f rs)))
   == mu rs)%Q.
Proof.
  rewrite mu_groups by apply unique_acc_distinct.
  assert (H : forall r, In r rs -> existsb (eqb (f r)) (unique eqb (map f rs)) = true).
  { intros r Hr. apply unique_covers. now apply in_map. }
  assert (E : filter (fun r => existsb (eqb (f r)) (unique eqb (map f rs))) rs = rs).
  { revert H. generalize (unique eqb (map f rs)) as gs. intros gs.
    induction rs as [|r rs IH]; intros H; [reflexivity|]. simpl.
    rewrite (H r (or_introl eq_refl)). f_equal.
    apply IH. intros r' Hr'. apply H. now right. }
  now rewrite E.
Qed.
End Partition.

Lemma Q_eqb_eq (a b : Q) : Q_eqb a b = true <-> (a == b)%Q.
Proof. apply Qeq_bool_iff. Qed.

Lemma label_eqb_refl (x : label) : label_eqb x x = true.
Proof.
  destruct x; simpl; [apply String.eqb_refl|apply Q_eqb_eq; reflexivity].
Qed.

Lemma label_eqb_sym (x y : label) : label_eqb x y = true -> label_eqb y x = true.
Proof.
  destruct x, y; simpl; try discriminate.
  - now rewrite String.eqb_sym.
  - rewrite !Q_eqb_eq. intros H. now symmetry.
Qed.

Lemma label_eqb_trans (x y z : label) :
  label_eqb x y = true -> label_eqb y z = true -> label_eqb x z = true.
Proof.
  destruct x, y, z; simpl; try discriminate.
  - rewrite !String.eqb_eq. congruence.
  - rewrite !Q_eqb_eq. intros H1 H2. now rewrite H1.
Qed.

Lemma nansum_cons (c : option Q) (l : list (option Q)) :
  (nansum (c :: l) == nansum [c] + nansum l)%Q.
Proof. destruct c; simpl; ring. Qed.

End GroupingFacts.

(** ** The pivot builder: totals and subtotals *)

Module PivotFacts.
Import Text PandasText Pandas Pivoting PivotSpec GroupingFacts ValidationSpec.
Local Open Scope list_scope.

(** The index of the pivot body: one level per row-group column, or the
    metric names when there is no row group. *)
Lemma pivot_body_index (df : table) (index_cols columns_cols value_cols : list string)
      (agg_choice : aggregator) (pvt : frame) :
  pivot_body df index_cols columns_cols value_cols agg_choice = Returned pvt ->
  match index_cols with
  | [] => index_names pvt = [None] /\ index_multi pvt = false
  | _ :: _ => index_names pvt = map Some index_cols
              /\ index_multi pvt = Nat.leb 2 (List.length index_cols)
  end.
Proof.
  unfold pivot_body. intros H.
  apply bind_returned in H as (df_vals & _ & H).
  apply bind_returned in H as (p0 & Hp & H).
  injection H as <-. cbn [index_names index_multi].
  unfold pivot_table in Hp.
  destruct (negb (forallb _ value_cols)); [discriminate|].
  destruct (negb (forallb _ (index_cols ++ columns_cols))); [discriminate|].
  destruct (existsb _ value_cols); [discriminate|].
  destruct index_cols as [|i idx], columns_cols as [|c cols];
    try discriminate; injection Hp as <-; simpl; auto.
Qed.

Lemma from_tuples_returned (tuple : key) (names : list (option string)) :
  List.length names = List.length tuple -> from_tuples tuple names = Returned tuple.
Proof. intros H. unfold from_tuples. now rewrite H, Nat.eqb_refl. Qed.

Lemma from_tuples_raised (tuple : key) (names : list (option string)) :
  List.length names <> List.length tuple ->
  from_tuples tuple names = Raised "ValueError".
Proof.
  intros H. unfold from_tuples.
  destruct (Nat.eqb_spec (List.length names) (List.length tuple)); congruence.
Qed.

(** With a two-level index, the pieces are the blocks with their subtotal
    rows. *)
Lemma subtotal_pieces_two_levels (pvt : frame) (groups : list label) :
  nlevels pvt = 2%nat ->
  subtotal_pieces pvt groups
  = Returned (map (fun g => member_rows pvt g ++ [subtotal_row "Sous-total" pvt g])
                  groups).
Proof.
  intros H2. induction groups as [|g gs IH]; [reflexivity|].
  cbn [subtotal_pieces map].
  rewrite from_tuples_returned by exact H2. cbn [bind pd_concat List.concat].
  rewrite IH. cbn [bind]. now rewrite app_nil_r.
Qed.

Lemma first_level_groups_nil (pvt : frame) :
  first_level_groups pvt = [] <-> rows pvt = [].
Proof.
  unfold first_level_groups, unique.
  destruct (rows pvt) as [|r rs]; simpl; split; auto; discriminate.
Qed.

(** What [add_row_subtotals_and_total] returns on a two-level index that
    has rows. *)
Lemma add_subtotals_two_levels (pvt : frame) :
  index_multi pvt = true -> nlevels pvt = 2%nat -> rows pvt <> [] ->
  add_row_subtotals_and_total pvt
  = Returned
      (mkframe (index_names pvt) (index_multi pvt) (columns pvt) (columns_multi pvt)
               (with_subtotals "Sous-total" pvt ++
                  [([LStr "Total"; LStr ""],
                    some_cells
                      (frame_sum (ncols pvt)
                         (filter (fun r => negb (is_subtotal_key (fst r)))
                                 (with_subtotals "Sous-total" pvt))))])).
Proof.
  intros Hm H2 Hne. unfold add_row_subtotals_and_total.
  rewrite Hm, H2. cbn [Nat.leb andb].
  rewrite subtotal_pieces_two_levels by exact H2. cbn [bind].
  fold (first_level_groups pvt). unfold with_subtotals.
  rewrite flat_map_concat_map.
  destruct (first_level_groups pvt) as [|g gs] eqn:Eg.
  - apply first_level_groups_nil in Eg. contradiction.
  - cbn [map pd_concat bind].
    now rewrite from_tuples_returned by exact H2.
Qed.

(** Without rows there is nothing to concatenate. *)
Lemma add_subtotals_no_rows (pvt : frame) :
  index_multi pvt = true -> (2 <= nlevels pvt)%nat -> rows pvt = [] ->
  add_row_subtotals_and_total pvt = Raised "ValueError".
Proof.
  intros Hm H2 Hnil. unfold add_row_subtotals_and_total.
  rewrite Hm. replace (Nat.leb 2 (nlevels pvt)) with true
    by (symmetry; apply Nat.leb_le; lia).
  rewrite Hnil. reflexivity.
Qed.

(** With more than two levels the index of the synthetic rows cannot be
    built. *)
Lemma add_subtotals_more_levels (pvt : frame) :
  index_multi pvt = true -> (2 < nlevels pvt)%nat ->
  add_row_subtotals_and_total pvt = Raised "ValueError".
Proof.
  intros Hm H2.
  destruct (rows pvt) as [|r rs] eqn:Er.
  - apply add_subtotals_no_rows; [exact Hm|lia|exact Er].
  - unfold add_row_subtotals_and_total.
    rewrite Hm. replace (Nat.leb 2 (nlevels pvt)) with true
      by (symmetry; apply Nat.leb_le; lia).
    cbn [andb]. rewrite Er. unfold unique. cbn [map unique_acc existsb].
    cbn [subtotal_pieces].
    rewrite from_tuples_raised by (unfold nlevels in H2; simpl; lia).
    reflexivity.
Qed.

(** Without a row carrying the reserved label, the rows kept for the grand
    total are the member rows, group after group. *)
Lemma non_subtotal_rows (pvt : frame) :
  no_reserved_label pvt ->
  filter (fun r => negb (is_subtotal_key (fst r))) (with_subtotals "Sous-total" pvt)
  = flat_map (member_rows pvt) (first_level_groups pvt).
Proof.
  intros Hfree. unfold with_subtotals.
  induction (first_level_groups pvt) as [|g gs IH]; [reflexivity|].
  cbn [flat_map]. rewrite !filter_app, IH. f_equal.
  assert (Hsub : filter (fun r => negb (is_subtotal_key (fst r)))
                        [subtotal_row "Sous-total" pvt g] = []).
  { reflexivity. }
  rewrite Hsub, app_nil_r.
  unfold member_rows, xs.
  assert (H : forall rs : list (key * list (option Q)),
             (forall r, In r rs -> is_subtotal_key (fst r) = false) ->
                         filter (fun r => negb (is_subtotal_key (fst r)))
                                (filter (fun r => label_eqb (level_value 0 (fst r)) g) rs)
                         = filter (fun r => label_eqb (level_value 0 (fst r)) g) rs).
  { induction rs as [|r rs IHr]; intros Hrs; [reflexivity|]. simpl.
    destruct (label_eqb (level_value 0 (fst r)) g); simpl.
    - rewrite (Hrs r (or_introl eq_refl)). simpl. f_equal.
      apply IHr. intros r' Hr'. apply Hrs. now right.
    - apply IHr. intros r' Hr'. apply Hrs. now right. }
  apply H. exact Hfree.
Qed.

(** Summed group after group, the member rows give the column sums of the
    body. *)
Lemma frame_sum_groups (pvt : frame) :
  same_numbers
    (frame_sum (ncols pvt) (flat_map (member_rows pvt) (first_level_groups pvt)))
    (frame_sum (ncols pvt) (rows pvt)).
Proof.
  unfold same_numbers, frame_sum.
  induction (seq 0 (ncols pvt)) as [|j js IH]; [constructor|].
  cbn [map]. constructor; [|exact IH].
  unfold member_rows, xs, first_level_groups.
  apply (mu_unique_groups label_eqb (fun r => level_value 0 (fst r))
                          (fun rs => nansum (column_cells j rs))).
  - apply label_eqb_refl.
  - apply label_eqb_sym.
  - apply label_eqb_trans.
  - reflexivity.
  - intros x l. unfold column_cells. cbn [map]. apply nansum_cons.
Qed.


End PivotFacts.

Module PivotProps.
Import Text PandasText Pandas Pivoting PivotSpec GroupingFacts ValidationSpec PivotFacts.
Local Open Scope list_scope.

(** The two ways [build_pivot] ends. *)
Lemma build_pivot_cases (df : table) (index_cols columns_cols value_cols : list string)
      (agg_choice : aggregator) (p : frame) (msg : string) :
  build_pivot df index_cols columns_cols value_cols agg_choice = Returned (Some p, msg) ->
  exists pvt,
    pivot_body df index_cols columns_cols value_cols agg_choice = Returned pvt
    /\ if index_multi pvt && Nat.leb 2 (nlevels pvt) && is_nil columns_cols
       then add_row_subtotals_and_total pvt = Returned p
       else rows p = rows pvt ++
                       [([LStr "Total"], some_cells (frame_sum (ncols pvt) (rows pvt)))].
Proof.
  unfold build_pivot.
  destruct (is_nil index_cols && is_nil columns_cols); [discriminate|].
  destruct (is_nil value_cols); [discriminate|].
  intros H. apply bind_returned in H as (pvt & Hb & H).
  exists pvt. split; [exact Hb|].
  destruct (index_multi pvt && Nat.leb 2 (nlevels pvt) && is_nil columns_cols).
  - apply bind_returned in H as (out & Hout & H). congruence.
  - injection H as <- _. reflexivity.
Qed.

(** When subtotals are inserted, the index has exactly two levels. *)
Lemma subtotal_branch_levels (pvt p : frame) :
  index_multi pvt && Nat.leb 2 (nlevels pvt) = true ->
  add_row_subtotals_and_total pvt = Returned p ->
  index_multi pvt = true /\ nlevels pvt = 2%nat /\ rows pvt <> [].
Proof.
  intros Hc Hp. apply andb_true_iff in Hc as [Hm Hl].
  apply Nat.leb_le in Hl. split; [exact Hm|]. split.
  - destruct (Nat.eq_dec (nlevels pvt) 2) as [E|E]; [exact E|].
    rewrite add_subtotals_more_levels in Hp by (auto; lia). discriminate.
  - intros Hnil. rewrite add_subtotals_no_rows in Hp by auto. discriminate.
Qed.


(** C1. On a table in which a value of the second grouping column is the
    text [Sous-total], the Total row of the returned pivot is not the
    column-wise sum of the body rows: the row of the group (B, Sous-total),
    400 impressions, is left out, and the Total is 600 where the body sums
    to 1000. *)
Theorem total_misses_row_labelled_as_subtotal :
  ~ total_as_stated collision_table ["Canal"; "Format"] [] ["Impressions"] Sum.
Proof.
  intros H.
  destruct (build_pivot collision_table ["Canal"; "Format"] [] ["Impressions"] Sum)
    as [e|[[p|] msg]] eqn:E; try (vm_compute in E; discriminate).
  destruct (H p msg E) as (pvt & front & tk & totals & Hb & Hrows & _ & Hsum).
  vm_compute in E. injection E as <- _.
  vm_compute in Hb. injection Hb as <-.
  apply (f_equal (@rev _)) in Hrows. rewrite rev_app_distr in Hrows.
  cbn [rows rev app] in Hrows. injection Hrows as _ Hcells _.
  destruct totals as [|t [|t' ts]]; try discriminate Hcells.
  injection Hcells as <-.
  vm_compute in Hsum. inversion Hsum as [|? ? ? ? Hq _]. discriminate Hq.
Qed.

End PivotProps.

Module SubtotalProps.
Import Text PandasText Pandas Pivoting PivotSpec GroupingFacts ValidationSpec
       PivotFacts PivotProps.
Local Open Scope list_scope.

(** C2, as the specification states it, fails on the label: the row
    inserted after the group A is keyed (A, Sous-total), not
    (A, Subtotal). *)
Lemma subtotal_label_is_french :
  ~ subtotals_as_stated campaign_table ["Canal"; "Format"] ["Impressions"] Mean.
Proof.
  intros H.
  destruct (build_pivot campaign_table ["Canal"; "Format"] [] ["Impressions"] Mean)
    as [e|[[p|] msg]] eqn:E; try (vm_compute in E; discriminate).
  destruct (H p msg E) as (pvt & tk & totals & Hb & Hrows & _).
  vm_compute in E. injection E as <- _.
  vm_compute in Hb. injection Hb as <-.
  vm_compute in Hrows. discriminate Hrows.
Qed.

(** With three row-group levels and no column group the call raises: the
    two-level keys of the synthetic rows do not fit a three-level index. *)
Lemma three_levels_raise :
  build_pivot campaign_table ["Canal"; "Format"; "Mois"] [] ["Impressions"] Sum
  = Raised "ValueError".
Proof. vm_compute. reflexivity. Qed.

(** C2, amended. For a row group of exactly two levels and no column
    group, the returned pivot is the body with, after each first-level
    group, a row keyed (group value, "Sous-total") that holds the
    column-wise sum of the member rows of the group (never the chosen
    aggregator), followed by the row (Total, "") that holds the column-wise
    sum of the rows not labelled Sous-total; when no body row carries that
    label these are the member rows only, and the grand total is the
    column-wise sum of the body.  With at most one row-group level, or with
    a column group, the pivot is the body followed by the plain Total
    row. *)
Theorem subtotals_and_total
        (df : table) (index_cols columns_cols value_cols : list string)
        (agg_choice : aggregator) (p : frame) (msg : string) :
  build_pivot df index_cols columns_cols value_cols agg_choice = Returned (Some p, msg) ->
  exists pvt,
    pivot_body df index_cols columns_cols value_cols agg_choice = Returned pvt
    /\ (List.length index_cols = 2%nat -> columns_cols = [] ->
        let kept := filter (fun r => negb (is_subtotal_key (fst r)))
                           (with_subtotals "Sous-total" pvt) in
        rows p = with_subtotals "Sous-total" pvt
                 ++ [([LStr "Total"; LStr ""], some_cells (frame_sum (ncols pvt) kept))]
        /\ (no_reserved_label pvt ->
            kept = flat_map (member_rows pvt) (first_level_groups pvt)
            /\ same_numbers (frame_sum (ncols pvt) kept)
                            (frame_sum (ncols pvt) (rows pvt))))
    /\ ((List.length index_cols <= 1)%nat \/ columns_cols <> [] ->
        rows p = rows pvt
                 ++ [([LStr "Total"], some_cells (frame_sum (ncols pvt) (rows pvt)))]).
Proof.
  intros Hp.
  destruct (build_pivot_cases _ _ _ _ _ _ _ Hp) as (pvt & Hb & Hcase).
  exists pvt. split; [exact Hb|].
  pose proof (pivot_body_index _ _ _ _ _ _ Hb) as Hi.
  split.
  - intros H2 ->. cbv zeta.
    destruct index_cols as [|i [|i' [|]]]; try discriminate H2.
    destruct Hi as [Hn Hm]. cbn [List.length Nat.leb] in Hm.
    assert (Hl : nlevels pvt = 2%nat) by (unfold nlevels; now rewrite Hn).
    rewrite Hm, Hl in Hcase. cbn [Nat.leb andb is_nil] in Hcase.
    assert (Hne : rows pvt <> []).
    { apply (subtotal_branch_levels pvt p); [|exact Hcase].
      now rewrite Hm, Hl. }
    rewrite (add_subtotals_two_levels pvt Hm Hl Hne) in Hcase.
    injection Hcase as <-. cbn [rows]. split; [reflexivity|].
    intros Hno. split; [now apply non_subtotal_rows|].
    rewrite (non_subtotal_rows pvt Hno). apply frame_sum_groups.
  - intros Hother.
    assert (Hc : index_multi pvt && Nat.leb 2 (nlevels pvt) && is_nil columns_cols = false).
    { destruct Hother as [Hle|Hne].
      - destruct index_cols as [|i [|i' idx]].
        + destruct Hi as [_ ->]. reflexivity.
        + destruct Hi as [_ ->]. reflexivity.
        + simpl in Hle. lia.
      - destruct columns_cols; [congruence|]. apply andb_false_r. }
    rewrite Hc in Hcase. exact Hcase.
Qed.

Lemma subtotals_and_total_witness :
  exists p pvt,
    build_pivot campaign_table ["Canal"; "Format"] [] ["Impressions"] Mean
    = Returned (Some p, "")
    /\ pivot_body campaign_table ["Canal"; "Format"] [] ["Impressions"] Mean
       = Returned pvt
    /\ rows p
       = with_subtotals "Sous-total" pvt
         ++ [([LStr "Total"; LStr ""],
              some_cells
                (frame_sum (ncols pvt)
                   (filter (fun r => negb (is_subtotal_key (fst r)))
                           (with_subtotals "Sous-total" pvt))))]
    /\ same_numbers
         (frame_sum (ncols pvt)
            (filter (fun r => negb (is_subtotal_key (fst r)))
                    (with_subtotals "Sous-total" pvt)))
         (frame_sum (ncols pvt) (rows pvt)).
Proof.
  destruct (build_pivot campaign_table ["Canal"; "Format"] [] ["Impressions"] Mean)
    as [e|[[p|] msg]] eqn:E; try (vm_compute in E; discriminate).
  destruct (subtotals_and_total _ _ _ _ _ _ _ E) as (pvt & Hb & H2 & _).
  specialize (H2 eq_refl eq_refl). cbv zeta in H2. destruct H2 as [Hrows Hfree].
  assert (Hno : no_reserved_label pvt).
  { pose proof Hb as Hb'. vm_compute in Hb'. injection Hb' as <-.
    intros r Hr. cbn [rows] in Hr.
    repeat (destruct Hr as [<-|Hr]; [reflexivity|]). destruct Hr. }
  exists p, pvt. split.
  - f_equal. f_equal. vm_compute in E. now injection E.
  - split; [exact Hb|]. split; [exact Hrows|]. exact (proj2 (Hfree Hno)).
Defined.

End SubtotalProps.

(** ** The smallest and the greatest of a list of numbers *)

Module ExtremaFacts.
Import Text PandasText Pandas Payload AnalysisFacts.
Local Open Scope list_scope.

Lemma min_fold_le (rest : list Q) (x : Q) :
  let m := fold_left (fun m y => if Q_ltb y m then y else m) rest x in
  (m <= x)%Q /\ (forall y, In y rest -> (m <= y)%Q).
Proof.
  revert x. induction rest as [|y rest IH]; intros x; cbn [fold_left].
  - split; [apply Qle_refl|intros y []].
  - destruct (IH (if Q_ltb y x then y else x)) as [H1 H2].
    cbv zeta in *. destruct (Q_ltb y x) eqn:E.
    + apply Q_ltb_lt in E. split.
      * eapply Qle_trans; [exact H1|now apply Qlt_le_weak].
      * intros z [<-|Hz]; [exact H1|now apply H2].
    + apply Q_ltb_false in E. split; [exact H1|].
      intros z [<-|Hz]; [now apply Qle_trans with x|now apply H2].
Qed.

Lemma max_fold_ge (rest : list Q) (x : Q) :
  let m := fold_left (fun m y => if Q_ltb m y then y else m) rest x in
  (x <= m)%Q /\ (forall y, In y rest -> (y <= m)%Q).
Proof.
  revert x. induction rest as [|y rest IH]; intros x; cbn [fold_left].
  - split; [apply Qle_refl|intros y []].
  - destruct (IH (if Q_ltb x y then y else x)) as [H1 H2].
    cbv zeta in *. destruct (Q_ltb x y) eqn:E.
    + apply Q_ltb_lt in E. split.
      * eapply Qle_trans; [now apply Qlt_le_weak; exact E|exact H1].
      * intros z [<-|Hz]; [exact H1|now apply H2].
    + apply Q_ltb_false in E. split; [exact H1|].
      intros z [<-|Hz]; [now apply Qle_trans with x|now apply H2].
Qed.

(** The smallest and the greatest value bound every value. *)
Lemma min_max_bounds (vals : list Q) (v : Q) :
  In v vals ->
  (or_zero (Qmin_list vals) <= v)%Q /\ (v <= or_zero (Qmax_list vals))%Q.
Proof.
  destruct vals as [|x rest]; [intros []|]. cbn [Qmin_list Qmax_list or_zero].
  destruct (min_fold_le rest x) as [m1 m2], (max_fold_ge rest x) as [M1 M2].
  intros [<-|Hv]; split; auto.
Qed.





End ExtremaFacts.

(** ** The payload serializer *)

Module PayloadProps.
Import Text PandasText Pandas Payload PayloadSpec AnalysisFacts ExtremaFacts.
Local Open Scope list_scope.

Lemma head_prefix {A : Type} (max_rows : Z) (l : list A) :
  0 <= max_rows ->
  (if Z.of_nat (List.length l) >? max_rows then head max_rows l else l)
  = firstn (Z.to_nat max_rows) l.
Proof.
  intros H. destruct (Z.gtb_spec (Z.of_nat (List.length l)) max_rows) as [Hgt|Hle].
  - unfold head. destruct (Z.leb_spec 0 max_rows); [reflexivity|lia].
  - symmetry. apply firstn_all2. lia.
Qed.









End PayloadProps.

(** ** From the pivot to the analysis *)

Module PipelineFacts.
Import Text PandasText Pandas Pivoting Payload Insights PayloadSpec AnalysisSpec
       PipelineSpec PivotSpec ValidationSpec PivotFacts PivotProps PayloadProps
       AnalysisFacts.
Local Open Scope list_scope.

(** The rows of the payload are the first [max_rows] rows of the pivot. *)
Lemma payload_rows (number_str : dec -> string) (pvt : frame) (max_rows : Z)
      (pay : payload) :
  pivot_to_payload number_str pvt max_rows = Returned pay -> 0 <= max_rows ->
  p_rows pay
  = firstn (Z.to_nat max_rows) (map (record_of number_str pvt) (rows pvt)).
Proof.
  unfold pivot_to_payload. intros H Hmax.
  destruct (existsb _ _); [discriminate|]. injection H as <-.
  cbn [p_rows]. rewrite head_prefix by exact Hmax.
  rewrite <- firstn_map, map_map. reflexivity.
Qed.

(** The pivot that [build_pivot] returns has an index of at least one level
    and ends with the Total row. *)
Lemma build_pivot_ends_with_total
      (df : table) (index_cols columns_cols value_cols : list string)
      (agg_choice : aggregator) (p : frame) (msg : string) :
  build_pivot df index_cols columns_cols value_cols agg_choice = Returned (Some p, msg) ->
  (1 <= nlevels p)%nat
  /\ exists front total_key cells,
      rows p = front ++ [(total_key, cells)]
      /\ nth_error total_key 0 = Some (LStr "Total").
Proof.
  unfold build_pivot.
  destruct (is_nil index_cols && is_nil columns_cols); [discriminate|].
  destruct (is_nil value_cols); [discriminate|].
  intros H. apply bind_returned in H as (pvt & Hb & H).
  assert (Hlev : (1 <= nlevels pvt)%nat).
  { pose proof (pivot_body_index _ _ _ _ _ _ Hb) as Hi. unfold nlevels.
    destruct index_cols; destruct Hi as [-> _]; simpl; lia. }
  destruct (index_multi pvt && Nat.leb 2 (nlevels pvt) && is_nil columns_cols) eqn:Hc.
  - apply bind_returned in H as (out & Hout & H). injection H as <- _.
    apply andb_true_iff in Hc as [Hc _].
    destruct (subtotal_branch_levels pvt out Hc Hout) as (Hm & H2 & Hne).
    rewrite (add_subtotals_two_levels pvt Hm H2 Hne) in Hout.
    injection Hout as <-. split; [exact Hlev|].
    eexists _, _, _. split; reflexivity.
  - injection H as <- _. split; [exact Hlev|].
    eexists _, _, _. split; reflexivity.
Qed.

(** The payload row of the Total row starts with the text Total. *)
Lemma total_record_first (number_str : dec -> string) (p : frame)
      (total_key : key) (cells : list (option Q)) :
  (1 <= nlevels p)%nat -> nth_error total_key 0 = Some (LStr "Total") ->
  first_value (record_of number_str p (total_key, cells)) = Some (PStr "Total").
Proof.
  unfold first_value, record_of, level_names, reset_row, nlevels.
  destruct (index_names p) as [|n ns]; simpl; [lia|].
  intros _ ->. reflexivity.
Qed.

Lemma nansum_app (a b : list (option Q)) :
  (nansum (a ++ b) == nansum a + nansum b)%Q.
Proof.
  induction a as [|[x|] a IH]; simpl; [ring|rewrite IH; ring|exact IH].
Qed.

(** A row whose key is greater than every other key is sorted first. *)
Lemma sorted_desc_greatest (key : record -> rank_key) (front : list record)
      (t : record) :
  (forall r, In r front -> key_lt (key r) (key t) = true) ->
  sorted_desc key (front ++ [t]) = t :: sorted_desc key front.
Proof.
  unfold sorted_desc. induction front as [|x front IH]; intros H; [reflexivity|].
  cbn [app sort]. rewrite IH by (intros r Hr; apply H; now right).
  cbn [insert_sorted]. now rewrite (H x (or_introl eq_refl)).
Qed.

(** The sums and the dispersion that [_analyze_payload] returns. *)
Lemma analyze_series (p : payload) (a : analysis) :
  _analyze_payload p = Returned a ->
  let rs := p_rows p in
  let m := inferred_metrics a in
  (forall s, impressions_sum (weighted_ratios a) = Some s ->
             exists i, m_impressions m = Some i /\ s = column_sum rs i)
  /\ (forall s, clicks_sum (weighted_ratios a) = Some s ->
                exists k, m_clicks m = Some k /\ s = column_sum rs k)
  /\ dispersion_on_primary a
     = disperse (if truthy (m_primary m) then col_series rs (m_primary m) else None).
Proof.
  unfold _analyze_payload. cbv zeta.
  destruct (weigh_ctr _ _) as [[ctr csum] isum] eqn:Ew.
  destruct (weigh_cpc _ _) as [cpc ssum].
  destruct (build_ranked _ _ 5) as [rk|]; [|discriminate].
  intros H. injection H as <-.
  cbn [weighted_ratios impressions_sum clicks_sum inferred_metrics
       dispersion_on_primary].
  unfold weigh_ctr, col_series in Ew.
  destruct (m_impressions (_infer_metrics_from_payload p)) as [i|],
           (m_clicks (_infer_metrics_from_payload p)) as [k|];
    try (injection Ew as <- <- <-; repeat split; intros; discriminate).
  destruct (any_notna _); injection Ew as <- <- <-.
  - split; [|split]; [intros s [= <-]; eauto ..|reflexivity].
  - repeat split; intros; discriminate.
Qed.

(** Where the statement about the Total row holds, the last row of the
    payload is not found to be another row. *)
Lemma stated_total_is_last
      (number_str : dec -> string)
      (df : table) (index_cols columns_cols value_cols : list string)
      (agg_choice : aggregator) :
  payload_keeps_total_as_stated number_str df index_cols columns_cols value_cols
                                agg_choice ->
  last_row_is_total number_str df index_cols columns_cols value_cols agg_choice
  <> Some false.
Proof.
  intros H. unfold last_row_is_total.
  destruct (build_pivot df index_cols columns_cols value_cols agg_choice)
    as [e|[[pvt|] msg]] eqn:E; try discriminate.
  destruct (pivot_to_payload number_str pvt default_max_rows) as [e|pay] eqn:P;
    [discriminate|].
  rewrite (H pvt msg pay E P). discriminate.
Qed.

End PipelineFacts.

Module PipelineProps.
Import Text PandasText Pandas Pivoting Payload Insights PayloadSpec AnalysisSpec
       PipelineSpec PivotSpec ValidationSpec AnalysisFacts PipelineFacts.
Local Open Scope list_scope.

(** C10, as stated, fails when the pivot has more rows than the payload
    keeps: of the 1001 rows of the pivot of 1000 identifiers, the payload
    has the first 1000, and its last row is the identifier 1000, not the
    Total row. *)
Lemma payload_drops_total_of_long_pivot :
  ~ payload_keeps_total_as_stated sample_number_str long_table ["Id"] [] ["Clicks"] Sum.
Proof.
  intros H. apply (stated_total_is_last _ _ _ _ _ _ H).
  vm_compute. reflexivity.
Qed.

(** C10, amended. When the pivot that [build_pivot] returns has no more
    rows than [max_rows], every row of it, the Subtotal rows and the Total
    row alike, is a row of the payload, the Total row last; the analysis
    treats them like any other row: the sums of the weighted ratios and the
    dispersion are taken over all the rows, so a sum is the sum over the
    other rows plus the value of the Total row, and the Total row is ranked
    first whenever its value for the primary metric exceeds the value of
    every other row. *)
Theorem total_row_in_analysis
        (number_str : dec -> string)
        (df : table) (index_cols columns_cols value_cols : list string)
        (agg_choice : aggregator) (pvt : frame) (msg : string)
        (max_rows : Z) (pay : payload) :
  build_pivot df index_cols columns_cols value_cols agg_choice
  = Returned (Some pvt, msg) ->
  pivot_to_payload number_str pvt max_rows = Returned pay ->
  Z.of_nat (List.length (rows pvt)) <= max_rows ->
  exists front total_rec,
    p_rows pay = map (record_of number_str pvt) (rows pvt)
    /\ p_rows pay = front ++ [total_rec]
    /\ first_value total_rec = Some (PStr "Total")
    /\ (forall name,
           (column_sum (p_rows pay) name
            == column_sum front name + or_zero (row_number total_rec name))%Q)
    /\ (forall a,
           _analyze_payload pay = Returned a ->
           (forall s, impressions_sum (weighted_ratios a) = Some s ->
                      exists i, m_impressions (inferred_metrics a) = Some i
                                /\ s = column_sum (p_rows pay) i)
           /\ (forall s, clicks_sum (weighted_ratios a) = Some s ->
                         exists k, m_clicks (inferred_metrics a) = Some k
                                   /\ s = column_sum (p_rows pay) k)
           /\ dispersion_on_primary a
              = disperse (if truthy (m_primary (inferred_metrics a))
                          then col_series (p_rows pay) (m_primary (inferred_metrics a))
                          else None)
           /\ (forall prim,
                  m_primary (inferred_metrics a) = Some prim ->
                  (forall r, In r front ->
                             key_lt (getv prim r) (getv prim total_rec) = true) ->
                  hd_error (top (ranking_on_primary a)) = Some total_rec)).
Proof.
  intros Hb Hp Hlen.
  destruct (build_pivot_ends_with_total _ _ _ _ _ _ _ Hb)
    as (Hlev & body & tk & cells & Hrows & Htk).
  assert (Hall : p_rows pay = map (record_of number_str pvt) (rows pvt)).
  { rewrite (payload_rows number_str pvt max_rows pay Hp) by lia.
    apply firstn_all2. rewrite length_map. lia. }
  exists (map (record_of number_str pvt) body), (record_of number_str pvt (tk, cells)).
  assert (Hsplit : p_rows pay
                   = map (record_of number_str pvt) body ++ [record_of number_str pvt (tk, cells)]).
  { rewrite Hall, Hrows, map_app. reflexivity. }
  split; [exact Hall|]. split; [exact Hsplit|].
  split; [now apply total_record_first|]. split.
  - intros name. rewrite Hsplit. unfold column_sum.
    rewrite map_app, nansum_app. cbn [map nansum].
    destruct (row_number (record_of number_str pvt (tk, cells)) name); simpl; ring.
  - intros a Ha.
    destruct (analyze_series pay a Ha) as (Hi & Hk & Hd).
    split; [exact Hi|]. split; [exact Hk|]. split; [exact Hd|].
    intros prim Hprim Hgt.
    destruct (analyze_returned pay a Ha) as (Hm & _ & _ & Hr).
    rewrite <- Hm, Hprim in Hr. cbn [build_ranked] in Hr.
    injection Hr as <-. cbn [top].
    rewrite Hsplit, (sorted_desc_greatest _ _ _ Hgt). reflexivity.
Qed.

Lemma total_row_in_analysis_witness :
  exists pvt pay total_rec a,
    build_pivot sample_table ["Canal"] [] ["Clicks"] Sum = Returned (Some pvt, "")
    /\ pivot_to_payload sample_number_str pvt default_max_rows = Returned pay
    /\ last (p_rows pay) [] = total_rec
    /\ first_value total_rec = Some (PStr "Total")
    /\ _analyze_payload pay = Returned a
    /\ hd_error (top (ranking_on_primary a)) = Some total_rec.
Proof.
  destruct (build_pivot sample_table ["Canal"] [] ["Clicks"] Sum)
    as [e|[[pvt|] msg]] eqn:E; try (vm_compute in E; discriminate).
  destruct (pivot_to_payload sample_number_str pvt default_max_rows) as [e|pay] eqn:P;
    [vm_compute in E; injection E as <- _; vm_compute in P; discriminate P|].
  destruct (_analyze_payload pay) as [e|a] eqn:A;
    [vm_compute in E; injection E as <- _; vm_compute in P; injection P as <-;
     vm_compute in A; discriminate A|].
  assert (Hlen : Z.of_nat (List.length (rows pvt)) <= default_max_rows).
  { pose proof E as E'. vm_compute in E'. injection E' as <- _.
    vm_compute. discriminate. }
  destruct (total_row_in_analysis _ _ _ _ _ _ _ _ _ _ E P Hlen)
    as (front & total_rec & Hall & Hsplit & Hfirst & _ & Hana).
  destruct (Hana a A) as (_ & _ & _ & Hrank).
  exists pvt, pay, total_rec, a.
  assert (Hmsg : msg = "").
  { pose proof E as E'. vm_compute in E'. now injection E'. }
  subst msg. split; [reflexivity|]. split; [exact P|].
  split; [rewrite Hsplit; apply last_last|].
  split; [exact Hfirst|]. split; [exact A|].
  apply (Hrank "Clicks").
  - pose proof E as E'. vm_compute in E'. injection E' as <-.
    pose proof P as P'. vm_compute in P'. injection P' as <-.
    pose proof A as A'. vm_compute in A'. injection A' as <-. reflexivity.
  - pose proof E as E'. vm_compute in E'. injection E' as <-.
    pose proof P as P'. vm_compute in P'. injection P' as <-.
    cbn [p_rows] in Hsplit.
    assert (Hs : [[("Canal", PStr "A"); ("Clicks", PNum 1010)];
                  [("Canal", PStr "B"); ("Clicks", PNum 5)]]
                 ++ [[("Canal", PStr "Total"); ("Clicks", PNum 1015)]]
                 = front ++ [total_rec]) by exact Hsplit.
    apply app_inj_tail in Hs as [<- <-].
    intros r [<-|[<-|[]]]; reflexivity.
Defined.

End PipelineProps.

(** ** The pivot builder: missing values *)

Module MissingFacts.
Import Text PandasText Formatters Pandas Pivoting PivotSpec MissingSpec
       ValidationSpec PivotFacts PivotProps.
Local Open Scope list_scope.

Lemma present_notna (cs : list cell) : present (filter notna cs) = present cs.
Proof.
  induction cs as [|c cs IH]; [reflexivity|].
  destruct c; simpl; now rewrite ?IH.
Qed.

Lemma filter_idem {A : Type} (f : A -> bool) (l : list A) :
  filter f (filter f l) = filter f l.
Proof.
  induction l as [|x l IH]; [reflexivity|]. simpl.
  destruct (f x) eqn:E; simpl; now rewrite ?E, IH.
Qed.

Lemma filled_fillna (c : option Q) : fillna 0 c = filled c.
Proof. now destruct c. Qed.

Lemma existsb_fillna (cells : list (option Q)) :
  existsb is_some cells = true ->
  existsb is_some (map (fillna 0) cells) = true.
Proof.
  intros H. apply existsb_exists in H as (c & Hin & Hc).
  apply existsb_exists. exists (fillna 0 c). split; [now apply in_map|].
  now destruct c.
Qed.

(** Filling the cells of rows that have a value leaves nothing to drop. *)
Lemma dropna_filled (rs : list (key * list (option Q))) :
  dropna_all (map (fun r => (fst r, map (fillna 0) (snd r))) (dropna_all rs))
  = map (fun r => (fst r, map (fillna 0) (snd r))) (dropna_all rs).
Proof.
  unfold dropna_all. induction rs as [|r rs IH]; [reflexivity|].
  simpl. destruct (existsb is_some (snd r)) eqn:E; [|exact IH].
  simpl. rewrite (existsb_fillna _ E). now rewrite IH.
Qed.

(** Without a column group, the pivot body is the groups that have a
    value, their missing cells filled. *)
Lemma pivot_body_rows (df : table) (index_cols value_cols : list string)
      (agg_choice : aggregator) (pvt : frame) :
  pivot_body df index_cols [] value_cols agg_choice = Returned pvt ->
  rows pvt
  = map (fun r => (fst r, map (fillna 0) (snd r)))
        (dropna_all (group_cells df index_cols [] value_cols agg_choice)).
Proof.
  unfold pivot_body, group_cells. intros H.
  apply bind_returned in H as (df_vals & Hc & H). rewrite Hc.
  apply bind_returned in H as (p0 & Hp & H). injection H as <-. cbn [rows].
  unfold pivot_table in Hp.
  destruct (negb (forallb _ value_cols)); [discriminate|].
  destruct (negb (forallb _ (index_cols ++ []))); [discriminate|].
  destruct (existsb _ value_cols); [discriminate|].
  destruct index_cols as [|i idx]; [discriminate|].
  injection Hp as <-. cbn [rows]. unfold agged. apply dropna_filled.
Qed.

(** No cell of the pivot body is missing. *)
Lemma pivot_body_filled (df : table) (index_cols columns_cols value_cols : list string)
      (agg_choice : aggregator) (pvt : frame) :
  pivot_body df index_cols columns_cols value_cols agg_choice = Returned pvt ->
  forall r c, In r (rows pvt) -> In c (snd r) -> is_some c = true.
Proof.
  unfold pivot_body. intros H.
  apply bind_returned in H as (df_vals & _ & H).
  apply bind_returned in H as (p0 & Hp & H). injection H as <-. cbn [rows].
  intros r c Hr Hc. apply filter_In in Hr as [Hr _].
  unfold pivot_table in Hp.
  destruct (negb (forallb _ value_cols)); [discriminate|].
  destruct (negb (forallb _ (index_cols ++ columns_cols))); [discriminate|].
  destruct (existsb _ value_cols); [discriminate|].
  destruct index_cols as [|i idx], columns_cols as [|cc cols];
    try discriminate; injection Hp as <-; cbn [rows] in Hr.
  - apply in_map_iff in Hr as ([j m] & <- & _). cbn [snd] in Hc.
    apply in_map_iff in Hc as (g & <- & _). now destruct (nth _ (snd g) None).
  - apply in_map_iff in Hr as (r0 & <- & _). cbn [snd] in Hc.
    apply in_map_iff in Hc as (c0 & <- & _). now destruct c0.
  - apply in_map_iff in Hr as (rk & <- & _). cbn [snd] in Hc.
    apply in_flat_map in Hc as (j & _ & Hc).
    apply in_map_iff in Hc as (ck & <- & _).
    now destruct (find _ _) as [r0|]; [destruct (nth j (snd r0) None)|].
Qed.

Lemma some_cells_filled (vals : list Q) (c : option Q) :
  In c (some_cells vals) -> is_some c = true.
Proof. intros H. apply in_map_iff in H as (q & <- & _). reflexivity. Qed.

(** Sorting and taking the distinct elements leave something of a list
    that has an element. *)
Lemma insert_sorted_cons {A : Type} (leb : A -> A -> bool) (x : A) (l : list A) :
  insert_sorted leb x l <> [].
Proof. destruct l as [|y l]; simpl; [|destruct (leb x y)]; discriminate. Qed.

Lemma insert_sorted_length {A : Type} (leb : A -> A -> bool) (x : A) (l : list A) :
  List.length (insert_sorted leb x l) = S (List.length l).
Proof.
  induction l as [|y l IH]; [reflexivity|]. simpl.
  destruct (leb x y); simpl; now rewrite ?IH.
Qed.

Lemma sorted_length {A : Type} (leb : A -> A -> bool) (l : list A) :
  List.length (sort leb l) = List.length l.
Proof.
  induction l as [|x l IH]; [reflexivity|]. simpl.
  now rewrite insert_sorted_length, IH.
Qed.

Lemma dropna_all_keeps (rs : list (key * list (option Q))) :
  (forall r, In r rs -> existsb is_some (snd r) = true) -> dropna_all rs = rs.
Proof.
  unfold dropna_all. induction rs as [|r rs IH]; intros H; [reflexivity|].
  simpl. rewrite (H r (or_introl eq_refl)). f_equal.
  apply IH. intros r0 Hr0. apply H. now right.
Qed.

(** A group that has a value has a metric. *)
Lemma agged_metric (t : table) (keys values : list string) (a : aggregator)
      (g : key * list (option Q)) :
  In g (agged t keys values a) -> values <> [].
Proof.
  unfold agged, dropna_all, grouped_cells. intros H.
  apply filter_In in H as [H Hv].
  apply in_map_iff in H as (g0 & <- & _). cbn [snd] in Hv.
  unfold agg_group in Hv. intros ->. discriminate Hv.
Qed.

(** The rows of a cross-tabulation all have a value once the cells are
    filled. *)
Lemma crossed_row_valued (ag : list (key * list (option Q))) (ni n : nat)
      (cell : nat -> key -> option Q) :
  (forall j ck, is_some (cell j ck) = true) -> ag <> [] -> n <> O ->
  existsb is_some
          (flat_map (fun j => map (cell j)
                                  (sort key_leb
                                        (unique key_eqb
                                                (map (fun r => skipn ni (fst r)) ag))))
                    (seq 0 n)) = true.
Proof.
  intros Hc Hag Hn. destruct n as [|n]; [congruence|].
  destruct ag as [|g ag]; [congruence|].
  cbn [seq flat_map map]. unfold unique. cbn [unique_acc existsb sort].
  match goal with
  | |- context [insert_sorted key_leb ?x ?l] =>
      pose proof (insert_sorted_cons key_leb x l) as E;
      destruct (insert_sorted key_leb x l) as [|ck cks]
  end; [congruence|].
  cbn [map app existsb]. now rewrite Hc.
Qed.

(** With a row group and a column group, the pivot body is the
    cross-tabulation of the groups that have a value. *)
Lemma crossed_body (df : table) (index_cols columns_cols value_cols : list string)
      (agg_choice : aggregator) (pvt : frame) :
  index_cols <> [] -> columns_cols <> [] ->
  pivot_body df index_cols columns_cols value_cols agg_choice = Returned pvt ->
  let groups := valued_groups df index_cols columns_cols value_cols agg_choice in
  let ni := List.length index_cols in
  let colkeys := sort key_leb (unique key_eqb (map (column_part ni) groups)) in
  columns pvt
  = flat_map (fun m => map (fun ck => LStr m :: ck) colkeys)
             (sort String.leb value_cols)
  /\ rows pvt
     = map (fun rk =>
              (rk, flat_map (fun j => map (fun ck => crossed_cell groups rk ck j) colkeys)
                            (seq 0 (List.length value_cols))))
           (unique key_eqb (map (row_part ni) groups)).
Proof.
  intros Hi Hc H. unfold valued_groups, group_cells.
  unfold pivot_body in H.
  apply bind_returned in H as (df_vals & Hcv & H). rewrite Hcv.
  apply bind_returned in H as (p0 & Hp & H). injection H as <-.
  cbn [rows columns]. unfold pivot_table in Hp.
  destruct (negb (forallb _ value_cols)); [discriminate|].
  destruct (negb (forallb _ (index_cols ++ columns_cols))); [discriminate|].
  destruct (existsb _ value_cols); [discriminate|].
  change (filter (fun g => existsb is_some (snd g))
                 (grouped_cells df_vals (index_cols ++ columns_cols)
                                (sort String.leb value_cols) agg_choice))
    with (agged df_vals (index_cols ++ columns_cols) (sort String.leb value_cols)
                agg_choice).
  remember (agged df_vals (index_cols ++ columns_cols) (sort String.leb value_cols)
                  agg_choice) as ag eqn:Eag0.
  remember (List.length index_cols) as ni eqn:Eni.
  destruct index_cols as [|i idx]; [congruence|].
  destruct columns_cols as [|cc cols]; [congruence|].
  injection Hp as <-. cbn [rows columns]. cbv zeta.
  unfold row_part, column_part.
  split; [reflexivity|].
  rewrite sorted_length.
  rewrite dropna_all_keeps.
  - apply map_ext. intros rk. f_equal. apply flat_map_ext. intros j.
    apply map_ext. intros ck. unfold crossed_cell.
    now destruct (find _ ag) as [g|]; [destruct (nth j (snd g) None)|].
  - intros r Hr. apply in_map_iff in Hr as (rk & <- & Hrk). cbn [snd].
    assert (Hag : ag <> []).
    { intros E. rewrite E in Hrk. exact Hrk. }
    apply (crossed_row_valued ag); [|exact Hag|].
    + intros j ck. now destruct (find _ ag) as [g|]; [destruct (nth j (snd g) None)|].
    + assert (Hm : forall g, In g ag -> sort String.leb value_cols <> [])
        by (intros g; rewrite Eag0; apply agged_metric).
      destruct ag as [|g ag']; [congruence|].
      specialize (Hm g (or_introl eq_refl)).
      rewrite <- (sorted_length String.leb).
      destruct (sort String.leb value_cols); [congruence|discriminate].
Qed.

(** Without a row group, the pivot body has one row per metric and one
    column per group that has a value; it has no row when no group has a
    value. *)
Lemma transposed_body (df : table) (columns_cols value_cols : list string)
      (agg_choice : aggregator) (pvt : frame) :
  columns_cols <> [] ->
  pivot_body df [] columns_cols value_cols agg_choice = Returned pvt ->
  let groups := valued_groups df [] columns_cols value_cols agg_choice in
  columns pvt = map fst groups
  /\ rows pvt
     = match groups with
       | [] => []
       | _ :: _ =>
           map (fun jm => ([LStr (snd jm)],
                           map (fun g => filled (nth (fst jm) (snd g) None)) groups))
               (combine (seq 0 (List.length value_cols)) (sort String.leb value_cols))
       end.
Proof.
  intros Hc H. unfold valued_groups, group_cells.
  unfold pivot_body in H.
  apply bind_returned in H as (df_vals & Hcv & H). rewrite Hcv.
  apply bind_returned in H as (p0 & Hp & H). injection H as <-.
  cbn [rows columns]. unfold pivot_table in Hp.
  destruct (negb (forallb _ value_cols)); [discriminate|].
  destruct (negb (forallb _ ([] ++ columns_cols))); [discriminate|].
  destruct (existsb _ value_cols); [discriminate|].
  destruct columns_cols as [|cc cols]; [congruence|].
  injection Hp as <-. cbn [rows columns app].
  change (filter (fun g => existsb is_some (snd g))
                 (grouped_cells df_vals (cc :: cols)
                                (sort String.leb value_cols) agg_choice))
    with (agged df_vals (cc :: cols) (sort String.leb value_cols) agg_choice).
  set (ag := agged _ _ _ _).
  split; [reflexivity|].
  rewrite sorted_length.
  destruct ag as [|g ag'] eqn:Eag.
  - unfold dropna_all. clear. induction (combine _ _) as [|jm l IH]; [reflexivity|exact IH].
  - rewrite dropna_all_keeps.
    + apply map_ext. intros jm. f_equal. apply map_ext. intros g0.
      apply filled_fillna.
    + intros r Hr. apply in_map_iff in Hr as (jm & <- & _). cbn [snd map existsb].
      now destruct (nth (fst jm) (snd g) None).
Qed.

End MissingFacts.

Module MissingProps.
Import Text PandasText Formatters Pandas Pivoting PivotSpec MissingSpec
       ValidationSpec PivotFacts PivotProps MissingFacts.
Local Open Scope list_scope.

(** C3. Missing values are left out of the aggregation of a group (the
    mean of 1, missing, 3 is 2, not 4/3); no cell of the returned pivot is
    missing.  Without a column group, the rows of the pivot body are the
    groups that have a value for at least one metric, each cell without an
    aggregable value holding 0: a group whose cells are all missing is
    dropped.  With a row group and a column group, the pivot body has one
    row per row-group combination of the groups that have a value, in order
    and once, and one column per metric and column-group combination of
    those groups; each cell holds the aggregated value of its group, and 0
    when the group has no value for the metric or when no group with a
    value has that combination: a row-group combination whose groups all
    lack a value has no row.  With a column group alone, the body has one
    row per metric and one column per group that has a value, a missing
    cell holding 0, and no row at all when no group has a value. *)
Theorem missing_values_policy :
  (forall a cs, aggregate a cs = aggregate a (filter notna cs))
  /\ (exists m, aggregate Mean [CNum (mkdec 1 0); CNaN; CNum (mkdec 3 0)] = Some m
                /\ (m == 2)%Q /\ ~ (m == 4 # 3)%Q)
  /\ (forall df index_cols columns_cols value_cols agg_choice p msg,
         build_pivot df index_cols columns_cols value_cols agg_choice
         = Returned (Some p, msg) ->
         forall r c, In r (rows p) -> In c (snd r) -> c <> None)
  /\ (forall df index_cols value_cols agg_choice pvt,
         pivot_body df index_cols [] value_cols agg_choice = Returned pvt ->
         forall k cells,
           In (k, cells) (rows pvt)
           <-> exists raw,
               In (k, raw) (group_cells df index_cols [] value_cols agg_choice)
               /\ existsb is_some raw = true
               /\ cells = map filled raw)
  /\ (forall df index_cols columns_cols value_cols agg_choice pvt,
         index_cols <> [] -> columns_cols <> [] ->
         pivot_body df index_cols columns_cols value_cols agg_choice = Returned pvt ->
         let groups := valued_groups df index_cols columns_cols value_cols agg_choice in
         let ni := List.length index_cols in
         let colkeys := sort key_leb (unique key_eqb (map (column_part ni) groups)) in
         columns pvt
         = flat_map (fun m => map (fun ck => LStr m :: ck) colkeys)
                    (sort String.leb value_cols)
         /\ rows pvt
            = map (fun rk =>
                     (rk, flat_map
                            (fun j => map (fun ck => crossed_cell groups rk ck j) colkeys)
                            (seq 0 (List.length value_cols))))
                  (unique key_eqb (map (row_part ni) groups)))
  /\ (forall df columns_cols value_cols agg_choice pvt,
         columns_cols <> [] ->
         pivot_body df [] columns_cols value_cols agg_choice = Returned pvt ->
         let groups := valued_groups df [] columns_cols value_cols agg_choice in
         columns pvt = map fst groups
         /\ rows pvt
            = match groups with
              | [] => []
              | _ :: _ =>
                  map (fun jm =>
                         ([LStr (snd jm)],
                          map (fun g => filled (nth (fst jm) (snd g) None)) groups))
                      (combine (seq 0 (List.length value_cols))
                               (sort String.leb value_cols))
              end).
Proof.
  split; [|split; [|split; [|split; [|split]]]].
  - intros a cs. destruct a; simpl; rewrite ?present_notna, ?filter_idem;
      reflexivity.
  - eexists. split; [reflexivity|]. split; [reflexivity|].
    intros H. vm_compute in H. discriminate H.
  - intros df index_cols columns_cols value_cols agg_choice p msg Hp r c Hr Hc E.
    subst c.
    destruct (build_pivot_cases _ _ _ _ _ _ _ Hp) as (pvt & Hb & Hcase).
    pose proof (pivot_body_filled _ _ _ _ _ _ Hb) as Hbody.
    assert (Hnone : is_some (@None Q) = true -> False) by discriminate.
    apply Hnone. clear Hnone.
    destruct (index_multi pvt && Nat.leb 2 (nlevels pvt) && is_nil columns_cols) eqn:Hcnd.
    + apply andb_true_iff in Hcnd as [Hcnd _].
      destruct (subtotal_branch_levels pvt p Hcnd Hcase) as (Hm & H2 & Hne).
      rewrite (add_subtotals_two_levels pvt Hm H2 Hne) in Hcase.
      injection Hcase as <-. cbn [rows] in Hr.
      apply in_app_or in Hr as [Hr|[<-|[]]].
      * unfold with_subtotals in Hr. apply in_flat_map in Hr as (g & _ & Hr).
        apply in_app_or in Hr as [Hr|[<-|[]]].
        -- apply filter_In in Hr as [Hr _]. exact (Hbody r None Hr Hc).
        -- exact (some_cells_filled _ _ Hc).
      * exact (some_cells_filled _ _ Hc).
    + rewrite Hcase in Hr. apply in_app_or in Hr as [Hr|[<-|[]]].
      * exact (Hbody r None Hr Hc).
      * exact (some_cells_filled _ _ Hc).
  - intros df index_cols value_cols agg_choice pvt Hb k cells.
    rewrite (pivot_body_rows _ _ _ _ _ Hb). split.
    + intros H. apply in_map_iff in H as ([k0 raw] & E & H).
      injection E as <- <-. apply filter_In in H as [H Hv].
      exists raw. split; [exact H|]. split; [exact Hv|].
      apply map_ext. exact filled_fillna.
    + intros (raw & H & Hv & ->). apply in_map_iff.
      exists (k, raw). split.
      * cbn [fst snd]. f_equal. apply map_ext. exact filled_fillna.
      * apply filter_In. split; [exact H|exact Hv].
  - intros df index_cols columns_cols value_cols agg_choice pvt Hi Hc Hb.
    exact (crossed_body _ _ _ _ _ _ Hi Hc Hb).
  - intros df columns_cols value_cols agg_choice pvt Hc Hb.
    exact (transposed_body _ _ _ _ _ Hc Hb).
Qed.

(** In the pivot of the mean by channel, the channel B, without a readable
    value, has no row; the channel A has its mean.  In the pivot of the
    mean by channel and device, the channel C has no row, and the cells of
    B on the desktop and of D on the mobile hold 0.  By device alone, the
    only row is the one of the metric. *)
Lemma missing_values_policy_witness :
  (exists pvt,
      pivot_body sparse_table ["Canal"] [] ["Clicks"] Mean = Returned pvt
      /\ In ([LStr "A"], [Some (4 # 2)%Q]) (rows pvt)
      /\ ~ In [LStr "B"] (map fst (rows pvt)))
  /\ (exists pvt,
         pivot_body sparse_crossed_table ["Canal"] ["Device"] ["Clicks"] Mean
         = Returned pvt
         /\ columns pvt
            = [[LStr "Clicks"; LStr "Desktop"]; [LStr "Clicks"; LStr "Mobile"]]
         /\ rows pvt
            = [([LStr "A"], [Some 2%Q; Some (4 # 2)%Q]);
               ([LStr "B"], [Some 0%Q; Some 5%Q]);
               ([LStr "D"], [Some 4%Q; Some 0%Q])])
  /\ (exists pvt,
         pivot_body sparse_crossed_table [] ["Device"] ["Clicks"] Mean
         = Returned pvt
         /\ columns pvt = [[LStr "Desktop"]; [LStr "Mobile"]]
         /\ rows pvt = [([LStr "Clicks"], [Some (6 # 2)%Q; Some (9 # 3)%Q])]).
Proof.
  split; [|split].
  - destruct (pivot_body sparse_table ["Canal"] [] ["Clicks"] Mean)
      as [e|pvt] eqn:E; [vm_compute in E; discriminate|].
    exists pvt. split; [reflexivity|].
    pose proof (proj1 (proj2 (proj2 (proj2 missing_values_policy)))
                      sparse_table ["Canal"] ["Clicks"] Mean pvt E) as H.
    split.
    + apply H. exists [Some (4 # 2)%Q]. split; [|split; reflexivity].
      vm_compute. left. reflexivity.
    + intros Hin. apply in_map_iff in Hin as ([k cells] & Hk & Hin).
      cbn [fst] in Hk. subst k.
      apply H in Hin as (raw & Hraw & Hv & _).
      vm_compute in Hraw.
      destruct Hraw as [Hraw|[Hraw|[Hraw|[]]]]; try discriminate Hraw.
      injection Hraw as <-. discriminate Hv.
  - destruct (pivot_body sparse_crossed_table ["Canal"] ["Device"] ["Clicks"] Mean)
      as [e|pvt] eqn:E; [vm_compute in E; discriminate|].
    exists pvt. split; [reflexivity|].
    assert (Hi : ["Canal"] <> @nil string) by discriminate.
    assert (Hc : ["Device"] <> @nil string) by discriminate.
    destruct (proj1 (proj2 (proj2 (proj2 (proj2 missing_values_policy))))
                    sparse_crossed_table ["Canal"] ["Device"] ["Clicks"] Mean pvt
                    Hi Hc E) as [Hcols Hrows].
    rewrite Hcols, Hrows. split; vm_compute; reflexivity.
  - destruct (pivot_body sparse_crossed_table [] ["Device"] ["Clicks"] Mean)
      as [e|pvt] eqn:E; [vm_compute in E; discriminate|].
    exists pvt. split; [reflexivity|].
    assert (Hc : ["Device"] <> @nil string) by discriminate.
    destruct (proj2 (proj2 (proj2 (proj2 (proj2 missing_values_policy))))
                    sparse_crossed_table ["Device"] ["Clicks"] Mean pvt Hc E)
      as [Hcols Hrows].
    rewrite Hcols, Hrows. split; vm_compute; reflexivity.
Defined.

End MissingProps.

(** ** More about the pivot builder *)

Module PivotEdges.
Import Text PandasText Formatters Pandas Pivoting PivotSpec GroupingFacts
       ValidationSpec PivotFacts PivotProps.
Local Open Scope list_scope.

(** X1. With three or more row-group columns and no column group, the call
    never returns: the subtotal branch is entered on two levels or more,
    and its two-level keys do not fit a deeper index. *)
Theorem deep_row_groups_raise
        (df : table) (index_cols value_cols : list string) (agg_choice : aggregator) :
  (3 <= List.length index_cols)%nat -> value_cols <> [] ->
  exists e, build_pivot df index_cols [] value_cols agg_choice = Raised e.
Proof.
  intros H3 Hv. unfold build_pivot.
  destruct index_cols as [|i idx]; [simpl in H3; lia|].
  destruct value_cols as [|v vals]; [congruence|].
  cbn [is_nil andb].
  destruct (pivot_body df (i :: idx) [] (v :: vals) agg_choice) as [e|pvt] eqn:Hb;
    cbn [bind]; [eauto|].
  destruct (pivot_body_index _ _ _ _ _ _ Hb) as [Hn Hm].
  assert (Hl : nlevels pvt = List.length (i :: idx))
    by (unfold nlevels; now rewrite Hn, length_map).
  assert (Hm' : index_multi pvt = true).
  { rewrite Hm. apply Nat.leb_le. lia. }
  rewrite Hm'. replace (Nat.leb 2 (nlevels pvt)) with true
    by (symmetry; apply Nat.leb_le; lia).
  cbn [andb is_nil].
  rewrite add_subtotals_more_levels by (auto; lia). cbn [bind]. eauto.
Qed.

Lemma deep_row_groups_raise_witness :
  exists e,
    build_pivot campaign_table ["Canal"; "Format"; "Mois"] [] ["Clicks"] Mean
    = Raised e.
Proof.
  apply deep_row_groups_raise; [simpl; lia|discriminate].
Defined.

Lemma has_column_set (t : table) (name : string) (vals : list cell) (c : string) :
  has_column (set_column t name vals) c = has_column t c.
Proof.
  unfold has_column. induction t as [|[n old] t IH]; [reflexivity|].
  simpl. destruct (String.eqb_spec n name) as [->|Hne]; simpl.
  - now destruct (String.eqb name c).
  - destruct (String.eqb n c); [reflexivity|exact IH].
Qed.

(** Coercing the metric columns raises [KeyError] or keeps the columns of
    the table. *)
Lemma coerce_values_columns (df : table) (value_cols : list string)
      (agg_choice : aggregator) :
  match coerce_values df value_cols agg_choice with
  | Raised e => e = "KeyError"
  | Returned df_vals => forall c, has_column df_vals c = has_column df c
  end.
Proof.
  revert df. induction value_cols as [|v vals IH]; intros df;
    [intros c; reflexivity|].
  cbn [coerce_values]. destruct (arithmetic agg_choice).
  - destruct (get_column df v) as [cells|]; [|reflexivity].
    specialize (IH (set_column df v (to_num cells))).
    destruct (coerce_values _ vals agg_choice); [exact IH|].
    cbv beta iota in IH. intros c. now rewrite IH, has_column_set.
  - apply IH.
Qed.

(** X2. A grouping or metric column that the table does not have makes the
    call raise [KeyError], whatever the aggregator. *)
Theorem missing_column_raises
        (df : table) (index_cols columns_cols value_cols : list string)
        (agg_choice : aggregator) (c : string) :
  index_cols ++ columns_cols <> [] -> value_cols <> [] ->
  In c (index_cols ++ columns_cols ++ value_cols) -> has_column df c = false ->
  build_pivot df index_cols columns_cols value_cols agg_choice = Raised "KeyError".
Proof.
  intros Hg Hv Hin Hc. unfold build_pivot.
  assert (G : is_nil index_cols && is_nil columns_cols = false).
  { destruct index_cols; [|reflexivity]. destruct columns_cols; [|reflexivity].
    now contradiction Hg. }
  rewrite G. destruct value_cols as [|v vals] eqn:Ev; [congruence|].
  cbn [is_nil]. rewrite <- Ev in *. clear Ev v vals Hv G.
  unfold pivot_body.
  pose proof (coerce_values_columns df value_cols agg_choice) as Hcv.
  destruct (coerce_values df value_cols agg_choice) as [e|df_vals];
    cbn [bind]; [now rewrite Hcv|].
  assert (Hp : pivot_table df_vals index_cols columns_cols value_cols agg_choice 0
               = Raised "KeyError").
  { unfold pivot_table.
    destruct (forallb (has_column df_vals) value_cols) eqn:Fv; [|reflexivity].
    destruct (forallb (has_column df_vals) (index_cols ++ columns_cols)) eqn:Fk;
      [|reflexivity].
    exfalso. rewrite app_assoc in Hin. apply in_app_or in Hin as [Hin|Hin].
    - rewrite forallb_forall in Fk. specialize (Fk c Hin).
      rewrite Hcv in Fk. congruence.
    - rewrite forallb_forall in Fv. specialize (Fv c Hin).
      rewrite Hcv in Fv. congruence. }
  rewrite Hp. reflexivity.
Qed.

Lemma missing_column_raises_witness :
  build_pivot campaign_table ["Canal"] [] ["Spend"] Count = Raised "KeyError".
Proof.
  apply (missing_column_raises campaign_table ["Canal"] [] ["Spend"] Count "Spend");
    [discriminate|discriminate|simpl; auto|reflexivity].
Defined.

End PivotEdges.

(** ** Summing the columns of the returned pivot *)

Module PivotSums.
Import Text PandasText Formatters Pandas Pivoting PivotSpec GroupingFacts
       ValidationSpec PivotFacts PivotProps PipelineFacts.
Local Open Scope list_scope.








End PivotSums.

(** ** The analysis engine: the other weighted ratios and the metric roles *)

Module AnalysisEdges.
Import Text PandasText Pandas Payload Insights AnalysisSpec Samples MoreSamples
       AnalysisFacts.
Local Open Scope list_scope.

(** X4. When the analysis reports both a weighted click-rate and a
    weighted cost per click, it also reports a weighted cost per thousand
    impressions, computed from the sums it reports: the sum of the spend
    divided by the sum of the impressions, which is positive, times 1000. *)
Theorem weighted_cpm_reported (p : payload) (a : analysis) (t c : Q) :
  _analyze_payload p = Returned a ->
  ctr_weighted (weighted_ratios a) = Some t ->
  cpc_weighted (weighted_ratios a) = Some c ->
  exists m s i,
    cpm_weighted (weighted_ratios a) = Some m
    /\ spend_sum (weighted_ratios a) = Some s
    /\ impressions_sum (weighted_ratios a) = Some i
    /\ (0 < i)%Q
    /\ m = (s / i * 1000)%Q.
Proof.
  unfold _analyze_payload. cbv zeta.
  remember (col_series (p_rows p) (m_impressions (_infer_metrics_from_payload p)))
    as s_impr eqn:Ei.
  remember (col_series (p_rows p) (m_clicks (_infer_metrics_from_payload p)))
    as s_clicks eqn:Ek.
  remember (col_series (p_rows p) (m_spend (_infer_metrics_from_payload p)))
    as s_spend eqn:Es.
  clear Ei Ek Es.
  destruct (weigh_ctr _ _) as [[ctr csum] isum] eqn:Ew.
  destruct (weigh_cpc _ _) as [cpc ssum] eqn:Ec.
  destruct (build_ranked _ _ 5) as [rk|]; [|discriminate].
  intros H. injection H as <-.
  cbn [weighted_ratios ctr_weighted cpc_weighted cpm_weighted spend_sum
       impressions_sum].
  intros -> ->.
  unfold weigh_ctr in Ew. unfold weigh_cpc in Ec. unfold weigh_cpm.
  destruct s_impr as [impr|]; [|discriminate].
  destruct s_clicks as [clicks|]; [|discriminate].
  destruct s_spend as [spend|]; [|discriminate].
  destruct (any_notna impr); [|discriminate].
  destruct (any_notna clicks); [|discriminate].
  destruct (positive (nansum impr)) eqn:Pi; [|discriminate].
  destruct (positive (nansum clicks)) eqn:Pc; [|discriminate].
  injection Ew as _ _ <-. injection Ec as _ <-.
  eexists _, _, _. split; [reflexivity|]. split; [reflexivity|].
  split; [reflexivity|]. split; [now apply Q_ltb_lt in Pi|reflexivity].
Qed.

Lemma weighted_cpm_reported_witness :
  exists a t c m,
    _analyze_payload spend_payload = Returned a
    /\ ctr_weighted (weighted_ratios a) = Some t
    /\ cpc_weighted (weighted_ratios a) = Some c
    /\ cpm_weighted (weighted_ratios a) = Some m
    /\ (m == 25)%Q.
Proof.
  destruct (_analyze_payload spend_payload) as [e|a] eqn:E;
    [vm_compute in E; discriminate|].
  destruct (ctr_weighted (weighted_ratios a)) as [t|] eqn:Et;
    [|pose proof E as E'; vm_compute in E'; injection E' as <-; discriminate].
  destruct (cpc_weighted (weighted_ratios a)) as [c|] eqn:Ec;
    [|pose proof E as E'; vm_compute in E'; injection E' as <-; discriminate].
  destruct (weighted_cpm_reported spend_payload a t c E Et Ec)
    as (m & s & i & Hm & Hs & Hi & _ & Heq).
  exists a, t, c, m. repeat split; [exact Et|exact Ec|exact Hm|].
  pose proof E as E'. vm_compute in E'. injection E' as <-.
  cbn in Hs, Hi. injection Hs as <-. injection Hi as <-. rewrite Heq.
  reflexivity.
Defined.

(** *** Which payloads can be analysed *)

Lemma primary_of_number (p : payload) (c : string) (r : record) :
  In c (p_columns p) -> In r (p_rows p) -> is_number (get r c) = true ->
  exists k, m_primary (_infer_metrics_from_payload p) = Some k.
Proof.
  intros Hc Hr Hn. unfold _infer_metrics_from_payload. cbn [m_primary].
  destruct (first_some _) as [k|]; [now exists k|].
  destruct (find _ (p_columns p)) as [k|] eqn:F; [now exists k|].
  pose proof (find_none _ _ F c Hc) as Hf. cbv beta in Hf.
  assert (Ht : existsb (fun r0 => is_number (get r0 c)) (p_rows p) = true)
    by (apply existsb_exists; now exists r).
  congruence.
Qed.

Lemma analysis_of_primary (p : payload) :
  match m_primary (_infer_metrics_from_payload p) with
  | Some _ => exists a, _analyze_payload p = Returned a
  | None => _analyze_payload p = Raised "TypeError"
  end.
Proof.
  unfold _analyze_payload. cbv zeta.
  destruct (weigh_ctr _ _) as [[ctr csum] isum].
  destruct (weigh_cpc _ _) as [cpc ssum].
  destruct (m_primary (_infer_metrics_from_payload p)) as [k|];
    cbn [build_ranked]; [eauto|reflexivity].
Qed.

(** X5. The analysis returns for every payload in which some listed
    column holds a number in some row; it raises [TypeError] for a payload
    without columns, the empty pivot included. *)
Theorem analysis_needs_a_number (p : payload) :
  (forall c r, In c (p_columns p) -> In r (p_rows p) ->
               is_number (get r c) = true ->
               exists a, _analyze_payload p = Returned a)
  /\ (p_columns p = [] -> _analyze_payload p = Raised "TypeError").
Proof.
  split.
  - intros c r Hc Hr Hn.
    destruct (primary_of_number p c r Hc Hr Hn) as [k Hk].
    pose proof (analysis_of_primary p) as H. now rewrite Hk in H.
  - intros Hnil. pose proof (analysis_of_primary p) as H.
    unfold _infer_metrics_from_payload in H. rewrite Hnil in H. exact H.
Qed.

Lemma analysis_needs_a_number_witness :
  (exists a, _analyze_payload spend_payload = Returned a)
  /\ _analyze_payload (mkpayload 0 0 [] [] []) = Raised "TypeError".
Proof.
  split.
  - apply (proj1 (analysis_needs_a_number spend_payload) "Spend"
                 [("Segment", PStr "Search"); ("Spend", PNum 120);
                  ("Clicks", PNum 60); ("Impressions", PNum 3000)]);
      [simpl; auto|simpl; auto|reflexivity].
  - apply (proj2 (analysis_needs_a_number (mkpayload 0 0 [] [] []))). reflexivity.
Defined.

(** *** The long name of the click-rate *)

Lemma is_word_fold (b : ascii) : is_word (fold_case b) = is_word b.
Proof. destruct b as [[] [] [] [] [] [] [] []]; reflexivity. Qed.

Lemma fold_case_idem (b : ascii) : fold_case (fold_case b) = fold_case b.
Proof. destruct b as [[] [] [] [] [] [] [] []]; reflexivity. Qed.

Lemma fold_hyphen (b : ascii) :
  Ascii.eqb (fold_case "-") (fold_case b) = true -> b = "-"%char.
Proof. destruct b as [[] [] [] [] [] [] [] []]; vm_compute; congruence. Qed.

Lemma fold_k_word (b : ascii) :
  Ascii.eqb (fold_case "k") (fold_case b) = true -> is_word b = true.
Proof. destruct b as [[] [] [] [] [] [] [] []]; vm_compute; congruence. Qed.

(** Where the long name is read, so is the word [Click]. *)
Lemma long_name_reads_click (before : option ascii) (s : string) :
  match_here before "Click-Through Rate" s = true ->
  match_here before "Click" s = true.
Proof.
  unfold match_here. intros H. apply andb_prop in H as [Hb H].
  rewrite Hb. cbn [andb].
  destruct s as [|b1 [|b2 [|b3 [|b4 [|b5 [|b6 s]]]]]];
    cbn [match_rest] in H |- *;
    repeat (apply andb_prop in H as [? H]); try discriminate.
  repeat (apply andb_true_intro; split; [assumption|]).
  match goal with
  | Hh : Ascii.eqb (fold_case "-") (fold_case b6) = true |- _ =>
      apply fold_hyphen in Hh; subst b6
  end.
  unfold boundary. cbn [word_opt first_char].
  rewrite (fold_k_word b5) by assumption. reflexivity.
Qed.

Lemma long_name_search (before : option ascii) (s : string) :
  search_from ["Click-Through Rate"] before s = true ->
  search_from ["Clicks"; "Click"; "Clics"] before s = true.
Proof.
  revert before. induction s as [|c s IH]; intros before H;
    cbn [search_from existsb] in H |- *.
  - rewrite !orb_false_r in H. rewrite (long_name_reads_click _ _ H).
    now rewrite orb_true_r.
  - apply orb_prop in H as [H|H].
    + rewrite orb_false_r in H. rewrite (long_name_reads_click _ _ H).
      now rewrite !orb_true_r.
    + rewrite (IH _ H). now rewrite orb_true_r.
Qed.

(** X6. A payload with a column that carries the long name of the
    click-rate always gets a clicks column: the keyword [Click] is read
    inside [Click-Through Rate], so the rate itself can be taken for the
    clicks. *)
Theorem long_ctr_name_gives_clicks (p : payload) (c : string) :
  In c (p_columns p) -> search ["Click-Through Rate"] c = true ->
  exists k, m_clicks (_infer_metrics_from_payload p) = Some k
            /\ search ["Clicks"; "Click"; "Clics"] k = true.
Proof.
  intros Hc Hs. unfold _infer_metrics_from_payload. cbn [m_clicks].
  unfold _find_col.
  destruct (find _ (p_columns p)) as [k|] eqn:F.
  - exists k. split; [reflexivity|]. now apply find_some in F.
  - pose proof (find_none _ _ F c Hc) as Hf.
    unfold search in *. now rewrite (long_name_search _ _ Hs) in Hf.
Qed.

Lemma long_ctr_name_gives_clicks_witness :
  (exists k, m_clicks (_infer_metrics_from_payload long_name_payload) = Some k
             /\ search ["Clicks"; "Click"; "Clics"] k = true)
  /\ m_clicks (_infer_metrics_from_payload long_name_payload)
     = m_ctr (_infer_metrics_from_payload long_name_payload).
Proof.
  split; [|reflexivity].
  apply (long_ctr_name_gives_clicks long_name_payload "Click-Through Rate");
    [simpl; auto|reflexivity].
Defined.

End AnalysisEdges.

(** ** The stable sort *)

Module SortFacts.
Import Pandas.
Local Open Scope list_scope.

Section Sorting.
Context {A : Type} (leb : A -> A -> bool).

Lemma insert_sorted_perm (x : A) (l : list A) :
  Permutation (insert_sorted leb x l) (x :: l).
Proof.
  induction l as [|y l IH]; cbn [insert_sorted]; [reflexivity|].
  destruct (leb x y); [reflexivity|].
  rewrite IH. apply perm_swap.
Qed.

Lemma sort_perm (l : list A) : Permutation (sort leb l) l.
Proof.
  induction l as [|x l IH]; cbn [sort]; [reflexivity|].
  rewrite insert_sorted_perm. now constructor.
Qed.

Lemma sort_length (l : list A) : List.length (sort leb l) = List.length l.
Proof. apply Permutation_length, sort_perm. Qed.

Lemma sort_in (l : list A) (x : A) : In x (sort leb l) <-> In x l.
Proof.
  split; apply Permutation_in; [apply sort_perm|apply Permutation_sym, sort_perm].
Qed.

(** Every element is below all the later ones. *)
Fixpoint ordered (l : list A) : Prop :=
  match l with
  | [] => True
  | x :: rest => (forall y, In y rest -> leb x y = true) /\ ordered rest
  end.

Lemma ordered_app (a b : list A) :
  ordered (a ++ b) ->
  ordered a /\ ordered b /\ (forall x y, In x a -> In y b -> leb x y = true).
Proof.
  induction a as [|x a IH]; cbn [app ordered]; intros H.
  - repeat split; [exact H|intros x y []].
  - destruct H as [Hx H]. destruct (IH H) as (Ha & Hb & Hab).
    repeat split; [intros y Hy; apply Hx, in_or_app; now left|exact Ha|exact Hb|].
    intros x' y [<-|Hx'] Hy; [apply Hx, in_or_app; now right|now apply Hab].
Qed.

(** The order is total and transitive on the elements that satisfy [P]. *)
Variable P : A -> Prop.
Hypothesis leb_total : forall x y, P x -> P y -> leb x y = false -> leb y x = true.
Hypothesis leb_trans :
  forall x y z, P x -> P y -> P z -> leb x y = true -> leb y z = true -> leb x z = true.

Lemma insert_ordered (x : A) (l : list A) :
  P x -> Forall P l -> ordered l -> ordered (insert_sorted leb x l).
Proof.
  intros Px. induction l as [|y l IH]; cbn [insert_sorted ordered]; intros Pl Hl.
  - split; [intros y []|exact I].
  - inversion Pl as [|? ? Py Pl']; subst. destruct Hl as [Hy Hl].
    destruct (leb x y) eqn:E; cbn [ordered].
    + split; [|now split]. intros z [<-|Hz]; [exact E|].
      apply (leb_trans x y z); auto.
      rewrite Forall_forall in Pl'. now apply Pl'.
    + split; [|now apply IH]. intros z Hz.
      apply (Permutation_in _ (insert_sorted_perm x l)) in Hz.
      destruct Hz as [<-|Hz]; [now apply leb_total|now apply Hy].
Qed.

Lemma sort_ordered (l : list A) : Forall P l -> ordered (sort leb l).
Proof.
  induction l as [|x l IH]; cbn [sort]; intros Pl; [exact I|].
  inversion Pl as [|? ? Px Pl']; subst.
  apply insert_ordered; [exact Px| |now apply IH].
  rewrite Forall_forall in *. intros y Hy. apply Pl', sort_in, Hy.
Qed.

End Sorting.
End SortFacts.

(** ** The analysis engine: top and bottom rows *)

Module RankingProps.
Import Text PandasText Pandas Payload Insights AnalysisSpec MoreSamples
       RankingSpec AnalysisFacts GroupingFacts SortFacts.
Local Open Scope list_scope.

(** The ranking that a returned analysis carries. *)
Lemma analyze_ranking (p : payload) (a : analysis) :
  _analyze_payload p = Returned a ->
  exists k,
    m_primary (inferred_metrics a) = Some k
    /\ ranking_on_primary a
       = mkranking (firstn 5 (sorted_desc (getv k) (p_rows p)))
                   (rev (lastn 5 (sorted_desc (getv k) (p_rows p)))).
Proof.
  unfold _analyze_payload. cbv zeta.
  destruct (weigh_ctr _ _) as [[ctr csum] isum].
  destruct (weigh_cpc _ _) as [cpc ssum].
  destruct (m_primary (_infer_metrics_from_payload p)) as [k|] eqn:Ek;
    cbn [build_ranked]; [|discriminate].
  intros H. injection H as <-. exists k. now split.
Qed.

Lemma lastn_split {A : Type} (n : nat) (l : list A) :
  l = firstn (List.length l - n) l ++ lastn n l.
Proof. unfold lastn. symmetry. apply firstn_skipn. Qed.

(** X7. The ranking holds the same number of top and bottom rows, five or
    all the rows of the payload if there are fewer; they are rows of the
    payload, and up to five rows the bottom is the top read backwards,
    every row being in both. *)
Theorem ranking_shape (p : payload) (a : analysis) :
  _analyze_payload p = Returned a ->
  let n := List.length (p_rows p) in
  let rk := ranking_on_primary a in
  List.length (top rk) = Nat.min 5 n
  /\ List.length (bottom rk) = Nat.min 5 n
  /\ (forall r, In r (top rk) \/ In r (bottom rk) -> In r (p_rows p))
  /\ ((n <= 5)%nat -> bottom rk = rev (top rk) /\ Permutation (top rk) (p_rows p)).
Proof.
  intros H. destruct (analyze_ranking p a H) as (k & _ & ->).
  cbv zeta. cbn [top bottom]. unfold sorted_desc.
  set (leb := fun x y => negb (key_lt (getv k x) (getv k y))).
  pose proof (sort_length leb (p_rows p)) as Hlen.
  repeat split.
  - rewrite length_firstn, Hlen. reflexivity.
  - rewrite length_rev. unfold lastn. rewrite length_skipn, Hlen. lia.
  - intros r [Hr|Hr]; apply (sort_in leb).
    + rewrite <- (firstn_skipn 5). apply in_or_app. now left.
    + apply in_rev in Hr. rewrite (lastn_split 5 (sort leb (p_rows p))).
      apply in_or_app. now right.
  - unfold lastn. rewrite Hlen. replace (List.length (p_rows p) - 5)%nat with 0%nat by lia.
    cbn [skipn]. rewrite firstn_all2 by lia. reflexivity.
  - rewrite firstn_all2 by lia. apply sort_perm.
Qed.

Lemma ranking_shape_witness :
  exists a,
    _analyze_payload seven_rows = Returned a
    /\ List.length (top (ranking_on_primary a)) = 5%nat
    /\ List.length (bottom (ranking_on_primary a)) = 5%nat.
Proof.
  destruct (_analyze_payload seven_rows) as [e|a] eqn:E;
    [vm_compute in E; discriminate|].
  exists a. split; [reflexivity|].
  destruct (ranking_shape seven_rows a E) as (Ht & Hb & _).
  split; [exact Ht|exact Hb].
Defined.

(** *** The order of the ranked rows *)

Lemma key_lt_asym (a b : rank_key) : key_lt a b = true -> key_lt b a = false.
Proof.
  destruct a as [|x|], b as [|y|]; cbn [key_lt]; try discriminate; try reflexivity.
  intros H. apply Q_ltb_lt in H. apply Q_ltb_false. now apply Qlt_le_weak.
Qed.

Lemma key_ge_trans (a b c : rank_key) :
  a <> NaNKey -> b <> NaNKey -> c <> NaNKey ->
  key_lt a b = false -> key_lt b c = false -> key_lt a c = false.
Proof.
  destruct a as [|x|], b as [|y|], c as [|z|]; cbn [key_lt];
    try congruence.
  intros _ _ _ H1 H2. apply Q_ltb_false in H1, H2. apply Q_ltb_false.
  now apply Qle_trans with y.
Qed.

Lemma getv_not_nan (k : string) (r : record) :
  get r k <> Some PNaN -> getv k r <> NaNKey.
Proof.
  unfold getv. destruct (get r k) as [[s|q|]|]; congruence.
Qed.

Lemma ranked_ordered (k : string) (rs : list record) :
  (forall r, In r rs -> get r k <> Some PNaN) ->
  ordered (fun x y => negb (key_lt (getv k x) (getv k y)))
          (sorted_desc (getv k) rs).
Proof.
  intros Hn. unfold sorted_desc.
  apply (sort_ordered _ (fun r => getv k r <> NaNKey)).
  - intros x y Px Py H. apply negb_false_iff in H.
    apply negb_true_iff. now apply key_lt_asym.
  - intros x y z Px Py Pz H1 H2. apply negb_true_iff in H1, H2.
    apply negb_true_iff. now apply key_ge_trans with (getv k y).
  - apply Forall_forall. intros r Hr. now apply getv_not_nan, Hn.
Qed.

Lemma ordered_descending (k : string) (l : list record) :
  ordered (fun x y => negb (key_lt (getv k x) (getv k y))) l ->
  descending (getv k) l = true.
Proof.
  induction l as [|x l IH]; cbn [ordered descending]; [reflexivity|].
  intros [Hx Hl]. rewrite (IH Hl), andb_true_r.
  apply forallb_forall. exact Hx.
Qed.

(** X8. When no row holds NaN in the primary metric, the top rows are in
    descending order and the bottom rows in ascending order; a row greater
    than a top row is a top row, and a row smaller than a bottom row is a
    bottom row.  Rows whose value is not a number rank below every
    number. *)
Theorem ranking_order (p : payload) (a : analysis) (k : string) :
  _analyze_payload p = Returned a ->
  m_primary (inferred_metrics a) = Some k ->
  (forall r, In r (p_rows p) -> get r k <> Some PNaN) ->
  let rk := ranking_on_primary a in
  descending (getv k) (top rk) = true
  /\ descending (getv k) (rev (bottom rk)) = true
  /\ (forall r r', In r (top rk) -> In r' (p_rows p) ->
                   key_lt (getv k r) (getv k r') = true -> In r' (top rk))
  /\ (forall r r', In r (bottom rk) -> In r' (p_rows p) ->
                   key_lt (getv k r') (getv k r) = true -> In r' (bottom rk)).
Proof.
  intros H Hk Hn. destruct (analyze_ranking p a H) as (k' & Hk' & ->).
  assert (k' = k) as -> by congruence.
  cbv zeta. cbn [top bottom]. rewrite rev_involutive.
  pose proof (ranked_ordered k (p_rows p) Hn) as Ho.
  set (leb := fun x y => negb (key_lt (getv k x) (getv k y))) in *.
  set (ranked := sorted_desc (getv k) (p_rows p)) in *.
  assert (Hin : forall r, In r (p_rows p) -> In r ranked)
    by (intros r Hr; now apply (sort_in leb)).
  pose proof Ho as Ho1. rewrite <- (firstn_skipn 5 ranked) in Ho1.
  apply ordered_app in Ho1 as (Ht & _ & Hts).
  pose proof Ho as Ho2. rewrite (lastn_split 5 ranked) in Ho2.
  apply ordered_app in Ho2 as (_ & Hb & Hfb).
  repeat split.
  - now apply ordered_descending.
  - now apply ordered_descending.
  - intros r r' Hr Hr' Hlt. apply Hin in Hr'.
    rewrite <- (firstn_skipn 5 ranked) in Hr'.
    apply in_app_or in Hr' as [Hr'|Hr']; [exact Hr'|].
    pose proof (Hts r r' Hr Hr') as Hle. unfold leb in Hle.
    apply negb_true_iff in Hle. congruence.
  - intros r r' Hr Hr' Hlt. apply in_rev in Hr. apply Hin in Hr'.
    rewrite (lastn_split 5 ranked) in Hr'.
    apply in_app_or in Hr' as [Hr'|Hr']; [|now apply in_rev in Hr'].
    pose proof (Hfb r' r Hr' Hr) as Hle. unfold leb in Hle.
    apply negb_true_iff in Hle. congruence.
Qed.

Lemma ranking_order_witness :
  exists a,
    _analyze_payload seven_rows = Returned a
    /\ descending (getv "Spend") (top (ranking_on_primary a)) = true
    /\ descending (getv "Spend") (rev (bottom (ranking_on_primary a))) = true.
Proof.
  destruct (_analyze_payload seven_rows) as [e|a] eqn:E;
    [vm_compute in E; discriminate|].
  exists a. split; [reflexivity|].
  assert (Hk : m_primary (inferred_metrics a) = Some "Spend").
  { pose proof E as E'. vm_compute in E'. injection E' as <-. reflexivity. }
  assert (Hn : forall r, In r (p_rows seven_rows) -> get r "Spend" <> Some PNaN).
  { intros r Hr. cbn in Hr.
    repeat (destruct Hr as [<-|Hr]; [discriminate|]). destruct Hr. }
  destruct (ranking_order seven_rows a "Spend" E Hk Hn) as (Ht & Hb & _).
  split; [exact Ht|exact Hb].
Defined.

End RankingProps.

(** ** The analysis engine: dispersion of the primary metric *)

Module DispersionProps.
Import Text PandasText Pandas Payload Insights AnalysisSpec MoreSamples
       AnalysisFacts ExtremaFacts GroupingFacts SortFacts PipelineFacts RankingProps.
Local Open Scope list_scope.

Lemma Qsum_nonneg (l : list Q) :
  (forall x, In x l -> (0 <= x)%Q) -> (0 <= Qsum l)%Q.
Proof.
  induction l as [|x l IH]; intros H; cbn [Qsum fold_right]; [apply Qle_refl|].
  change (0 <= x + Qsum l)%Q. rewrite <- (Qplus_0_r 0).
  apply Qplus_le_compat; [apply H; now left|apply IH; intros y Hy; apply H; now right].
Qed.

Lemma square_nonneg (x : Q) : (0 <= x * x)%Q.
Proof. unfold Qle, Qmult. cbn [Qnum Qden]. nia. Qed.

Lemma variance_nonneg (vals : list Q) : (0 <= variance vals)%Q.
Proof.
  unfold variance.
  set (sq := map _ vals).
  assert (Hsq : forall x, In x sq -> (0 <= x)%Q).
  { intros x Hx. apply in_map_iff in Hx as (y & <- & _). apply square_nonneg. }
  clearbody sq. destruct sq as [|x l]; [apply Qle_refl|].
  cbn [Qmean or_zero]. apply Qle_shift_div_l.
  - unfold Qlength. change 0%Q with (inject_Z 0). rewrite <- Zlt_Qlt.
    cbn [List.length]. lia.
  - rewrite Qmult_0_l. now apply Qsum_nonneg.
Qed.

(** *** Percentiles grow with the rank *)

Lemma ordered_nth (s : list Q) (i j : nat) (d d' : Q) :
  ordered Q_leb s -> (i <= j < List.length s)%nat ->
  (nth i s d <= nth j s d')%Q.
Proof.
  revert i j. induction s as [|x s IH]; intros i j Ho [Hij Hj];
    cbn [List.length] in Hj; [lia|].
  destruct Ho as [Hx Hs]. destruct i as [|i], j as [|j]; cbn [nth]; try lia.
  - apply Qle_refl.
  - apply Qle_bool_iff. apply Hx. apply nth_In. lia.
  - apply IH; [exact Hs|lia].
Qed.

Lemma sort_Q_ordered (vals : list Q) : ordered Q_leb (sort Q_leb vals).
Proof.
  apply (sort_ordered Q_leb (fun _ => True)).
  - intros x y _ _ H. unfold Q_leb in *. apply Qle_bool_iff.
    destruct (Qlt_le_dec y x) as [L|L]; [now apply Qlt_le_weak|].
    apply Qle_bool_iff in L. congruence.
  - intros x y z _ _ _ H1 H2. unfold Q_leb in *.
    apply Qle_bool_iff in H1, H2. apply Qle_bool_iff. now apply Qle_trans with y.
  - apply Forall_forall. intros; exact I.
Qed.

(** The interpolation at position [pos] in a list sorted in ascending
    order. *)
Definition interpolate (s : list Q) (pos : Q) : Q :=
  let lo := Z.to_nat (Qfloor pos) in
  let frac := (pos - inject_Z (Qfloor pos))%Q in
  let a := nth lo s 0%Q in
  let b := nth (S lo) s a in
  (a + frac * (b - a))%Q.

Lemma frac_bounds (pos : Q) :
  (0 <= pos - inject_Z (Qfloor pos))%Q /\ (pos - inject_Z (Qfloor pos) < 1)%Q.
Proof.
  pose proof (Qfloor_le pos) as H1. pose proof (Qlt_floor pos) as H2.
  rewrite inject_Z_plus in H2. change (inject_Z 1) with 1%Q in H2.
  split.
  - setoid_replace 0%Q with (inject_Z (Qfloor pos) - inject_Z (Qfloor pos))%Q by ring.
    apply Qplus_le_compat; [exact H1|apply Qle_refl].
  - apply Qplus_lt_l with (inject_Z (Qfloor pos)).
    setoid_replace (pos - inject_Z (Qfloor pos) + inject_Z (Qfloor pos))%Q with pos by ring.
    now rewrite Qplus_comm.
Qed.

Lemma next_ge (s : list Q) (lo : nat) :
  ordered Q_leb s -> (lo < List.length s)%nat ->
  (nth lo s 0 <= nth (S lo) s (nth lo s 0))%Q.
Proof.
  intros Ho Hlo. destruct (Nat.lt_ge_cases (S lo) (List.length s)) as [H|H].
  - apply ordered_nth; [exact Ho|lia].
  - rewrite (nth_overflow s (nth lo s 0%Q)) by lia. apply Qle_refl.
Qed.

Lemma interpolate_bounds (s : list Q) (pos : Q) :
  ordered Q_leb s -> (Z.to_nat (Qfloor pos) < List.length s)%nat ->
  (nth (Z.to_nat (Qfloor pos)) s 0 <= interpolate s pos)%Q
  /\ (interpolate s pos
      <= nth (S (Z.to_nat (Qfloor pos))) s (nth (Z.to_nat (Qfloor pos)) s 0))%Q.
Proof.
  intros Ho Hlo. unfold interpolate. cbv zeta.
  set (lo := Z.to_nat (Qfloor pos)) in *.
  pose proof (next_ge s lo Ho Hlo) as Hab.
  destruct (frac_bounds pos) as [F0 F1].
  set (frac := (pos - inject_Z (Qfloor pos))%Q) in *.
  set (a := nth lo s 0%Q) in *. set (b := nth (S lo) s a) in *.
  assert (Hd : (0 <= b - a)%Q) by (unfold Qminus; rewrite <- Qle_minus_iff; exact Hab).
  split.
  - setoid_replace a with (a + 0)%Q at 1 by ring.
    apply Qplus_le_compat; [apply Qle_refl|]. now apply Qmult_le_0_compat.
  - setoid_replace b with (a + 1 * (b - a))%Q at 2 by ring.
    apply Qplus_le_compat; [apply Qle_refl|].
    apply Qmult_le_compat_r; [now apply Qlt_le_weak|exact Hd].
Qed.

Lemma interpolate_mono (s : list Q) (p1 p2 : Q) :
  ordered Q_leb s -> (0 <= p1)%Q -> (p1 <= p2)%Q ->
  (Z.to_nat (Qfloor p2) < List.length s)%nat ->
  (interpolate s p1 <= interpolate s p2)%Q.
Proof.
  intros Ho H0 H12 Hlen.
  assert (Hf : (Qfloor p1 <= Qfloor p2)%Z) by now apply Qfloor_resp_le.
  assert (Hf0 : (0 <= Qfloor p1)%Z).
  { change 0%Z with (Qfloor 0). now apply Qfloor_resp_le. }
  destruct (Z.eq_dec (Qfloor p1) (Qfloor p2)) as [E|N].
  - unfold interpolate. cbv zeta. rewrite E.
    set (lo := Z.to_nat (Qfloor p2)) in *.
    pose proof (next_ge s lo Ho Hlen) as Hab.
    set (a := nth lo s 0%Q) in *. set (b := nth (S lo) s a) in *.
    assert (Hd : (0 <= b - a)%Q) by (unfold Qminus; rewrite <- Qle_minus_iff; exact Hab).
    apply Qplus_le_compat; [apply Qle_refl|].
    apply Qmult_le_compat_r; [|exact Hd].
    apply Qplus_le_compat; [exact H12|apply Qle_refl].
  - assert (Hlt : (S (Z.to_nat (Qfloor p1)) <= Z.to_nat (Qfloor p2))%nat) by lia.
    destruct (interpolate_bounds s p1 Ho) as [_ Hup]; [lia|].
    destruct (interpolate_bounds s p2 Ho Hlen) as [Hlow _].
    eapply Qle_trans; [exact Hup|]. eapply Qle_trans; [|exact Hlow].
    apply ordered_nth; [exact Ho|lia].
Qed.

Lemma percentile_interpolate (vals : list Q) (pct : Q) :
  percentile vals pct
  = interpolate (sort Q_leb vals) ((Qlength (sort Q_leb vals) - 1) * pct / 100)%Q.
Proof. reflexivity. Qed.

Lemma scale_le (x a b : Q) : (0 <= x)%Q -> (a <= b)%Q -> (x * a <= x * b)%Q.
Proof.
  intros Hx Hab. rewrite !(Qmult_comm x). now apply Qmult_le_compat_r.
Qed.

Lemma iqr_nonneg (vals : list Q) :
  vals <> [] -> (0 <= percentile vals 75 - percentile vals 25)%Q.
Proof.
  intros Hne. unfold Qminus; rewrite <- Qle_minus_iff. rewrite !percentile_interpolate.
  set (s := sort Q_leb vals).
  assert (Hlen : (1 <= List.length s)%nat).
  { unfold s. rewrite sort_length. destruct vals; [congruence|cbn; lia]. }
  assert (Hn : (0 <= Qlength s - 1)%Q).
  { unfold Qlength. unfold Qminus; rewrite <- Qle_minus_iff. change 1%Q with (inject_Z 1).
    rewrite <- Zle_Qle. lia. }
  apply interpolate_mono.
  - apply sort_Q_ordered.
  - apply Qle_shift_div_l; [reflexivity|]. rewrite Qmult_0_l.
    apply Qmult_le_0_compat; [exact Hn|discriminate].
  - apply Qmult_le_compat_r; [|discriminate].
    apply scale_le; [exact Hn|discriminate].
  - assert (Hp : ((Qlength s - 1) * 75 / 100 <= Qlength s - 1)%Q).
    { apply Qle_shift_div_r; [reflexivity|].
      apply scale_le; [exact Hn|discriminate]. }
    apply Qfloor_resp_le in Hp.
    assert (Hfl : Qfloor (Qlength s - 1) = (Z.of_nat (List.length s) - 1)%Z).
    { assert (Heq : (Qlength s - 1 == inject_Z (Z.of_nat (List.length s) - 1))%Q).
      { unfold Qlength, Qminus, Qeq, Qplus, Qopp, inject_Z. cbn [Qnum Qden]. lia. }
      rewrite Heq. apply Qfloor_Z. }
    rewrite Hfl in Hp. lia.
Qed.

Lemma present_vals_in (s : list (option Q)) (q : Q) :
  In (Some q) s -> In q (present_vals s).
Proof.
  induction s as [|[x|] s IH]; cbn [present_vals]; intros H.
  - destruct H.
  - destruct H as [[= ->]|H]; [now left|right; now apply IH].
  - destruct H as [H|H]; [discriminate|now apply IH].
Qed.

(** X9. The dispersion that the analysis reports is consistent: the
    minimum is at most the maximum, both bound every number of the primary
    metric, and neither the variance nor the inter-quartile range is
    negative. *)
Theorem dispersion_bounds (p : payload) (a : analysis) (d : dispersion) :
  _analyze_payload p = Returned a ->
  dispersion_on_primary a = Some d ->
  (d_min d <= d_max d)%Q
  /\ (0 <= std_squared d)%Q
  /\ (0 <= iqr d)%Q
  /\ (forall k r q, m_primary (inferred_metrics a) = Some k ->
                    In r (p_rows p) -> _numeric (get r k) = Some q ->
                    (d_min d <= q)%Q /\ (q <= d_max d)%Q).
Proof.
  intros H Hd. destruct (analyze_series p a H) as (_ & _ & Hs).
  cbv zeta in Hs. rewrite Hs in Hd. clear Hs.
  unfold disperse in Hd.
  destruct (if truthy _ then _ else None) as [s|] eqn:Es; [|discriminate].
  destruct (any_notna s) eqn:Ea; [|discriminate].
  injection Hd as <-. cbn [d_min d_max std_squared iqr].
  unfold any_notna in Ea. apply existsb_exists in Ea as ([v|] & Hv & Hsome);
    [|discriminate].
  apply present_vals_in in Hv.
  assert (Hne : present_vals s <> []) by (intros E; rewrite E in Hv; destruct Hv).
  split; [|split; [|split]].
  - destruct (min_max_bounds _ _ Hv). now apply Qle_trans with v.
  - apply variance_nonneg.
  - now apply iqr_nonneg.
  - intros k r q Hk Hr Hq.
    apply (min_max_bounds (present_vals s) q). apply present_vals_in.
    rewrite Hk in Es. destruct (truthy (Some k)); [|discriminate].
    injection Es as <-. rewrite <- Hq.
    now apply (in_map (fun r => _numeric (get r k))).
Qed.

Lemma dispersion_bounds_witness :
  exists a d,
    _analyze_payload spend_payload = Returned a
    /\ dispersion_on_primary a = Some d
    /\ (d_min d <= d_max d)%Q /\ (0 <= std_squared d)%Q /\ (0 <= iqr d)%Q.
Proof.
  destruct (_analyze_payload spend_payload) as [e|a] eqn:E;
    [vm_compute in E; discriminate|].
  destruct (dispersion_on_primary a) as [d|] eqn:D;
    [|pose proof E as E'; vm_compute in E'; injection E' as <-; discriminate].
  exists a, d. split; [reflexivity|]. split; [exact D|].
  destruct (dispersion_bounds spend_payload a d E D) as (H1 & H2 & H3 & _).
  repeat split; assumption.
Defined.

End DispersionProps.

(** ** The fallback narrative: its headline *)

Module NarrativeProps.
Import Text Pandas Payload Insights NarrativeSpec TextFacts FallbackSpec MoreSamples.
Local Open Scope list_scope.

Lemma occurs_app (c : ascii) (a b : string) :
  occurs c (a ++ b) = (occurs c a || occurs c b)%bool.
Proof.
  induction a as [|d a IH]; cbn [append occurs]; [reflexivity|].
  now rewrite IH, orb_assoc.
Qed.

(** Replacing a character leaves none behind. *)
Lemma replace_char_gone (c : ascii) (new s : string) :
  occurs c new = false ->
  occurs c (replace (String c "") new s) = false.
Proof.
  intros Hnew. unfold replace. induction s as [|d rest IH]; [reflexivity|].
  cbn [replace_from String.length Nat.sub].
  assert (Hp : String.prefix (String c "") (String d rest)
               = if ascii_dec c d then true else false).
  { cbn [String.prefix]. destruct (ascii_dec c d); [now destruct rest|reflexivity]. }
  rewrite Hp. destruct (ascii_dec c d) as [->|ne].
  - now rewrite occurs_app, Hnew, IH.
  - cbn [occurs]. rewrite IH, orb_false_r. now apply Ascii.eqb_neq.
Qed.

Lemma first_line_app (a b : string) :
  first_line (a ++ String (ascii_of_nat 10) b) = first_line a.
Proof.
  induction a as [|x a IH]; cbn [append first_line]; [reflexivity|].
  destruct (Ascii.eqb x (ascii_of_nat 10)); [reflexivity|now rewrite IH].
Qed.

Lemma first_line_occurs (c : ascii) (s : string) :
  occurs c s = false -> occurs c (first_line s) = false.
Proof.
  induction s as [|d s IH]; cbn [occurs first_line]; [reflexivity|].
  intros H. apply orb_false_iff in H as [Hd Hs].
  destruct (Ascii.eqb d (ascii_of_nat 10)); [reflexivity|].
  cbn [occurs]. now rewrite Hd, IH.
Qed.

(** X10. Whatever the rendering of numbers and whatever the name of the
    metric, the headline of the fallback narrative holds no dot: the dots
    of the metric name are turned into commas along with the decimal
    points. *)
Theorem fallback_headline_has_no_dot
        (float_repr format_2f : Q -> string) (p : payload) :
  p_rows p <> [] -> numeric_summary p <> [] ->
  occurs "." (first_line (fallback_comment_on_pivot float_repr format_2f p)) = false.
Proof.
  intros Hr Hs. unfold fallback_comment_on_pivot.
  destruct (p_rows p) as [|r rs]; [congruence|].
  destruct (numeric_summary p) as [|[first st] rest]; [congruence|].
  cbv zeta.
  set (headline := replace "." "," _).
  set (tops := match firstn 3 _ with [] => [] | _ :: _ => _ end).
  assert (Hj : exists tail,
             join newline (headline :: tops ++ [msg_recos])
             = (headline ++ String (ascii_of_nat 10) tail)%string).
  { destruct (tops ++ [msg_recos]) as [|t ts] eqn:E.
    - destruct tops; discriminate.
    - exists (join newline (t :: ts)). reflexivity. }
  destruct Hj as [tail ->]. rewrite first_line_app.
  apply first_line_occurs. unfold headline. now apply replace_char_gone.
Qed.

Lemma fallback_headline_has_no_dot_witness :
  occurs "." (first_line
                (fallback_comment_on_pivot
                   (fun _ => "1.5") (fun _ => "1,234.50")
                   (mkpayload 1 1 ["Cost.EUR"]
                              [("Cost.EUR", mksummary 1 1 1 1 1)]
                              [[("Cost.EUR", PNum 1)]]))) = false.
Proof.
  apply fallback_headline_has_no_dot; discriminate.
Defined.

End NarrativeProps.

(** ** The sample of the payload sent with the prompt *)

Module PromptProps.
Import Text Pandas Payload Prompt.
Local Open Scope list_scope.

Lemma slice_to_nonneg {A : Type} (n : Z) (l : list A) :
  (0 <= n)%Z -> slice_to n l = firstn (Z.to_nat n) l.
Proof. intros H. unfold slice_to. now rewrite (proj2 (Z.leb_le 0 n) H). Qed.

Lemma slice_from_last {A : Type} (n : Z) (l : list A) :
  (0 < n)%Z -> slice_from (- n) l = skipn (List.length l - Z.to_nat n) l.
Proof.
  intros H. unfold slice_from.
  destruct (Z.leb_spec 0 (- n)) as [L|L]; [lia|]. now rewrite Z.opp_involutive.
Qed.

(** X11. With a head of at least zero rows and a tail of at least one: a
    payload of at most [head] rows is sent whole; beyond [head + tail] rows
    the first [head] and the last [tail] rows are sent and the rows between
    them are left out; in between, only the first [head] rows are sent,
    although the note announces the remaining rows as the tail. *)
Theorem shrink_sample (p : payload) (head tail : Z) :
  (0 <= head)%Z -> (0 < tail)%Z ->
  let rows := p_rows p in
  let len := Z.of_nat (List.length rows) in
  let s := _shrink_payload_for_prompt p head tail in
  ((len <= head)%Z -> sl_rows s = rows)
  /\ ((head < len <= head + tail)%Z ->
      sl_rows s = firstn (Z.to_nat head) rows
      /\ sl_note s = ("rows sampled: head=" ++ Z_str head
                      ++ ", tail=" ++ Z_str (len - head))%string)
  /\ ((head + tail < len)%Z ->
      exists first middle last,
        rows = first ++ middle ++ last
        /\ sl_rows s = first ++ last
        /\ Z.of_nat (List.length first) = head
        /\ Z.of_nat (List.length last) = tail
        /\ middle <> []).
Proof.
  intros Hh Ht. cbv zeta. unfold _shrink_payload_for_prompt. cbn [sl_rows sl_note].
  rewrite (slice_to_nonneg head _ Hh).
  set (rows := p_rows p). set (len := Z.of_nat (List.length rows)).
  split; [|split].
  - intros Hl. destruct (Z.gtb_spec len (head + tail)) as [G|G]; [lia|].
    rewrite app_nil_r. apply firstn_all2. lia.
  - intros Hl. destruct (Z.gtb_spec len (head + tail)) as [G|G]; [lia|].
    rewrite app_nil_r. split; [reflexivity|].
    rewrite Z.min_l by lia. rewrite Z.max_r by lia. now rewrite Z.min_r by lia.
  - intros Hl. destruct (Z.gtb_spec len (head + tail)) as [G|G]; [|lia].
    rewrite (slice_from_last tail _ Ht).
    set (h := Z.to_nat head). set (t := Z.to_nat tail).
    set (n := List.length rows) in *.
    exists (firstn h rows), (firstn (n - h - t) (skipn h rows)), (skipn (n - t) rows).
    assert (Hs : skipn (n - t) rows = skipn (n - h - t) (skipn h rows)).
    { rewrite skipn_skipn. f_equal. lia. }
    repeat split.
    + rewrite Hs, firstn_skipn, firstn_skipn. reflexivity.
    + rewrite length_firstn. fold n. lia.
    + rewrite length_skipn. fold n. lia.
    + intros E. apply (f_equal (@List.length record)) in E.
      rewrite length_firstn, length_skipn in E. fold n in E. cbn in E. lia.
Qed.

Lemma shrink_sample_witness :
  sl_rows (_shrink_payload_for_prompt (numbered_rows 0 3) 2 2)
  = firstn 2 (p_rows (numbered_rows 0 3))
  /\ sl_note (_shrink_payload_for_prompt (numbered_rows 0 3) 2 2)
     = "rows sampled: head=2, tail=1".
Proof.
  apply (proj1 (proj2 (shrink_sample (numbered_rows 0 3) 2 2 ltac:(lia) ltac:(lia))));
    cbn; lia.
Defined.

(** X12. A tail of zero rows does not switch the tail off: beyond [head]
    rows the sample is the first [head] rows followed by every row of the
    payload, the first ones twice, and the note announces no tail. *)
Theorem shrink_without_tail (p : payload) (head : Z) :
  (0 <= head < Z.of_nat (List.length (p_rows p)))%Z ->
  let s := _shrink_payload_for_prompt p head 0 in
  sl_rows s = firstn (Z.to_nat head) (p_rows p) ++ p_rows p
  /\ sl_note s = ("rows sampled: head=" ++ Z_str head ++ ", tail=0")%string.
Proof.
  intros [Hh Hl]. cbv zeta. unfold _shrink_payload_for_prompt. cbn [sl_rows sl_note].
  rewrite (slice_to_nonneg head _ Hh).
  destruct (Z.gtb_spec (Z.of_nat (List.length (p_rows p))) (head + 0)) as [G|G]; [|lia].
  split; [reflexivity|].
  rewrite Z.min_l by lia. now rewrite Z.min_l by lia.
Qed.

Lemma shrink_without_tail_witness :
  List.length (sl_rows (_shrink_payload_for_prompt (numbered_rows 0 3) 2 0)) = 5%nat.
Proof.
  rewrite (proj1 (shrink_without_tail (numbered_rows 0 3) 2 ltac:(cbn; lia))).
  reflexivity.
Defined.

End PromptProps.

(** ** The display of a table *)

Module DisplayProps.
Import Text PandasText Formatters Pandas Pivoting Payload Insights Display
       PivotSpec ValidationSpec PivotFacts.
Local Open Scope list_scope.

(** The column labels of a pivot with row groups and column groups are
    tuples that start with the metric. *)
Lemma crosstab_columns (df : table) (index_cols columns_cols value_cols : list string)
      (agg_choice : aggregator) (p : frame) (msg : string) :
  build_pivot df index_cols columns_cols value_cols agg_choice = Returned (Some p, msg) ->
  index_cols <> [] -> columns_cols <> [] ->
  columns_multi p = true /\ (forall c, In c (columns p) -> c <> []).
Proof.
  unfold build_pivot. intros H Hi Hc.
  destruct index_cols as [|i idx]; [congruence|].
  destruct columns_cols as [|c cols]; [congruence|].
  cbn [is_nil andb] in H.
  destruct (is_nil value_cols); [discriminate|].
  apply bind_returned in H as (pvt & Hb & H).
  rewrite andb_false_r in H. injection H as <- _. cbn [columns columns_multi].
  unfold pivot_body in Hb.
  apply bind_returned in Hb as (df_vals & _ & Hb).
  apply bind_returned in Hb as (p0 & Hp & Hb).
  injection Hb as <-. cbn [columns columns_multi].
  unfold pivot_table in Hp.
  destruct (negb (forallb _ value_cols)); [discriminate|].
  destruct (negb (forallb _ _)); [discriminate|].
  destruct (existsb _ value_cols); [discriminate|].
  injection Hp as <-. cbn [columns columns_multi]. split; [reflexivity|].
  intros k Hk. apply in_flat_map in Hk as (m & _ & Hk).
  apply in_map_iff in Hk as (ck & <- & _). discriminate.
Qed.

(** X13. The display of a pivot that has both row groups and column
    groups raises [AttributeError], whatever the number format: the name of
    its first column is a tuple, which has no method [lower]. *)
Theorem display_of_crosstab_raises
        (fmt_2f fmt_sep_2f : Q -> string)
        (df : table) (index_cols columns_cols value_cols : list string)
        (agg_choice : aggregator) (p : frame) (msg num_format : string) :
  build_pivot df index_cols columns_cols value_cols agg_choice = Returned (Some p, msg) ->
  index_cols <> [] -> columns_cols <> [] -> columns p <> [] ->
  format_dataframe_for_display fmt_2f fmt_sep_2f (of_frame p) num_format
  = Raised "AttributeError".
Proof.
  intros H Hi Hc Hne.
  destruct (crosstab_columns _ _ _ _ _ _ _ H Hi Hc) as [Hm Hcols].
  unfold of_frame. rewrite Hm.
  destruct (columns p) as [|c cs]; [congruence|].
  cbn [List.length seq combine map format_dataframe_for_display].
  unfold format_column. cbn [c_numeric c_name fst snd].
  unfold is_percent_series.
  destruct c as [|l c]; [now specialize (Hcols [] (or_introl eq_refl))|].
  reflexivity.
Qed.

Lemma display_of_crosstab_raises_witness :
  exists p,
    build_pivot campaign_table ["Canal"] ["Format"] ["Impressions"] Sum
    = Returned (Some p, "")
    /\ format_dataframe_for_display (fun _ => "") (fun _ => "") (of_frame p) "Brut"
       = Raised "AttributeError".
Proof.
  destruct (build_pivot campaign_table ["Canal"] ["Format"] ["Impressions"] Sum)
    as [e|[[p|] msg]] eqn:E; try (vm_compute in E; discriminate).
  assert (Hmsg : msg = "").
  { pose proof E as E'. vm_compute in E'. now injection E'. }
  subst msg. exists p. split; [reflexivity|].
  apply (display_of_crosstab_raises _ _ _ _ _ _ _ _ _ _ E); try discriminate.
  pose proof E as E'. vm_compute in E'. injection E' as <-. discriminate.
Defined.

(** *** Percent columns *)

Lemma indicator_sum (s : list pyval) :
  (Qsum (map (fun v => indicator (in_unit (_numeric (Some v)))) s)
   == inject_Z (Z.of_nat
        (List.length (filter (fun v => in_unit (_numeric (Some v))) s))))%Q.
Proof.
  induction s as [|v s IH]; [reflexivity|].
  cbn [map filter]. unfold Qsum in *. cbn [fold_right]. rewrite IH.
  destruct (in_unit (_numeric (Some v))); cbn [indicator List.length].
  - rewrite Nat2Z.inj_succ, <- Z.add_1_l, inject_Z_plus. reflexivity.
  - ring.
Qed.

Lemma le_div_iff (a b c : Q) : (0 < c)%Q -> (a <= b / c)%Q <-> (a * c <= b)%Q.
Proof.
  intros Hc. split; [|now apply Qle_shift_div_l].
  intros H. apply (Qmult_le_compat_r _ _ c) in H; [|now apply Qlt_le_weak].
  assert (E : (b / c * c == b)%Q).
  { field. intros E. rewrite E in Hc. now apply Qlt_irrefl in Hc. }
  now rewrite E in H.
Qed.

(** X14. A series whose name does not hold [ctr] is a percent series
    exactly when it is not empty and at least four values in five lie
    between 0 and 1; missing values and text count as values that do
    not. *)
Theorem percent_by_values (name : series_name) (l : string) (s : list pyval) :
  name_lower name = Returned l -> contains "ctr" l = false ->
  exists b,
    is_percent_series name s = Returned b
    /\ (b = true <->
        s <> []
        /\ (4 * List.length s
            <= 5 * List.length (filter (fun v => in_unit (_numeric (Some v))) s))%nat).
Proof.
  intros Hn Hc. unfold is_percent_series. rewrite Hn. cbn [bind]. rewrite Hc.
  eexists. split; [reflexivity|].
  destruct s as [|v s]; [cbn; split; [discriminate|intros [E _]; congruence]|].
  set (vs := v :: s).
  set (flags := map _ vs).
  assert (Hf : flags <> []) by discriminate.
  assert (Hlen : List.length flags = List.length vs) by apply length_map.
  pose proof (indicator_sum vs) as Hsum. fold flags in Hsum.
  set (cnt := List.length (filter _ vs)) in *.
  destruct flags as [|f fl] eqn:Ef; [congruence|]. cbn [Qmean].
  rewrite <- Ef in *. unfold Q_leb. rewrite Qle_bool_iff.
  assert (Hpos : (0 < Qlength flags)%Q).
  { unfold Qlength. change 0%Q with (inject_Z 0). rewrite <- Zlt_Qlt.
    rewrite Hlen. cbn [vs List.length]. lia. }
  rewrite (le_div_iff _ _ _ Hpos), Hsum. unfold Qlength. rewrite Hlen.
  unfold Qle, Qmult, inject_Z. cbn [Qnum Qden].
  split; [intros H; split; [discriminate|lia]|intros [_ H]; lia].
Qed.

Lemma percent_by_values_witness :
  is_percent_series (Flat (LStr "Taux"))
                    [PNum (1 # 2); PNum (1 # 4); PNum 0; PNum 1; PNaN]
  = Returned true
  /\ is_percent_series (Flat (LStr "Taux"))
                       [PNum (1 # 2); PNum (1 # 4); PNum 0; PNaN; PNaN]
     = Returned false.
Proof.
  destruct (percent_by_values (Flat (LStr "Taux")) "taux"
              [PNum (1 # 2); PNum (1 # 4); PNum 0; PNum 1; PNaN]
              eq_refl eq_refl) as (b & Hb & Hiff).
  destruct (percent_by_values (Flat (LStr "Taux")) "taux"
              [PNum (1 # 2); PNum (1 # 4); PNum 0; PNaN; PNaN]
              eq_refl eq_refl) as (b' & Hb' & Hiff').
  split.
  - rewrite Hb. f_equal. apply Hiff. split; [discriminate|cbn; lia].
  - rewrite Hb'. f_equal. destruct b'; [|reflexivity].
    destruct (proj1 Hiff' eq_refl) as [_ H]. cbn in H. lia.
Defined.

(** *** What the display keeps *)

Lemma nth_error_map_nan (f : pyval -> pyval) (cells : list pyval) (i : nat) (v : pyval) :
  f PNaN = v -> nth_error cells i = Some PNaN -> nth_error (map f cells) i = Some v.
Proof.
  intros Hf H. rewrite nth_error_map, H. cbn. now rewrite Hf.
Qed.

Lemma format_column_shape (fmt_2f fmt_sep_2f : Q -> string)
      (num_format : string) (c c' : column) :
  format_column fmt_2f fmt_sep_2f num_format c = Returned c' ->
  c_name c' = c_name c
  /\ List.length (c_cells c') = List.length (c_cells c)
  /\ (c_numeric c = false -> c' = c)
  /\ (forall i, c_numeric c = true ->
                nth_error (c_cells c) i = Some PNaN ->
                match is_percent_series (c_name c) (c_cells c) with
                | Returned true => nth_error (c_cells c') i = Some (PStr "nan%")
                | Returned false =>
                    nth_error (c_cells c') i
                    = Some (if String.eqb num_format fmt_separators
                               || String.eqb num_format fmt_compact
                            then PStr "" else PNaN)
                | Raised _ => False
                end).
Proof.
  unfold format_column. destruct (c_numeric c) eqn:En.
  - destruct (is_percent_series (c_name c) (c_cells c)) as [e|[|]];
      cbn [bind]; [discriminate| |].
    + destruct (String.eqb num_format fmt_brut); intros [= <-];
        cbn [c_name c_cells];
        (split; [reflexivity|split; [apply length_map|split; [discriminate|]]]);
        intros i _ Hi; now apply nth_error_map_nan.
    + destruct (String.eqb num_format fmt_separators);
        [|destruct (String.eqb num_format fmt_compact)]; intros [= <-];
        cbn [c_name c_cells orb];
        (split; [reflexivity|split; [now rewrite ?length_map|split; [discriminate|]]]);
        intros i _ Hi; try (now apply nth_error_map_nan); exact Hi.
  - intros [= <-]. repeat split. intros i H. discriminate.
Qed.

(** X15. When the display returns, it has the columns of its input, under
    the same names and with as many values each; a column that is not
    numeric is returned as it is.  In a numeric column a missing value is
    shown as [nan%] when the column is a percent column, and otherwise as
    the empty text under both separator and compact formats and left
    missing under any other format. *)
Theorem display_keeps_shape (fmt_2f fmt_sep_2f : Q -> string)
        (df out : dataframe) (num_format : string) :
  format_dataframe_for_display fmt_2f fmt_sep_2f df num_format = Returned out ->
  Forall2
    (fun c c' =>
       c_name c' = c_name c
       /\ List.length (c_cells c') = List.length (c_cells c)
       /\ (c_numeric c = false -> c' = c)
       /\ (forall i, c_numeric c = true ->
                     nth_error (c_cells c) i = Some PNaN ->
                     match is_percent_series (c_name c) (c_cells c) with
                     | Returned true => nth_error (c_cells c') i = Some (PStr "nan%")
                     | Returned false =>
                         nth_error (c_cells c') i
                         = Some (if String.eqb num_format fmt_separators
                                    || String.eqb num_format fmt_compact
                                 then PStr "" else PNaN)
                     | Raised _ => False
                     end))
    df out.
Proof.
  revert out. induction df as [|c df IH]; intros out H;
    cbn [format_dataframe_for_display] in H.
  - injection H as <-. constructor.
  - apply bind_returned in H as (c' & Hc & H).
    apply bind_returned in H as (rest & Hr & H). injection H as <-.
    constructor; [now apply (format_column_shape fmt_2f fmt_sep_2f)|now apply IH].
Qed.

Lemma display_keeps_shape_witness :
  exists out,
    format_dataframe_for_display (fun _ => "0.00") (fun _ => "0.00")
      [mkcolumn (Flat (LStr "Canal")) false [PStr "A"; PStr "B"];
       mkcolumn (Flat (LStr "CTR")) true [PNum (1 # 10); PNaN];
       mkcolumn (Flat (LStr "Spend")) true [PNum 1200; PNaN]]
      fmt_compact
    = Returned out
    /\ List.length out = 3%nat.
Proof.
  destruct (format_dataframe_for_display _ _ _ fmt_compact) as [e|out] eqn:E;
    [vm_compute in E; discriminate|].
  exists out. split; [reflexivity|]. symmetry.
  apply (Forall2_length (display_keeps_shape _ _ _ _ _ E)).
Defined.

End DisplayProps.

(** ** From the table to the analysis: what the pivot guarantees *)

Module PipelineEdges.
Import Text PandasText Formatters Pandas Pivoting Payload Insights
       PivotSpec PayloadSpec PipelineSpec ValidationSpec PivotFacts PivotProps
       PipelineFacts SortFacts AnalysisEdges.
Local Open Scope list_scope.

Lemma length_flat_map_const {A B C : Type} (f : A -> B -> C)
      (xs : list A) (l : list B) :
  List.length (flat_map (fun x => map (f x) l) xs)
  = (List.length xs * List.length l)%nat.
Proof.
  induction xs as [|x xs IH]; cbn [flat_map List.length]; [reflexivity|].
  now rewrite length_app, length_map, IH.
Qed.

Lemma agged_cells (t : table) (keys values : list string) (a : aggregator)
      (r : key * list (option Q)) :
  In r (agged t keys values a) -> List.length (snd r) = List.length values.
Proof.
  unfold agged, dropna_all, grouped_cells. intros H.
  apply filter_In in H as [H _]. apply in_map_iff in H as (g & <- & _).
  cbn [snd]. unfold agg_group. now rewrite length_map, length_seq.
Qed.

(** Every row of a pivot table has one cell per column. *)
Lemma pivot_table_rows (data : table) (index columns_ values : list string)
      (a : aggregator) (fill_value : Q) (pvt : frame) :
  pivot_table data index columns_ values a fill_value = Returned pvt ->
  forall r, In r (rows pvt) -> List.length (snd r) = List.length (columns pvt).
Proof.
  unfold pivot_table.
  destruct (negb (forallb _ values)); [discriminate|].
  destruct (negb (forallb _ (index ++ columns_))); [discriminate|].
  destruct (existsb _ values); [discriminate|].
  destruct index as [|i idx], columns_ as [|c cols]; [discriminate| | |];
    intros [= <-] r Hr; cbn [rows columns] in *.
  - apply in_map_iff in Hr as (jm & <- & _). cbn [snd].
    now rewrite !length_map.
  - apply in_map_iff in Hr as (r0 & <- & Hr0). cbn [snd].
    rewrite length_map, (agged_cells _ _ _ _ _ Hr0).
    destruct (agged _ _ _ _) as [|g gs]; [destruct Hr0|].
    now rewrite length_map.
  - apply in_map_iff in Hr as (rk & <- & _). cbn [snd].
    rewrite (length_flat_map_const (fun m ck => LStr m :: ck)).
    rewrite (length_flat_map_const
               (fun j ck =>
                  fillna fill_value
                    match find (fun r => key_eqb (fst r) (rk ++ ck))
                               (agged data ((i :: idx) ++ c :: cols)
                                      (sort String.leb values) a) with
                    | Some r => nth j (snd r) None
                    | None => Some fill_value
                    end)).
    now rewrite length_seq.
Qed.

Lemma pivot_body_cells (df : table) (index_cols columns_cols value_cols : list string)
      (agg_choice : aggregator) (pvt : frame) :
  pivot_body df index_cols columns_cols value_cols agg_choice = Returned pvt ->
  forall r, In r (rows pvt) -> List.length (snd r) = List.length (columns pvt).
Proof.
  unfold pivot_body. intros H.
  apply bind_returned in H as (df_vals & _ & H).
  apply bind_returned in H as (p0 & Hp & H). injection H as <-.
  cbn [rows columns]. intros r Hr. apply filter_In in Hr as [Hr _].
  now apply (pivot_table_rows _ _ _ _ _ _ _ Hp).
Qed.

Lemma frame_sum_length (n : nat) (rs : list (key * list (option Q))) :
  List.length (some_cells (frame_sum n rs)) = n.
Proof. unfold some_cells, frame_sum. now rewrite !length_map, length_seq. Qed.

(** The columns of the returned pivot are those of its body. *)
Lemma build_pivot_columns (df : table) (index_cols columns_cols value_cols : list string)
      (agg_choice : aggregator) (p pvt : frame) (msg : string) :
  build_pivot df index_cols columns_cols value_cols agg_choice = Returned (Some p, msg) ->
  pivot_body df index_cols columns_cols value_cols agg_choice = Returned pvt ->
  columns p = columns pvt /\ columns_multi p = columns_multi pvt
  /\ index_names p = index_names pvt /\ index_multi p = index_multi pvt.
Proof.
  unfold build_pivot. intros H Hb.
  destruct (is_nil index_cols && is_nil columns_cols); [discriminate|].
  destruct (is_nil value_cols); [discriminate|].
  rewrite Hb in H. cbn [bind] in H.
  destruct (index_multi pvt && Nat.leb 2 (nlevels pvt) && is_nil columns_cols) eqn:Hc.
  - apply bind_returned in H as (out & Hout & H). injection H as <- _.
    apply andb_true_iff in Hc as [Hc _].
    destruct (subtotal_branch_levels pvt out Hc Hout) as (Hm & H2 & Hne).
    rewrite (add_subtotals_two_levels pvt Hm H2 Hne) in Hout.
    injection Hout as <-. now cbn.
  - injection H as <- _. now cbn.
Qed.

(** The rows of the returned pivot, one by one. *)
Lemma pivot_rows_cells
        (df : table) (index_cols columns_cols value_cols : list string)
        (agg_choice : aggregator) (p : frame) (msg : string) :
  build_pivot df index_cols columns_cols value_cols agg_choice = Returned (Some p, msg) ->
  forall r, In r (rows p) -> List.length (snd r) = List.length (columns p).
Proof.
  intros H.
  destruct (build_pivot_cases _ _ _ _ _ _ _ H) as (pvt & Hb & Hcase).
  destruct (build_pivot_columns _ _ _ _ _ _ _ _ H Hb) as (Hcols & _).
  rewrite Hcols. pose proof (pivot_body_cells _ _ _ _ _ _ Hb) as Hbody.
  destruct (index_multi pvt && Nat.leb 2 (nlevels pvt) && is_nil columns_cols) eqn:Hc.
  - apply andb_true_iff in Hc as [Hc _].
    destruct (subtotal_branch_levels pvt p Hc Hcase) as (Hm & H2 & Hne).
    rewrite (add_subtotals_two_levels pvt Hm H2 Hne) in Hcase.
    injection Hcase as <-. cbn [rows]. intros r Hr.
    apply in_app_or in Hr as [Hr|[<-|[]]];
      [|cbn [snd]; apply frame_sum_length].
    unfold with_subtotals in Hr. apply in_flat_map in Hr as (g & _ & Hr).
    apply in_app_or in Hr as [Hr|[<-|[]]].
    + unfold member_rows, xs in Hr. apply filter_In in Hr as [Hr _].
      now apply Hbody.
    + cbn [subtotal_row snd]. apply frame_sum_length.
  - rewrite Hcase. intros r Hr.
    apply in_app_or in Hr as [Hr|[<-|[]]]; [now apply Hbody|].
    cbn [snd]. apply frame_sum_length.
Qed.

(** X16. Every row of the pivot that [build_pivot] returns, the subtotal
    rows and the Total row included, has exactly one cell per column,
    whichever of the three shapes the pivot has. *)
Theorem pivot_rows_well_formed
        (df : table) (index_cols columns_cols value_cols : list string)
        (agg_choice : aggregator) (p : frame) (msg : string) :
  build_pivot df index_cols columns_cols value_cols agg_choice = Returned (Some p, msg) ->
  Forall (fun r => List.length (snd r) = List.length (columns p)) (rows p).
Proof.
  intros H. apply Forall_forall. now apply (pivot_rows_cells _ _ _ _ _ _ _ H).
Qed.

Lemma pivot_rows_well_formed_witness :
  exists p,
    build_pivot campaign_table ["Canal"; "Format"] [] ["Clicks"; "Impressions"] Sum
    = Returned (Some p, "")
    /\ forall r, In r (rows p) -> List.length (snd r) = 2%nat.
Proof.
  destruct (build_pivot campaign_table ["Canal"; "Format"] []
                        ["Clicks"; "Impressions"] Sum)
    as [e|[[p|] msg]] eqn:E; try (vm_compute in E; discriminate).
  assert (Hmsg : msg = "").
  { pose proof E as E'. vm_compute in E'. now injection E'. }
  subst msg. exists p. split; [reflexivity|].
  intros r Hr.
  pose proof (pivot_rows_well_formed _ _ _ _ _ _ _ E) as Hw.
  rewrite Forall_forall in Hw. rewrite (Hw r Hr).
  pose proof E as E'. vm_compute in E'. injection E' as <-. reflexivity.
Defined.

(** *** The analysis of a pivot built without column groups *)

Lemma pivot_body_flat_columns (df : table) (index_cols value_cols : list string)
      (agg_choice : aggregator) (pvt : frame) :
  pivot_body df index_cols [] value_cols agg_choice = Returned pvt ->
  columns pvt = match rows pvt with
                | [] => []
                | _ :: _ => map (fun m => [LStr m]) (sort String.leb value_cols)
                end
  /\ columns_multi pvt = false.
Proof.
  unfold pivot_body. intros H.
  apply bind_returned in H as (df_vals & _ & H).
  apply bind_returned in H as (p0 & Hp & H). injection H as <-.
  cbn [columns columns_multi rows]. unfold pivot_table in Hp.
  destruct (negb (forallb _ value_cols)); [discriminate|].
  destruct (negb (forallb _ (index_cols ++ []))); [discriminate|].
  destruct (existsb _ value_cols); [discriminate|].
  destruct index_cols as [|i idx]; [discriminate|].
  injection Hp as <-. cbn [columns columns_multi rows]. split; [|reflexivity].
  unfold agged. rewrite MissingFacts.dropna_filled.
  now destruct (dropna_all _).
Qed.

Lemma get_after (l1 l2 : list string) (v1 v2 : list pyval) (n : string) (v : pyval) :
  List.length l1 = List.length v1 ->
  (forall x, In x l1 -> String.eqb x n = false) ->
  get (combine (l1 ++ n :: l2) (v1 ++ v :: v2)) n = Some v.
Proof.
  revert v1. induction l1 as [|x l1 IH]; intros [|y v1] Hl Hn;
    try discriminate Hl; cbn [app combine get].
  - now rewrite String.eqb_refl.
  - rewrite (Hn x (or_introl eq_refl)). apply IH; [now injection Hl|].
    intros z Hz. apply Hn. now right.
Qed.

Lemma payload_columns (number_str : dec -> string) (pvt : frame) (max_rows : Z)
      (pay : payload) :
  pivot_to_payload number_str pvt max_rows = Returned pay ->
  p_columns pay = level_names pvt ++ flat_names number_str pvt
  /\ names_clash number_str pvt = false.
Proof.
  unfold pivot_to_payload. fold (nlevels pvt). fold (flat_names number_str pvt).
  fold (level_names pvt). fold (names_clash number_str pvt).
  destruct (names_clash number_str pvt); [discriminate|]. intros [= <-]. now split.
Qed.

Lemma is_number_cell (c : option Q) : is_number (Some (cell_val c)) = true.
Proof. now destruct c. Qed.

(** X17. The analysis never raises on the payload of a pivot built
    without column groups, as the application builds it, when the pivot has
    a row besides the Total row and the payload keeps at least one row: the
    payload then has a metric column that holds a number, so a primary
    metric is always found.  (A pivot in which no group is left has no
    metric column.) *)
Theorem analysis_of_built_pivot_returns
        (number_str : dec -> string)
        (df : table) (index_cols value_cols : list string)
        (agg_choice : aggregator) (p : frame) (msg : string)
        (max_rows : Z) (pay : payload) :
  build_pivot df index_cols [] value_cols agg_choice = Returned (Some p, msg) ->
  (2 <= List.length (rows p))%nat ->
  pivot_to_payload number_str p max_rows = Returned pay ->
  1 <= max_rows ->
  exists a, _analyze_payload pay = Returned a.
Proof.
  intros H Hbody Hpay Hmax.
  destruct (build_pivot_cases _ _ _ _ _ _ _ H) as (pvt & Hb & Hcase).
  destruct (build_pivot_columns _ _ _ _ _ _ _ _ H Hb) as (Hcols & Hmulti & _).
  destruct (pivot_body_flat_columns _ _ _ _ _ Hb) as (Hc & Hm).
  assert (Hne : rows pvt <> []).
  { destruct (index_multi pvt && Nat.leb 2 (nlevels pvt) && is_nil []) eqn:Hs.
    - apply andb_true_iff in Hs as [Hs _].
      now destruct (subtotal_branch_levels pvt p Hs Hcase) as (_ & _ & Hne).
    - intros E. rewrite Hcase, E in Hbody. cbn in Hbody. lia. }
  destruct (rows pvt) as [|b0 body] eqn:Eb; [congruence|]. clear Hne.
  rewrite Hc in Hcols. rewrite Hm in Hmulti.
  assert (Hv : value_cols <> []).
  { unfold build_pivot in H. destruct (is_nil index_cols && is_nil []); [discriminate|].
    destruct value_cols; [discriminate|discriminate]. }
  destruct (sort String.leb value_cols) as [|m0 ms] eqn:Es.
  { apply (f_equal (@List.length string)) in Es. rewrite sort_length in Es.
    destruct value_cols; [congruence|discriminate]. }
  destruct (rows p) as [|r0 rest] eqn:Er; [cbn in Hbody; lia|].
  assert (Hlen : List.length (snd r0) = List.length (columns p)).
  { apply (pivot_rows_cells _ _ _ _ _ _ _ H). rewrite Er. now left. }
  rewrite Hcols in Hlen. cbn [map List.length] in Hlen.
  destruct r0 as [k0 [|c0 cs]]; [discriminate|].
  destruct (payload_columns _ _ _ _ Hpay) as (Hpc & Hclash).
  assert (Hflat : flat_names number_str p = m0 :: map (fun m => m) ms).
  { unfold flat_names. rewrite Hcols, Hmulti. cbn [map flat_name label_str].
    f_equal. rewrite map_map. reflexivity. }
  assert (Hrec : In (record_of number_str p (k0, c0 :: cs)) (p_rows pay)).
  { rewrite (payload_rows _ _ _ _ Hpay) by lia. rewrite Er.
    destruct (Z.to_nat max_rows) as [|n] eqn:En; [lia|]. now left. }
  assert (Hget : get (record_of number_str p (k0, c0 :: cs)) m0 = Some (cell_val c0)).
  { unfold record_of, reset_row. rewrite Hflat. cbn [snd map].
    apply get_after.
    - unfold level_names. rewrite !length_map, length_combine, length_seq.
      unfold nlevels. lia.
    - intros x Hx. unfold names_clash in Hclash.
      destruct (String.eqb x m0) eqn:E; [|reflexivity].
      assert (Ht : existsb (fun n => existsb (String.eqb n) (flat_names number_str p))
                           (level_names p) = true).
      { apply existsb_exists. exists x. split; [exact Hx|].
        rewrite Hflat. cbn [existsb]. now rewrite E. }
      congruence. }
  destruct (primary_of_number pay m0 (record_of number_str p (k0, c0 :: cs))) as [k Hk].
  - rewrite Hpc, Hflat. apply in_or_app. right. now left.
  - exact Hrec.
  - rewrite Hget. apply is_number_cell.
  - pose proof (analysis_of_primary pay) as Ha. now rewrite Hk in Ha.
Qed.

Lemma analysis_of_built_pivot_returns_witness :
  exists p pay a,
    build_pivot sample_table ["Canal"] [] ["Clicks"] Sum = Returned (Some p, "")
    /\ pivot_to_payload sample_number_str p default_max_rows = Returned pay
    /\ _analyze_payload pay = Returned a.
Proof.
  destruct (build_pivot sample_table ["Canal"] [] ["Clicks"] Sum)
    as [e|[[p|] msg]] eqn:E; try (vm_compute in E; discriminate).
  assert (Hmsg : msg = "").
  { pose proof E as E'. vm_compute in E'. now injection E'. }
  subst msg.
  assert (Hrows : (2 <= List.length (rows p))%nat).
  { pose proof E as E'. vm_compute in E'. injection E' as <-. cbn. lia. }
  destruct (pivot_to_payload sample_number_str p default_max_rows) as [e|pay] eqn:P.
  { pose proof E as E'. vm_compute in E'. injection E' as <-.
    vm_compute in P. discriminate. }
  destruct (analysis_of_built_pivot_returns _ _ _ _ _ _ _ _ _ E Hrows P) as [a Ha];
    [unfold default_max_rows; lia|].
  exists p, pay, a. repeat split; [exact P|exact Ha].
Defined.

End PipelineEdges.

(** ** Numeric normalization: texts with more than one separator *)

Module SeparatorProps.
Import Text PandasText Formatters SeparatorSpec TextFacts.
Local Open Scope list_scope.

Lemma count_char_app (c : ascii) (a b : string) :
  count_char c (a ++ b) = (count_char c a + count_char c b)%nat.
Proof.
  induction a as [|d a IH]; cbn [append count_char]; [reflexivity|].
  rewrite IH. lia.
Qed.

Lemma prefix_one (x d : ascii) (rest : string) :
  String.prefix (String x "") (String d rest) = if ascii_dec x d then true else false.
Proof.
  cbn [String.prefix]. destruct (ascii_dec x d); [now destruct rest|reflexivity].
Qed.

(** Replacing one character by a text. *)
Lemma count_replace_char (c x : ascii) (new s : string) :
  count_char c (replace (String x "") new s)
  = (count_char c s
     + count_char x s * count_char c new
     - (if Ascii.eqb c x then count_char x s else 0))%nat.
Proof.
  unfold replace. induction s as [|d s IH]; [reflexivity|].
  cbn [replace_from String.length Nat.sub]. rewrite prefix_one.
  destruct (ascii_dec x d) as [->|ne].
  - rewrite count_char_app, IH. cbn [count_char]. rewrite Ascii.eqb_refl.
    destruct (Ascii.eqb_spec c d) as [->|]; nia.
  - cbn [count_char]. rewrite IH.
    apply Ascii.eqb_neq in ne. rewrite ne.
    destruct (Ascii.eqb_spec c x) as [->|].
    + rewrite ne. nia.
    + destruct (Ascii.eqb c d); nia.
Qed.

(** Removing a text of two characters leaves the other characters. *)
Lemma count_remove_pair (c a b : ascii) (s : string) :
  c <> a -> c <> b ->
  count_char c (replace (String a (String b "")) "" s) = count_char c s.
Proof.
  intros Ha Hb. unfold replace.
  assert (H : count_char c (replace_from 0 (String a (String b "")) "" s)
              = count_char c s
              /\ match s with
                 | String _ r =>
                     count_char c (replace_from 0 (String a (String b "")) "" r)
                     = count_char c r
                 | EmptyString => True
                 end).
  { induction s as [|d s [IH1 IH2]]; [now split|]. split; [|exact IH1].
    cbn [replace_from String.length Nat.sub].
    destruct (String.prefix (String a (String b "")) (String d s)) eqn:P.
    - cbn [String.prefix] in P. destruct (ascii_dec a d) as [<-|]; [|discriminate].
      destruct s as [|e r]; cbn [String.prefix] in P; [discriminate|].
      destruct (ascii_dec b e) as [<-|]; [|discriminate].
      cbn [append replace_from count_char]. rewrite IH2.
      apply Ascii.eqb_neq in Ha, Hb. rewrite Ha, Hb. reflexivity.
    - cbn [count_char]. now rewrite IH1. }
  exact (proj1 H).
Qed.

(** After the three replacements, the dots are the dots and the commas of
    the text. *)
Lemma clean_dots (s : string) : count_char "." (clean s) = separators s.
Proof.
  unfold clean, separators, nbsp.
  rewrite count_replace_char. cbn [Ascii.eqb Bool.eqb count_char Nat.add].
  rewrite !count_replace_char. cbn [Ascii.eqb Bool.eqb count_char Nat.add].
  rewrite !count_remove_pair by discriminate. lia.
Qed.

Lemma span_digits_split (s ds tl : string) :
  span_digits s = (ds, tl) -> s = (ds ++ tl)%string /\ count_char "." ds = 0%nat.
Proof.
  revert ds tl. induction s as [|c s IH]; intros ds tl H; cbn [span_digits] in H.
  - injection H as <- <-. now split.
  - destruct (is_digit c) eqn:D.
    + destruct (span_digits s) as [ds' tl'] eqn:E. injection H as <- <-.
      destruct (IH _ _ eq_refl) as [-> Hc]. split; [reflexivity|].
      cbn [count_char]. rewrite Hc.
      destruct (Ascii.eqb_spec "."%char c) as [<-|]; [discriminate D|reflexivity].
    + injection H as <- <-. now split.
Qed.

Lemma parse_sign_dots (s s1 : string) (neg : bool) :
  parse_sign s = (neg, s1) -> count_char "." s = count_char "." s1.
Proof.
  unfold parse_sign. destruct s as [|c r]; [now intros [= _ <-]|].
  destruct c as [[] [] [] [] [] [] [] []]; intros [= _ <-]; reflexivity.
Qed.

Lemma parse_exponent_dots (s : string) :
  parse_exponent s <> None -> count_char "." s = 0%nat.
Proof.
  unfold parse_exponent. destruct (parse_sign s) as [neg s1] eqn:Es.
  destruct (span_digits s1) as [ds tl] eqn:Ed.
  rewrite (parse_sign_dots _ _ _ Es).
  destruct (span_digits_split _ _ _ Ed) as [-> Hc].
  destruct ds; [congruence|]. destruct tl; [|congruence].
  intros _. now rewrite count_char_app, Hc.
Qed.

Lemma parse_decimal_dots (s : string) :
  parse_decimal s <> None -> (count_char "." s <= 1)%nat.
Proof.
  unfold parse_decimal. destruct (parse_sign s) as [neg s1] eqn:Es.
  destruct (span_digits s1) as [ip s2] eqn:Ei.
  rewrite (parse_sign_dots _ _ _ Es).
  destruct (span_digits_split _ _ _ Ei) as [-> Hip].
  rewrite count_char_app, Hip.
  assert (Htail : forall fp s3 (k : nat),
             count_char "." s2 = (k + count_char "." s3)%nat -> (k <= 1)%nat ->
             match (ip ++ fp)%string with
             | EmptyString => None
             | String _ _ =>
                 match digits_value (ip ++ fp) with
                 | None => None
                 | Some m =>
                     match s3 with
                     | EmptyString =>
                         Some (mkdec (signed neg m) (- Z.of_nat (String.length fp)))
                     | String c rest =>
                         if is_exp_mark c
                         then option_map
                                (fun e => mkdec (signed neg m)
                                                (e - Z.of_nat (String.length fp)))
                                (parse_exponent rest)
                         else None
                     end
                 end
             end <> None ->
             (0 + count_char "." s2 <= 1)%nat).
  { intros fp s3 k Hk Hle H. rewrite Hk.
    destruct (ip ++ fp)%string; [congruence|].
    destruct (digits_value _); [|congruence].
    destruct s3 as [|c rest]; [cbn; lia|].
    destruct (is_exp_mark c) eqn:Ex; [|congruence].
    assert (Hr : count_char "." rest = 0%nat).
    { apply parse_exponent_dots. destruct (parse_exponent rest); [discriminate|].
      cbn in H. congruence. }
    cbn [count_char]. rewrite Hr.
    destruct (Ascii.eqb_spec "."%char c) as [<-|]; [discriminate Ex|lia]. }
  destruct s2 as [|c rest] eqn:E2.
  - apply (Htail "" "" 0%nat); [reflexivity|lia].
  - destruct (Ascii.eqb_spec "."%char c) as [<-|ne].
    + destruct (span_digits rest) as [fp s3] eqn:Ef.
      destruct (span_digits_split _ _ _ Ef) as [-> Hfp].
      apply (Htail fp s3 1%nat); [|lia].
      cbn [count_char Ascii.eqb Bool.eqb]. rewrite count_char_app, Hfp. lia.
    + assert (Hm : match c with
                   | "."%char => span_digits rest
                   | _ => (EmptyString, String c rest)
                   end = (EmptyString, String c rest)).
      { destruct c as [[] [] [] [] [] [] [] []]; try reflexivity. congruence. }
      rewrite Hm. apply (Htail "" (String c rest) 0%nat); [reflexivity|lia].
Qed.

Lemma count_lstrip (s : string) :
  count_char "." (lstrip s) = count_char "." s.
Proof.
  induction s as [|c s IH]; [reflexivity|]. cbn [lstrip].
  destruct (is_space c) eqn:E; [|reflexivity].
  rewrite IH. cbn [count_char].
  destruct (Ascii.eqb_spec "."%char c) as [<-|]; [discriminate E|reflexivity].
Qed.

Lemma count_rev_string (s acc : string) :
  count_char "." (rev_string s acc)
  = (count_char "." s + count_char "." acc)%nat.
Proof.
  revert acc. induction s as [|c s IH]; intros acc; [reflexivity|].
  cbn [rev_string]. rewrite IH. cbn [count_char]. lia.
Qed.

Lemma count_strip (s : string) : count_char "." (strip s) = count_char "." s.
Proof.
  unfold strip. rewrite count_rev_string, count_lstrip, count_rev_string, count_lstrip.
  cbn [count_char]. lia.
Qed.

(** A text that is read as a number has at most one dot. *)
Lemma parse_number_dots (s : string) :
  parse_number s <> None -> (count_char "." s <= 1)%nat.
Proof.
  unfold parse_number. intros H. rewrite <- count_strip.
  now apply parse_decimal_dots.
Qed.

(** X18. A text with two or more decimal separators, dots or commas, is
    never read as a number: [to_num] turns it into a missing value.  So
    are the numbers written with a thousands separator other than a
    space. *)
Theorem to_num_two_separators (series : list cell) (i : nat) (s : string) :
  nth_error series i = Some (CStr s) -> (2 <= separators s)%nat ->
  nth_error (to_num series) i = Some CNaN.
Proof.
  intros Hi Hs. unfold to_num. rewrite nth_error_map, Hi. cbn [option_map astype_str].
  f_equal. unfold to_numeric_coerce.
  destruct (parse_number (clean s)) as [d|] eqn:P; [|reflexivity].
  assert (Hd : (count_char "." (clean s) <= 1)%nat)
    by (apply parse_number_dots; congruence).
  rewrite clean_dots in Hd. lia.
Qed.

Lemma to_num_two_separators_witness :
  to_num [CStr "12,5"; CStr "1,234.56"; CStr "1.234,56"]
  = [CNum (mkdec 125 (-1)); CNaN; CNaN].
Proof.
  pose proof (to_num_two_separators
                [CStr "12,5"; CStr "1,234.56"; CStr "1.234,56"] 1 "1,234.56"
                eq_refl ltac:(cbn; lia)) as H1.
  pose proof (to_num_two_separators
                [CStr "12,5"; CStr "1,234.56"; CStr "1.234,56"] 2 "1.234,56"
                eq_refl ltac:(cbn; lia)) as H2.
  destruct (to_num [CStr "12,5"; CStr "1,234.56"; CStr "1.234,56"])
    as [|a [|b [|c [|]]]] eqn:E; try (vm_compute in E; discriminate).
  cbn in H1, H2. injection H1 as ->. injection H2 as ->.
  vm_compute in E. injection E as <-. reflexivity.
Defined.

End SeparatorProps.

(** ** Loading a table *)

Module FileIOProps.
Import Text PandasText Pandas Pivoting Insights Display SeparatorSpec FileIO
       ValidationSpec.
Local Open Scope list_scope.

Lemma clean_table_names (t : table) :
  Forall (fun col => starts_unnamed (fst col) = false) (clean_table t).
Proof.
  unfold clean_table. apply Forall_forall. intros col H.
  apply in_map_iff in H as (c & <- & Hc). apply filter_In in Hc as [_ Hc].
  cbn [fst]. now apply negb_true_iff.
Qed.

(** X19. What a loaded CSV is.  When [load_table] returns for a file that
    is not named as an Excel file, the file is not empty and does not start
    with the signature of an archive, and the table is the cleaning of what
    the parser read with the guessed separator or, failing that, with the
    alternative one; the parse did not have exactly one column, and no
    column of the table is called [Unnamed...]. *)
Theorem load_table_csv_result
        (read_excel : upload -> outcome table) (decode : string -> string)
        (sniff : string -> outcome string) (first_line_of : string -> string)
        (read_csv : string -> string -> outcome table)
        (f : upload) (df : table) :
  load_table read_excel decode sniff first_line_of read_csv (Some f) = Returned df ->
  is_excel_name (u_name f) = false ->
  u_raw f <> ""
  /\ String.prefix "PK" (u_raw f) = false
  /\ (exists sep parsed,
        let guessed := guess_separator sniff first_line_of (decode (u_raw f)) in
        (sep = guessed
         \/ (sep = alternative guessed
             /\ exists one, read_csv (decode (u_raw f)) guessed = Returned [one]))
        /\ read_csv (decode (u_raw f)) sep = Returned parsed
        /\ List.length parsed <> 1%nat
        /\ df = clean_table parsed)
  /\ Forall (fun col => starts_unnamed (fst col) = false) df.
Proof.
  unfold load_table. intros H Hx. rewrite Hx in H. cbv zeta in H.
  destruct (u_raw f) as [|c raw]; [discriminate|].
  destruct (String.prefix "PK" (String c raw)) eqn:Hpk; [discriminate|].
  split; [discriminate|]. split; [reflexivity|].
  set (text := decode (String c raw)) in *.
  set (guessed := guess_separator sniff first_line_of text) in *.
  apply bind_returned in H as (df1 & H1 & H).
  apply bind_returned in H as (df2 & H2 & H).
  destruct (Nat.eqb (List.length df2) 1) eqn:E2; [discriminate|].
  injection H as <-. apply Nat.eqb_neq in E2.
  split; [|apply clean_table_names].
  destruct (Nat.eqb (List.length df1) 1) eqn:E1.
  - exists (alternative guessed), df2. cbv zeta. repeat split; auto.
    right. split; [reflexivity|]. apply Nat.eqb_eq in E1.
    destruct df1 as [|one [|]]; try discriminate. now exists one.
  - injection H2 as <-. exists guessed, df1. cbv zeta. repeat split; auto.
Qed.

Lemma load_table_csv_result_witness :
  u_raw (mkupload "donnees.csv" "a;") <> ""
  /\ Forall (fun col => starts_unnamed (fst col) = false)
            [("a", [CNum (mkdec 1 0)])].
Proof.
  destruct (load_table_csv_result
              (fun _ => Raised "ImportError") (fun raw => raw)
              (fun _ => Raised "Error") (fun text => text)
              (fun text sep =>
                 if String.eqb sep ";"
                 then Returned [("a", [CNum (mkdec 1 0)]); ("Unnamed: 1", [CNaN])]
                 else Returned [("a;", [CStr "1;"])])
              (mkupload "donnees.csv" "a;")
              [("a", [CNum (mkdec 1 0)])] eq_refl eq_refl) as (H1 & _ & _ & H4).
  split; [exact H1|exact H4].
Defined.

(** *** Rows that the cleaning leaves empty *)

Lemma dropna_rows_in (t : table) (i : nat) :
  In i (dropna_rows t)
  <-> (i < row_count t)%nat
      /\ exists col, In col t /\ notna (nth i (snd col) CNaN) = true.
Proof.
  unfold dropna_rows. rewrite filter_In, in_seq, existsb_exists.
  split; intros [H1 H2]; (split; [lia|exact H2]).
Qed.

(** X20. The cleaning chooses the rows on all the columns and then
    removes the columns called [Unnamed...]: every row it keeps has a
    value in some column of what was parsed, and a row whose only values
    sit in removed columns is kept and comes out entirely empty. *)
Theorem clean_table_rows (t : table) :
  (forall col, In col (clean_table t) ->
               List.length (snd col) = List.length (dropna_rows t))
  /\ (forall i, In i (dropna_rows t) ->
                exists col, In col t /\ notna (nth i (snd col) CNaN) = true)
  /\ (forall i,
        (i < row_count t)%nat ->
        (exists col, In col t /\ starts_unnamed (fst col) = true
                     /\ notna (nth i (snd col) CNaN) = true) ->
        (forall col, In col t -> starts_unnamed (fst col) = false ->
                     nth i (snd col) CNaN = CNaN) ->
        exists j, (j < List.length (dropna_rows t))%nat
                  /\ forall col, In col (clean_table t) ->
                                 nth_error (snd col) j = Some CNaN).
Proof.
  split; [|split].
  - intros col H. unfold clean_table in H.
    apply in_map_iff in H as (c & <- & _). cbn [snd]. apply length_map.
  - intros i Hi. now apply dropna_rows_in in Hi.
  - intros i Hi (u & Hu & _ & Hv) Hnamed.
    assert (Hin : In i (dropna_rows t))
      by (apply dropna_rows_in; split; [exact Hi|now exists u]).
    destruct (In_nth _ _ 0%nat Hin) as (j & Hj & Hnth).
    exists j. split; [exact Hj|]. intros col Hc. unfold clean_table in Hc.
    apply in_map_iff in Hc as (c & <- & Hc). apply filter_In in Hc as [Hc Hn].
    apply negb_true_iff in Hn. cbn [snd].
    rewrite nth_error_map, (nth_error_nth' _ 0%nat Hj), Hnth. cbn [option_map].
    f_equal. now apply Hnamed.
Qed.

Lemma clean_table_rows_witness :
  exists j,
    (j < List.length (dropna_rows
                        [("a", [CNum (mkdec 1 0); CNaN]);
                         ("Unnamed: 1", [CNaN; CStr "x"])]))%nat
    /\ forall col,
        In col (clean_table [("a", [CNum (mkdec 1 0); CNaN]);
                             ("Unnamed: 1", [CNaN; CStr "x"])]) ->
        nth_error (snd col) j = Some CNaN.
Proof.
  apply (proj2 (proj2 (clean_table_rows
                         [("a", [CNum (mkdec 1 0); CNaN]);
                          ("Unnamed: 1", [CNaN; CStr "x"])])) 1%nat).
  - cbn. lia.
  - exists ("Unnamed: 1", [CNaN; CStr "x"]). cbn. auto.
  - intros col [<-|[<-|[]]]; [reflexivity|discriminate].
Defined.

End FileIOProps.

(** ** The Total row of a pivot of sums *)

Module TotalProps.
Import Text PandasText Formatters Pandas Pivoting PivotSpec MissingSpec TotalSpec
       ValidationSpec GroupingFacts PivotFacts PivotProps MissingFacts SortFacts
       PivotSums PipelineEdges.
Local Open Scope list_scope.



















End TotalProps.
